(** * daily_stock_analysis: configuration, Feishu watchlist reader and
      data-source strategy layer

    Shallow embedding of [config.py], [feishu_url_helper.py],
    [feishu_bitable.py] and of the strategy layer announced by
    [data_provider/__init__.py].

    Conventions.
    - A Python [str] is a [string]; one [ascii] stands for one character, so
      the model ranges over the characters with code point below 256. The
      non-Latin dictionary keys of the source are written as their UTF-8
      bytes; they are only ever compared for equality.
    - Python [float] values (delays, timestamps) are rationals [Q].
    - A raised exception is a value of an error type; [None] is [option]'s
      [None] or the JSON null.
    - HTTP traffic is explicit: each request is appended to a trace and
      answered by the next entry of a script of vendor replies. *)

From Stdlib Require Import Ascii QArith Qminmax Qpower Lqa Sorted Permutation.
From stdpp Require Import gmap strings list.

Local Open Scope Z_scope.

(** ** Python string primitives *)

Module Py.

(** [c in s] for a one-character [c]. *)
Fixpoint contains (c : ascii) (s : string) : bool :=
  match s with
  | "" => false
  | String a s' => if decide (a = c) then true else contains c s'
  end.

(** [str.isspace] on one character: the Unicode white space below 256. *)
Definition isspace (c : ascii) : bool :=
  match c with
  | "009" | "010" | "011" | "012" | "013"
  | "028" | "029" | "030" | "031" | " " | "133" | "160" => true
  | _ => false
  end%char.

(** [str.isdigit] on one character: besides 0-9 Python accepts the
    superscript digits U+00B2, U+00B3 and U+00B9. *)
Definition isdigit_char (c : ascii) : bool :=
  match c with
  | "0" | "1" | "2" | "3" | "4" | "5" | "6" | "7" | "8" | "9"
  | "178" | "179" | "185" => true
  | _ => false
  end%char.

(** The ten ASCII decimal digits. *)
Definition is_decimal_char (c : ascii) : bool :=
  match c with
  | "0" | "1" | "2" | "3" | "4" | "5" | "6" | "7" | "8" | "9" => true
  | _ => false
  end%char.

Fixpoint forallb_str (p : ascii → bool) (s : string) : bool :=
  match s with
  | "" => true
  | String a s' => p a && forallb_str p s'
  end.

(** [s.isdigit()]: non-empty and every character a digit. *)
Definition isdigit (s : string) : bool :=
  match s with
  | "" => false
  | _ => forallb_str isdigit_char s
  end.

(** [s.lstrip(chars)] and [s.rstrip(chars)], the set of characters given as
    a predicate. *)
Fixpoint lstrip_by (p : ascii → bool) (s : string) : string :=
  match s with
  | "" => ""
  | String a s' => if p a then lstrip_by p s' else s
  end.

Fixpoint rstrip_by (p : ascii → bool) (s : string) : string :=
  match s with
  | "" => ""
  | String a s' =>
      match rstrip_by p s' with
      | "" => if p a then "" else String a ""
      | r => String a r
      end
  end.

(** [s.strip()] *)
Definition strip (s : string) : string := rstrip_by isspace (lstrip_by isspace s).

(** [s.rstrip('/')] *)
Definition rstrip_char (c : ascii) (s : string) : string :=
  rstrip_by (λ a, bool_decide (a = c)) s.

(** [s.split(sep)] for a one-character separator: never the empty list. *)
Fixpoint split (sep : ascii) (s : string) : list string :=
  match s with
  | "" => [""]
  | String a s' =>
      if decide (a = sep) then "" :: split sep s'
      else match split sep s' with
           | [] => [String a ""]
           | w :: ws => String a w :: ws
           end
  end.

(** [s.split(sep)[0]] *)
Definition split_head (sep : ascii) (s : string) : string :=
  match split sep s with
  | [] => ""
  | w :: _ => w
  end.

(** [s.startswith(p)] *)
Fixpoint startswith (p s : string) : bool :=
  match p, s with
  | "", _ => true
  | String a p', String b s' => if decide (a = b) then startswith p' s' else false
  | String _ _, "" => false
  end.

(** [s.replace(old, new)] for a non-empty [old]: occurrences are replaced
    from the left and do not overlap; [skip] counts the characters of an
    occurrence still to be dropped. *)
Fixpoint replace_go (old new : string) (skip : nat) (s : string) : string :=
  match s with
  | "" => ""
  | String a s' =>
      match skip with
      | S k => replace_go old new k s'
      | O =>
          if startswith old s
          then new +:+ replace_go old new (Nat.pred (String.length old)) s'
          else String a (replace_go old new O s')
      end
  end.

Definition replace (old new s : string) : string := replace_go old new O s.

(** [s.lower()] restricted to the modelled characters. *)
Definition lower_char (c : ascii) : ascii :=
  let n := Ascii.N_of_ascii c in
  if ((65 <=? n) && (n <=? 90))%N then Ascii.ascii_of_N (n + 32)
  else if ((192 <=? n) && (n <=? 222) && negb (n =? 215))%N
       then Ascii.ascii_of_N (n + 32)
  else c.

Fixpoint lower (s : string) : string :=
  match s with
  | "" => ""
  | String a s' => String (lower_char a) (lower s')
  end.

(** Truth value of a string: non-empty. *)
Definition truthy_str (s : string) : bool :=
  match s with "" => false | _ => true end.

(** Truth value of an [Optional[str]]. *)
Definition truthy_opt (o : option string) : bool :=
  match o with Some s => truthy_str s | None => false end.

End Py.

(** ** config.py *)

(** The dataclass [Config]. Its annotated attribute [_instance] is the
    class-level singleton slot; it lives in [State] below. *)
Record Config := {
  stock_list : list string;
  feishu_app_id : option string;
  feishu_app_secret : option string;
  feishu_folder_token : option string;
  tushare_token : option string;
  ai_provider : string;
  gemini_api_key : option string;
  gemini_model : string;
  gemini_model_fallback : string;
  gemini_request_delay : Q;
  gemini_max_retries : Z;
  gemini_retry_delay : Q;
  gemini_request_timeout : Z;
  openai_preferred : bool;
  openai_api_key : option string;
  openai_base_url : option string;
  openai_model : string;
  openrouter_api_key : option string;
  openrouter_base_url : string;
  openrouter_model : string;
  deepseek_api_key : option string;
  deepseek_base_url : string;
  deepseek_model : string;
  dashscope_api_key : option string;
  dashscope_base_url : string;
  dashscope_model : string;
  google_search_api_key : option string;
  google_search_engine_id : option string;
  tavily_api_keys : list string;
  serpapi_keys : list string;
  wechat_webhook_url : option string;
  feishu_webhook_url : option string;
  telegram_bot_token : option string;
  telegram_chat_id : option string;
  email_sender : option string;
  email_password : option string;
  email_receivers : list string;
  custom_webhook_urls : list string;
  feishu_max_bytes : Z;
  wechat_max_bytes : Z;
  database_path : string;
  log_dir : string;
  log_level : string;
  max_workers : Z;
  debug : bool;
  schedule_enabled : bool;
  schedule_time : string;
  market_review_enabled : bool;
  akshare_sleep_min : Q;
  akshare_sleep_max : Q;
  tushare_rate_limit_per_minute : Z;
  max_retries : Z;
  retry_base_delay : Q;
  retry_max_delay : Q;
}.

(** [self.stock_list = l] *)
Definition set_stock_list (l : list string) (c : Config) : Config :=
  {| stock_list := l;
     feishu_app_id := feishu_app_id c;
     feishu_app_secret := feishu_app_secret c;
     feishu_folder_token := feishu_folder_token c;
     tushare_token := tushare_token c;
     ai_provider := ai_provider c;
     gemini_api_key := gemini_api_key c;
     gemini_model := gemini_model c;
     gemini_model_fallback := gemini_model_fallback c;
     gemini_request_delay := gemini_request_delay c;
     gemini_max_retries := gemini_max_retries c;
     gemini_retry_delay := gemini_retry_delay c;
     gemini_request_timeout := gemini_request_timeout c;
     openai_preferred := openai_preferred c;
     openai_api_key := openai_api_key c;
     openai_base_url := openai_base_url c;
     openai_model := openai_model c;
     openrouter_api_key := openrouter_api_key c;
     openrouter_base_url := openrouter_base_url c;
     openrouter_model := openrouter_model c;
     deepseek_api_key := deepseek_api_key c;
     deepseek_base_url := deepseek_base_url c;
     deepseek_model := deepseek_model c;
     dashscope_api_key := dashscope_api_key c;
     dashscope_base_url := dashscope_base_url c;
     dashscope_model := dashscope_model c;
     google_search_api_key := google_search_api_key c;
     google_search_engine_id := google_search_engine_id c;
     tavily_api_keys := tavily_api_keys c;
     serpapi_keys := serpapi_keys c;
     wechat_webhook_url := wechat_webhook_url c;
     feishu_webhook_url := feishu_webhook_url c;
     telegram_bot_token := telegram_bot_token c;
     telegram_chat_id := telegram_chat_id c;
     email_sender := email_sender c;
     email_password := email_password c;
     email_receivers := email_receivers c;
     custom_webhook_urls := custom_webhook_urls c;
     feishu_max_bytes := feishu_max_bytes c;
     wechat_max_bytes := wechat_max_bytes c;
     database_path := database_path c;
     log_dir := log_dir c;
     log_level := log_level c;
     max_workers := max_workers c;
     debug := debug c;
     schedule_enabled := schedule_enabled c;
     schedule_time := schedule_time c;
     market_review_enabled := market_review_enabled c;
     akshare_sleep_min := akshare_sleep_min c;
     akshare_sleep_max := akshare_sleep_max c;
     tushare_rate_limit_per_minute := tushare_rate_limit_per_minute c;
     max_retries := max_retries c;
     retry_base_delay := retry_base_delay c;
     retry_max_delay := retry_max_delay c |}.

(** The process as [config.py] sees it: [os.environ], the parsed content of
    the [.env] file next to the module ([None] when the file does not exist;
    a key without a value maps to [None], as [dotenv_values] reports it), the
    [Config] objects allocated so far, addressed by position, and the class
    attribute [Config._instance], a reference into them. *)
Record State := {
  environ : gmap string string;
  dotenv : option (gmap string (option string));
  heap : list Config;
  _instance : option nat;
}.

(** [os.getenv(key)] and [os.getenv(key, default)] *)
Definition getenv (st : State) (key : string) : option string :=
  environ st !! key.

Definition getenv_default (st : State) (key dflt : string) : string :=
  default dflt (environ st !! key).

(** [load_dotenv(dotenv_path=env_path)]: every key of the file that has a
    value and is not yet in [os.environ] is added; existing variables win. *)
Definition load_dotenv (st : State) : State :=
  match dotenv st with
  | None => st
  | Some d =>
      {| environ := environ st ∪ omap id d;
         dotenv := dotenv st; heap := heap st; _instance := _instance st |}
  end.

(** [[x.strip() for x in s.split(',') if x.strip()]] *)
Definition csv_entries (s : string) : list string :=
  List.filter Py.truthy_str (List.map Py.strip (Py.split "," s)).

(** [os.getenv(key, dflt).lower() == 'true'] *)
Definition getenv_flag (st : State) (key dflt : string) : bool :=
  bool_decide (Py.lower (getenv_default st key dflt) = "true").

(** Outcome of a call that may raise. *)
Inductive exn := ValueError | TypeError | AttributeError | KeyError.

Inductive result (A : Type) :=
  | Ok (a : A)
  | Raise (e : exn).
Arguments Ok {A} a.
Arguments Raise {A} e.

Section ConfigLoading.

(** The builtin conversions [int(s)] and [float(s)]; [None] stands for the
    [ValueError] they raise on text that is not a number. *)
Variable py_int : string → option Z.
Variable py_float : string → option Q.

(** [Config._load_from_env]: the loaded configuration, or [None] when one of
    the numeric variables does not parse; [os.environ] keeps what
    [load_dotenv] added either way. *)
Definition _load_from_env (st : State) : option Config * State :=
  let st := load_dotenv st in
  let stock_list_str := getenv_default st "STOCK_LIST" "" in
  let stock_list0 := csv_entries stock_list_str in
  let stock_list1 :=
    match stock_list0 with
    | [] => ["600519"; "000001"; "300750"]
    | _ => stock_list0
    end in
  let tavily_keys_str := getenv_default st "TAVILY_API_KEYS" "" in
  let tavily := csv_entries tavily_keys_str in
  let serpapi_keys_str := getenv_default st "SERPAPI_API_KEYS" "" in
  let serpapi := csv_entries serpapi_keys_str in
  (g_delay ← py_float (getenv_default st "GEMINI_REQUEST_DELAY" "2.0");
   g_retries ← py_int (getenv_default st "GEMINI_MAX_RETRIES" "5");
   g_retry_delay ← py_float (getenv_default st "GEMINI_RETRY_DELAY" "5.0");
   g_timeout ← py_int (getenv_default st "GEMINI_REQUEST_TIMEOUT" "60");
   fs_bytes ← py_int (getenv_default st "FEISHU_MAX_BYTES" "20000");
   wx_bytes ← py_int (getenv_default st "WECHAT_MAX_BYTES" "4000");
   workers ← py_int (getenv_default st "MAX_WORKERS" "3");
   Some
     {| stock_list := stock_list1;
        feishu_app_id := getenv st "FEISHU_APP_ID";
        feishu_app_secret := getenv st "FEISHU_APP_SECRET";
        feishu_folder_token := getenv st "FEISHU_FOLDER_TOKEN";
        tushare_token := getenv st "TUSHARE_TOKEN";
        ai_provider := getenv_default st "AI_PROVIDER" "auto";
        gemini_api_key := getenv st "GEMINI_API_KEY";
        gemini_model := getenv_default st "GEMINI_MODEL" "gemini-3-flash-preview";
        gemini_model_fallback :=
          getenv_default st "GEMINI_MODEL_FALLBACK" "gemini-2.5-flash";
        gemini_request_delay := g_delay;
        gemini_max_retries := g_retries;
        gemini_retry_delay := g_retry_delay;
        gemini_request_timeout := g_timeout;
        openai_preferred := getenv_flag st "OPENAI_PREFERRED" "false";
        openai_api_key := getenv st "OPENAI_API_KEY";
        openai_base_url := getenv st "OPENAI_BASE_URL";
        openai_model := getenv_default st "OPENAI_MODEL" "gpt-4o-mini";
        openrouter_api_key := getenv st "OPENROUTER_API_KEY";
        openrouter_base_url :=
          getenv_default st "OPENROUTER_BASE_URL" "https://openrouter.ai/api/v1";
        openrouter_model :=
          getenv_default st "OPENROUTER_MODEL" "anthropic/claude-3.5-sonnet";
        deepseek_api_key := getenv st "DEEPSEEK_API_KEY";
        deepseek_base_url :=
          getenv_default st "DEEPSEEK_BASE_URL" "https://api.deepseek.com/v1";
        deepseek_model := getenv_default st "DEEPSEEK_MODEL" "deepseek-chat";
        dashscope_api_key := getenv st "DASHSCOPE_API_KEY";
        dashscope_base_url :=
          getenv_default st "DASHSCOPE_BASE_URL"
            "https://dashscope.aliyuncs.com/compatible-mode/v1";
        dashscope_model := getenv_default st "DASHSCOPE_MODEL" "qwen-plus";
        google_search_api_key := getenv st "GOOGLE_SEARCH_API_KEY";
        google_search_engine_id := getenv st "GOOGLE_SEARCH_ENGINE_ID";
        tavily_api_keys := tavily;
        serpapi_keys := serpapi;
        wechat_webhook_url := getenv st "WECHAT_WEBHOOK_URL";
        feishu_webhook_url := getenv st "FEISHU_WEBHOOK_URL";
        telegram_bot_token := getenv st "TELEGRAM_BOT_TOKEN";
        telegram_chat_id := getenv st "TELEGRAM_CHAT_ID";
        email_sender := getenv st "EMAIL_SENDER";
        email_password := getenv st "EMAIL_PASSWORD";
        email_receivers := csv_entries (getenv_default st "EMAIL_RECEIVERS" "");
        custom_webhook_urls :=
          csv_entries (getenv_default st "CUSTOM_WEBHOOK_URLS" "");
        feishu_max_bytes := fs_bytes;
        wechat_max_bytes := wx_bytes;
        database_path :=
          getenv_default st "DATABASE_PATH" "./data/stock_analysis.db";
        log_dir := getenv_default st "LOG_DIR" "./logs";
        log_level := getenv_default st "LOG_LEVEL" "INFO";
        max_workers := workers;
        debug := getenv_flag st "DEBUG" "false";
        schedule_enabled := getenv_flag st "SCHEDULE_ENABLED" "false";
        schedule_time := getenv_default st "SCHEDULE_TIME" "18:00";
        market_review_enabled := getenv_flag st "MARKET_REVIEW_ENABLED" "true";
        (* not passed to the constructor: the dataclass defaults *)
        akshare_sleep_min := 2;
        akshare_sleep_max := 5;
        tushare_rate_limit_per_minute := 80;
        max_retries := 3;
        retry_base_delay := 1;
        retry_max_delay := 30 |},
   st).

(** [Config.get_instance]: a reference to the singleton. When
    [_load_from_env] raises, [_instance] stays [None]. *)
Definition get_instance (st : State) : result nat * State :=
  match _instance st with
  | Some l => (Ok l, st)
  | None =>
      let '(r, st1) := _load_from_env st in
      match r with
      | Some c =>
          let l := length (heap st1) in
          (Ok l, {| environ := environ st1; dotenv := dotenv st1;
                    heap := heap st1 ++ [c]; _instance := Some l |})
      | None => (Raise ValueError, st1)
      end
  end.

(** [get_config()] *)
Definition get_config := get_instance.

End ConfigLoading.

(** [Config.reset_instance] *)
Definition reset_instance (st : State) : State :=
  {| environ := environ st; dotenv := dotenv st; heap := heap st;
     _instance := None |}.

(** The text [refresh_stock_list] parses: the [.env] value when the file
    exists and gives a non-blank one, else the OS variable. *)
Definition refresh_source (st : State) : string :=
  let stock_list_str :=
    match dotenv st with
    | Some env_values =>
        Py.strip
          (match env_values !! "STOCK_LIST" with
           | Some (Some v) => if Py.truthy_str v then v else ""
           | _ => ""
           end)
    | None => ""
    end in
  if Py.truthy_str stock_list_str then stock_list_str
  else getenv_default st "STOCK_LIST" "".

(** The watchlist [refresh_stock_list] assigns. *)
Definition refreshed_stock_list (st : State) : list string :=
  let stock_list0 := csv_entries (refresh_source st) in
  match stock_list0 with
  | [] => ["000001"]
  | _ => stock_list0
  end.

(** [self.refresh_stock_list()] on the object at address [self]: the object
    is updated in place, so every holder of the reference sees the change. *)
Definition refresh_stock_list (self : nat) (st : State) : State :=
  match heap st !! self with
  | Some c =>
      {| environ := environ st; dotenv := dotenv st;
         heap := <[self := set_stock_list (refreshed_stock_list st) c]> (heap st);
         _instance := _instance st |}
  | None => st
  end.

(** ** feishu_url_helper.py *)

(** The fragment of Python's [re] syntax that the two patterns use: a
    literal character or a negated one-character class, taken once, taken
    optionally ([?]), or repeated inside a capturing group ([([^c]+)]), and
    the end anchor [$]. Quantifiers are greedy and backtrack. *)
Module Re.

Inductive cls :=
  | Lit (c : ascii)
  | NotLit (c : ascii).

Inductive node :=
  | One (k : cls)
  | Opt (k : cls)
  | GroupPlus (k : cls)
  | Dollar.

Definition accepts (k : cls) (a : ascii) : bool :=
  match k with
  | Lit c => bool_decide (a = c)
  | NotLit c => negb (bool_decide (a = c))
  end.

(** [$] without [re.MULTILINE]: the end of the text, or just before a
    newline that ends the text. *)
Definition at_end (s : string) : bool :=
  match s with
  | "" => true
  | String "010" "" => true
  | _ => false
  end.

(** One or more characters of class [k], longest first, then the rest of
    the pattern [cont]; returns the text of the group and the later groups. *)
Fixpoint plus_go (k : cls) (cont : string → option (list string))
    (s : string) : option (string * list string) :=
  match s with
  | "" => None
  | String a s' =>
      if accepts k a then
        match plus_go k cont s' with
        | Some (g, caps) => Some (String a g, caps)
        | None =>
            match cont s' with
            | Some caps => Some (String a "", caps)
            | None => None
            end
        end
      else None
  end.

(** Match pattern [p] at the start of [s]: the texts of the groups. *)
Fixpoint match_here (p : list node) (s : string) : option (list string) :=
  match p with
  | [] => Some []
  | One k :: p' =>
      match s with
      | String a s' => if accepts k a then match_here p' s' else None
      | "" => None
      end
  | Opt k :: p' =>
      match s with
      | String a s' =>
          if accepts k a then
            match match_here p' s' with
            | Some caps => Some caps
            | None => match_here p' s
            end
          else match_here p' s
      | "" => match_here p' s
      end
  | GroupPlus k :: p' =>
      match plus_go k (match_here p') s with
      | Some (g, caps) => Some (g :: caps)
      | None => None
      end
  | Dollar :: p' => if at_end s then match_here p' s else None
  end.

(** [re.search(p, s)]: the leftmost position where [p] matches. *)
Fixpoint search (p : list node) (s : string) : option (list string) :=
  match match_here p s with
  | Some caps => Some caps
  | None =>
      match s with
      | "" => None
      | String _ s' => search p s'
      end
  end.

(** A run of literal characters. *)
Fixpoint lits (s : string) : list node :=
  match s with
  | "" => []
  | String a s' => One (Lit a) :: lits s'
  end.

End Re.

(** [([^/]+)] *)
Definition group_seg : Re.node := Re.GroupPlus (Re.NotLit "/").

(** [r'/base/([^/]+)/~/([^/]+)'] *)
Definition pattern : list Re.node :=
  Re.lits "/base/" ++ [group_seg] ++ Re.lits "/~/" ++ [group_seg].

(** [r'/base/([^/]+)/?$'] *)
Definition pattern2 : list Re.node :=
  Re.lits "/base/" ++ [group_seg; Re.Opt (Re.Lit "/"); Re.Dollar].

(** [parse_feishu_bitable_url]: [(app_token, table_id, full_token)] with
    [table_id = None] when only the application token was found. *)
Definition parse_feishu_bitable_url (url : string)
    : option (string * option string * string) :=
  let url := if Py.contains "?" url then Py.split_head "?" url else url in
  let url := Py.rstrip_char "/" url in
  match Re.search pattern url with
  | Some [app_token; table_id] =>
      Some (app_token, Some table_id, app_token +:+ "/" +:+ table_id)
  | Some _ => None  (* unreachable: the pattern has two groups *)
  | None =>
      match Re.search pattern2 url with
      | Some [app_token] => Some (app_token, None, app_token)
      | _ => None
      end
  end.

(** ** feishu_bitable.py *)

(** A decoded JSON document, as [response.json()] returns it. A [dict] is
    read through [dict_get], which takes the first binding of a key. *)
#[warnings="-register-all"]
Inductive json :=
  | JNull
  | JBool (b : bool)
  | JNum (q : Q)
  | JStr (s : string)
  | JList (l : list json)
  | JDict (m : list (string * json)).

Fixpoint dict_get (m : list (string * json)) (key : string) : option json :=
  match m with
  | [] => None
  | (k, v) :: m' => if decide (k = key) then Some v else dict_get m' key
  end.

(** Truth value of a Python object. *)
Definition truthy (j : json) : bool :=
  match j with
  | JNull => false
  | JBool b => b
  | JNum q => negb (Qeq_bool q 0)
  | JStr s => Py.truthy_str s
  | JList l => match l with [] => false | _ => true end
  | JDict m => match m with [] => false | _ => true end
  end.

(** [j == 0] *)
Definition eq_zero (j : json) : bool :=
  match j with
  | JNum q => Qeq_bool q 0
  | JBool b => negb b
  | _ => false
  end.

(** [sub in s] on strings: [sub] occurs in [s]. *)
Fixpoint substring_in (sub s : string) : bool :=
  Py.startswith sub s ||
  match s with
  | "" => false
  | String _ s' => substring_in sub s'
  end.

Definition is_jstr (key : string) (j : json) : bool :=
  match j with
  | JStr s => bool_decide (s = key)
  | _ => false
  end.

(** [key in j] *)
Definition py_in (key : string) (j : json) : result bool :=
  match j with
  | JDict m => Ok (bool_decide (is_Some (dict_get m key)))
  | JList l => Ok (existsb (is_jstr key) l)
  | JStr s => Ok (substring_in key s)
  | _ => Raise TypeError
  end.

(** [j[key]] for a string [key] *)
Definition py_getitem (j : json) (key : string) : result json :=
  match j with
  | JDict m =>
      match dict_get m key with
      | Some v => Ok v
      | None => Raise KeyError
      end
  | _ => Raise TypeError
  end.

(** [j.get(key, dflt)] *)
Definition py_get (j : json) (key : string) (dflt : json) : result json :=
  match j with
  | JDict m => Ok (default dflt (dict_get m key))
  | _ => Raise AttributeError
  end.

(** The attributes of a reader. They are taken as given: [__init__] copies
    the first three from configuration fields ([feishu_app_id_bitable],
    [feishu_app_secret_bitable], [feishu_table_token]) that the [Config] of
    config.py does not declare. [_access_token] holds whatever the vendor
    sent under ["tenant_access_token"]; [JNull] is Python's [None]. *)
Record FeishuBitableReader := {
  app_id : option string;
  app_secret : option string;
  table_token : option string;
  _access_token : json;
  _token_expires_at : option Q;
}.

(** The two requests the reader can send. *)
Inductive request :=
  | PostToken (id secret : option string)
  | GetRecords (app_token table_id : string) (access_token : json)
      (page_size : Z) (page_token : option json).

(** What comes back: [requests] raised (connection, timeout, HTTP status),
    decoding the body raised, or a decoded body. *)
Inductive reply :=
  | RequestException
  | DecodeError
  | Body (data : json).

(** The outside world: the clock read by [datetime.now().timestamp()], the
    replies still to come, each with the time the exchange takes, and the
    requests sent so far. Once the script is used up every request fails. *)
Record Net := {
  now : Q;
  script : list (Q * reply);
  trace : list request;
}.

(** What a method can raise; [LoopBound] is not a Python exception: it marks
    a paging loop cut off by the bound of the model, which [pages_bound]
    below shows never happens. *)
Inductive fexn :=
  | PyExn (e : exn)
  | RequestsError
  | OtherError
  | LoopBound.

Inductive outcome (A : Type) :=
  | Return (a : A)
  | Raised (e : fexn).
Arguments Return {A} a.
Arguments Raised {A} e.

(** Methods of the reader: state passing over the reader's attributes and
    the world, with exceptions. *)
Definition M (A : Type) : Type :=
  FeishuBitableReader * Net → outcome A * (FeishuBitableReader * Net).

Definition ret {A} (a : A) : M A := λ s, (Return a, s).

Definition bind {A B} (m : M A) (k : A → M B) : M B :=
  λ s, match m s with
       | (Return a, s') => k a s'
       | (Raised e, s') => (Raised e, s')
       end.

Notation "x <- m ;; k" := (bind m (λ x, k))
  (at level 100, m at next level, right associativity).
Notation "m ;;; k" := (bind m (λ _, k))
  (at level 100, right associativity).

Definition raise {A} (e : fexn) : M A := λ s, (Raised e, s).

(** [try: m  except Exception: h] *)
Definition try_except {A} (m : M A) (h : M A) : M A :=
  λ s, match m s with
       | (Return a, s') => (Return a, s')
       | (Raised _, s') => h s'
       end.

Definition lift {A} (r : result A) : M A :=
  match r with
  | Ok a => ret a
  | Raise e => raise (PyExn e)
  end.

Definition self : M FeishuBitableReader := λ s, (Return (fst s), s).

Definition timestamp : M Q := λ s, (Return (now (snd s)), s).

Definition set_token (tok : json) (expires : Q) : M unit :=
  λ '(r, n),
    (Return tt,
     ({| app_id := app_id r; app_secret := app_secret r;
         table_token := table_token r;
         _access_token := tok; _token_expires_at := Some expires |}, n)).

(** Send [req] and decode the reply: the request is logged, the clock moves
    on, and the next scripted reply decides the outcome. *)
Definition http (req : request) : M json :=
  λ '(r, n),
    match script n with
    | [] =>
        (Raised RequestsError,
         (r, {| now := now n; script := []; trace := trace n ++ [req] |}))
    | (dt, rep) :: rest =>
        let n' := {| now := now n + dt; script := rest;
                     trace := trace n ++ [req] |} in
        match rep with
        | RequestException => (Raised RequestsError, (r, n'))
        | DecodeError => (Raised OtherError, (r, n'))
        | Body data => (Return data, (r, n'))
        end
    end.

Definition Qltb (a b : Q) : bool := negb (Qle_bool b a).

(** [is_configured] *)
Definition is_configured (r : FeishuBitableReader) : bool :=
  Py.truthy_opt (app_id r) && Py.truthy_opt (app_secret r) &&
  Py.truthy_opt (table_token r).

(** The test that guards the cached token:
    [self._access_token and self._token_expires_at] and
    [datetime.now().timestamp() < self._token_expires_at]. *)
Definition token_fresh (r : FeishuBitableReader) (t : Q) : bool :=
  truthy (_access_token r) &&
  match _token_expires_at r with
  | Some e => negb (Qeq_bool e 0) && Qltb t e
  | None => false
  end.

(** [_get_tenant_access_token] *)
Definition _get_tenant_access_token : M json :=
  r <- self ;;
  t <- timestamp ;;
  if token_fresh r t then ret (_access_token r)
  else
    try_except
      (data <- http (PostToken (app_id r) (app_secret r)) ;;
       code <- lift (py_get data "code" JNull) ;;
       if negb (eq_zero code) then ret JNull
       else
         tok <- lift (py_get data "tenant_access_token" JNull) ;;
         t' <- timestamp ;;
         set_token tok (t' + 5400) ;;;
         ret tok)
      (ret JNull).

(** [_list_table_records]: the decoded body, or [None]. *)
Definition _list_table_records (app_token table_id : string)
    (page_size : Z) (page_token : option json) : M (option json) :=
  access_token <- _get_tenant_access_token ;;
  if negb (truthy access_token) then ret None
  else
    let page_token :=
      match page_token with
      | Some p => if truthy p then Some p else None
      | None => None
      end in
    try_except
      (data <- http (GetRecords app_token table_id access_token
                       page_size page_token) ;;
       code <- lift (py_get data "code" JNull) ;;
       if negb (eq_zero code) then ret None
       else ret (Some data))
      (ret None).

(** [for record in items]: the values the loop visits. *)
Definition py_iter (j : json) : result (list json) :=
  match j with
  | JList l => Ok l
  | JDict m => Ok (List.map (λ kv, JStr (fst kv)) m)
  | JStr s => Ok (List.map (λ c, JStr (String c "")) (String.list_ascii_of_string s))
  | _ => Raise TypeError
  end.

Definition rbind {A B} (r : result A) (k : A → result B) : result B :=
  match r with
  | Ok a => k a
  | Raise e => Raise e
  end.

Notation "x <-r m ;; k" := (rbind m (λ x, k))
  (at level 100, m at next level, right associativity).

(** The [if]/[elif] chain that picks the field of a record. *)
Fixpoint pick_field (names : list string) (fields : json) : result json :=
  match names with
  | [] => Ok JNull
  | name :: names' =>
      b <-r py_in name fields ;;
      if b : bool then py_getitem fields name else pick_field names' fields
  end.

Definition field_names_tried (field_name : string) : list string :=
  [field_name; "股票代码"; "代码"; "code"; "Code"].

(** [strip], drop every ["sz"] then every ["sh"], keep what precedes the
    first ["."]. *)
Definition clean_code (s : string) : string :=
  Py.split_head "." (Py.replace "sh" "" (Py.replace "sz" "" (Py.strip s))).

(** [stock_code and len(stock_code) == 6 and stock_code.isdigit()] *)
Definition code_ok (s : string) : bool :=
  Py.truthy_str s && bool_decide (String.length s = 6%nat) && Py.isdigit s.

(** The body of the loop of [_extract_stock_codes] for one record: the
    codes it appends. *)
Definition extract_one (field_name : string) (record : json)
    : result (list string) :=
  fields <-r py_get record "fields" (JDict []) ;;
  stock_code <-r pick_field (field_names_tried field_name) fields ;;
  if truthy stock_code then
    let stock_code :=
      match stock_code with
      | JList (x :: _) => x
      | JList [] => JNull
      | _ => stock_code
      end in
    match stock_code with
    | JStr s =>
        let s := clean_code s in
        if code_ok s then Ok [s] else Ok []
    | _ => Ok []
    end
  else Ok [].

Fixpoint extract_loop (field_name : string) (records : list json)
    (stock_codes : list string) : result (list string) :=
  match records with
  | [] => Ok stock_codes
  | record :: rest =>
      new <-r extract_one field_name record ;;
      extract_loop field_name rest (stock_codes ++ new)
  end.

(** [_extract_stock_codes] *)
Definition _extract_stock_codes (items : json) (field_name : string)
    : result (list string) :=
  records <-r py_iter items ;;
  extract_loop field_name records [].

(** One page of a paged read: the rows of the page and the paging fields. *)
Definition page_fields (result : json) : outcome (json * json * json) :=
  match py_get result "data" (JDict []) with
  | Raise e => Raised (PyExn e)
  | Ok data =>
      match py_get data "items" (JList []),
            py_get data "has_more" (JBool false),
            py_get data "page_token" JNull with
      | Ok items, Ok has_more, Ok page_token =>
          Return (items, has_more, page_token)
      | _, _, _ => Raised (PyExn AttributeError)
      end
  end.

Section Paging.

Context {A : Type}.
(** What a page contributes ([_extract_stock_codes] or [_process_records]). *)
Variable process : json → result (list A).
Variables app_token table_id : string.

(** The [while has_more and page_token] loop. Every round either stops or
    uses up a scripted reply, so [fuel] above the length of the script is
    never exhausted. *)
Fixpoint pages (fuel : nat) (has_more page_token : json) (acc : list A)
    : M (list A) :=
  if truthy has_more && truthy page_token then
    match fuel with
    | O => raise LoopBound
    | S fuel' =>
        result <- _list_table_records app_token table_id 100
                    (Some page_token) ;;
        match result with
        | None => ret acc
        | Some result =>
            if negb (truthy result) then ret acc
            else
              match page_fields result with
              | Raised e => raise e
              | Return (items, has_more', page_token') =>
                  new <- lift (process items) ;;
                  pages fuel' has_more' page_token' (acc ++ new)
              end
        end
    end
  else ret acc.

(** From the first page on: shared by [read_stock_list] and
    [get_table_records]. *)
Definition read_pages : M (list A) :=
  result <- _list_table_records app_token table_id 100 None ;;
  match result with
  | None => ret []
  | Some result =>
      if negb (truthy result) then ret []
      else
        match page_fields result with
        | Raised e => raise e
        | Return (items, has_more, page_token) =>
            new <- lift (process items) ;;
            λ s, pages (S (length (script (snd s)))) has_more page_token
                   new s
        end
  end.

End Paging.

(** The guard both readers start with: [[]] when the reader is not
    configured or the table token has no ["/"]; unpacking the split raises
    [ValueError] unless it has exactly two parts. *)
Definition with_table {A} (k : string → string → M (list A)) : M (list A) :=
  r <- self ;;
  if negb (is_configured r) then ret []
  else
    let table_token := default "" (table_token r) in
    if Py.contains "/" table_token then
      match Py.split "/" table_token with
      | [app_token; table_id] => k app_token table_id
      | _ => raise (PyExn ValueError)
      end
    else ret [].

(** [read_stock_list]; [view_id] and [filter_formula] are not used by the
    source. *)
Definition read_stock_list (field_name : string) : M (list string) :=
  with_table (read_pages (λ items, _extract_stock_codes items field_name)).

Section Records.

(** The builtin [dict(x)]. *)
Variable py_dict : json → result json.

(** [_process_records] for one record. *)
Definition process_one (field_names : option (list string)) (record : json)
    : result (list json) :=
  fields <-r py_get record "fields" (JDict []) ;;
  let wanted :=
    match field_names with
    | Some (n :: ns) => Some (n :: ns)
    | _ => None
    end in
  match wanted with
  | Some names =>
      match fields with
      | JDict m =>
          Ok [JDict (List.filter
                       (λ kv, bool_decide (fst kv ∈ names)) m)]
      | _ => Raise AttributeError
      end
  | None => d <-r py_dict fields ;; Ok [d]
  end.

Fixpoint process_loop (field_names : option (list string))
    (records : list json) (processed : list json) : result (list json) :=
  match records with
  | [] => Ok processed
  | record :: rest =>
      new <-r process_one field_names record ;;
      process_loop field_names rest (processed ++ new)
  end.

Definition _process_records (items : json)
    (field_names : option (list string)) : result (list json) :=
  records <-r py_iter items ;;
  process_loop field_names records [].

(** [get_table_records] *)
Definition get_table_records (field_names : option (list string))
    : M (list json) :=
  with_table (read_pages (λ items, _process_records items field_names)).

End Records.

(** What can happen to the configuration of a running process: the calls of
    [config.py], and the environment changing under it. *)
Inductive op :=
  | GetInstance
  | ResetInstance
  | RefreshStockList (self : nat)
  | SetEnv (key value : string)
  | UnsetEnv (key : string)
  | WriteDotenv (content : option (gmap string (option string))).

Definition is_reset (o : op) : bool :=
  match o with ResetInstance => true | _ => false end.

Definition is_refresh (o : op) : bool :=
  match o with RefreshStockList _ => true | _ => false end.

Section ConfigRuns.

Variable py_int : string → option Z.
Variable py_float : string → option Q.

Definition step (o : op) (st : State) : State :=
  match o with
  | GetInstance => snd (get_instance py_int py_float st)
  | ResetInstance => reset_instance st
  | RefreshStockList self => refresh_stock_list self st
  | SetEnv key value =>
      {| environ := <[key := value]> (environ st); dotenv := dotenv st;
         heap := heap st; _instance := _instance st |}
  | UnsetEnv key =>
      {| environ := delete key (environ st); dotenv := dotenv st;
         heap := heap st; _instance := _instance st |}
  | WriteDotenv content =>
      {| environ := environ st; dotenv := content;
         heap := heap st; _instance := _instance st |}
  end.

Definition run (ops : list op) (st : State) : State :=
  foldl (λ st o, step o st) st ops.

End ConfigRuns.

(** Two configurations that agree on every field but [stock_list]. *)
Definition same_but_stock_list (c c' : Config) : Prop :=
  set_stock_list (stock_list c) c' = c.

(** A watchlist entry as the comprehensions leave it. *)
Definition stripped_nonempty (e : string) : Prop :=
  e ≠ "" ∧ Py.strip e = e.

(** The conversions [int] and [float] on the literals that the source passes
    as defaults. *)
Definition default_int (s : string) : option Z :=
  if decide (s = "5") then Some 5
  else if decide (s = "60") then Some 60
  else if decide (s = "20000") then Some 20000
  else if decide (s = "4000") then Some 4000
  else if decide (s = "3") then Some 3
  else None.

Definition default_float (s : string) : option Q :=
  if decide (s = "2.0") then Some 2%Q
  else if decide (s = "5.0") then Some 5%Q
  else None.

(** The settings of a configuration that the strategy layer consumes:
    [(max_retries, retry_base_delay, retry_max_delay)] and the Tushare quota
    per minute. *)
Definition retry_settings (c : Config) : Z * Q * Q :=
  (max_retries c, retry_base_delay c, retry_max_delay c).

Definition tushare_quota (c : Config) : Z := tushare_rate_limit_per_minute c.

(** ** The data-source strategy layer

    [data_provider/__init__.py] only re-exports [DataFetcherManager] and the
    fetchers from modules that are not part of the sources at hand, so this
    layer follows the design document. *)
Module Strategy.

Local Open Scope Q_scope.

(** Modelled from the spec: the data model of section 3 (the modules that
    declare it are missing): capabilities, provider identities and
    requests. *)
Inductive Capability := BasicInfo | DailyBars | RealtimeQuote.

Global Instance Capability_eq_dec : EqDecision Capability.
Proof. solve_decision. Defined.

(** Modelled from the spec: "ProviderIdentity: immutable descriptor {name,
    priority rank, supported capabilities}", lower rank tried first. *)
Record ProviderIdentity := {
  name : string;
  priority : nat;
  capabilities : list Capability;
}.

(** Modelled from the spec: "FetchRequest: {capability, symbol or
    symbol-set, optional date range, optional paging cursor}". *)
Record FetchRequest := {
  capability : Capability;
  symbol : string;
  date_range : option (string * string);
  cursor : option string;
}.

(** *** RateLimiter *)

(** Modelled from the spec: the quota window of section 3 and the quota
    ceiling of section 4.1 (the limiter's module is missing). A call made at
    [t] counts against the quota at time [now] while [now - 60 < t]; at
    [t + 60] it has aged out. *)
Definition window_seconds : Q := 60.

Definition in_window (now t : Q) : bool := Qltb (now - window_seconds) t.

(** Modelled from the spec: the calls of a provider that are within its
    quota window at time [now]. *)
Definition window (now : Q) (calls : list Q) : list Q :=
  List.filter (in_window now) calls.

(** Modelled from the spec: "the earliest call in the window". *)
Fixpoint earliest (calls : list Q) : option Q :=
  match calls with
  | [] => None
  | t :: rest =>
      match earliest rest with
      | None => Some t
      | Some t' => Some (if Qle_bool t t' then t else t')
      end
  end.

(** Modelled from the spec: "if the window is full, acquire blocks until the
    earliest call in the window ages out, recomputing at each check". The
    result is the time at which a slot is free; [None] is a check that found
    the window full with nothing in it to wait for, or the bound of the
    model. *)
Fixpoint slot_time (fuel : nat) (ceiling : nat) (calls : list Q) (now : Q)
    : option Q :=
  let w := window now calls in
  if (length w <? ceiling)%nat then Some now
  else
    match fuel, earliest w with
    | S fuel', Some t0 => slot_time fuel' ceiling calls (t0 + window_seconds)
    | _, _ => None
    end.

(** Modelled from the spec: the per-provider settings of sections 4.1 and 6,
    the quota ceiling and, for providers that declare it, the range of the
    anti-blocking delay. *)
Record ProviderLimits := {
  ceiling : nat;
  jitter_range : option (Q * Q);
}.

(** Modelled from the spec: the anti-blocking jitter of section 4.1, a delay
    within the configured range picked by the sample [u] of the unit
    interval; no delay for a provider without a range. *)
Definition jitter_delay (lim : ProviderLimits) (u : Q) : Q :=
  match jitter_range lim with
  | Some (lo, hi) => lo + u * (hi - lo)
  | None => 0
  end.

(** Modelled from the spec: the state of the limiter (ProviderState of
    section 3): per provider, the call timestamps of its current window,
    oldest first; created on first use. *)
Abbreviation limiter_state := (gmap string (list Q)).

Definition calls_of (st : limiter_state) (provider : string) : list Q :=
  default [] (st !! provider).

(** Modelled from the spec: [RateLimiter.acquire] (section 4.1). The caller
    arrives at [now]; the call is granted at the returned time, which is
    recorded into the provider's window after the jitter delay. *)
Definition acquire (lim : ProviderLimits) (provider : string) (u : Q)
    (now : Q) (st : limiter_state) : option (Q * limiter_state) :=
  let calls := calls_of st provider in
  match slot_time (S (length calls)) (ceiling lim) calls now with
  | None => None
  | Some t =>
      let t' := t + jitter_delay lim u in
      Some (t', <[provider := window t calls ++ [t']]> st)
  end.

(** Modelled from the spec: the simulated clock of the property test of
    section 8. Each caller names a provider, arrives [gap] seconds after the
    previous call was let through and draws the jitter sample [u]; callers
    come one after the other. The log lists the calls let through. *)
Record arrival := {
  to_provider : string;
  gap : Q;
  sample : Q;
}.

Fixpoint simulate (limits : string → ProviderLimits) (arrivals : list arrival)
    (clock : Q) (st : limiter_state) : list (string * Q) :=
  match arrivals with
  | [] => []
  | a :: rest =>
      let p := to_provider a in
      match acquire (limits p) p (sample a) (clock + gap a) st with
      | None => []
      | Some (t, st') => (p, t) :: simulate limits rest t st'
      end
  end.

(** Modelled from the spec: the number of calls of [provider] in the log
    within the rolling window [[s, s + 60)]. *)
Definition granted_in (provider : string) (s : Q) (log : list (string * Q))
    : nat :=
  length (List.filter
            (λ e, bool_decide (fst e = provider) &&
                  Qle_bool s (snd e) && Qltb (snd e) (s + window_seconds))
            log).

(** *** RetryPolicy *)

(** Modelled from the spec: the retry settings the configuration provider
    supplies (section 6). *)
Record RetryConfig := {
  max_retries : nat;
  retry_base_delay : Q;
  retry_max_delay : Q;
}.

(** The retry settings of a loaded [Config]. *)
Definition retry_config_of (c : Config) : RetryConfig :=
  let '(n, base, cap) := retry_settings c in
  {| max_retries := Z.to_nat n;
     retry_base_delay := base;
     retry_max_delay := cap |}.

Section Fetching.

Variable Payload : Type.

(** Modelled from the spec: what one provider call ends in, by the error
    taxonomy of section 7. *)
Inductive attempt :=
  | Success (p : Payload)
  | Transient (err : string)
  | Permanent (err : string).

(** Modelled from the spec: "FetchResult or terminal failure", the failure
    "carrying the last error and attempt count". *)
Inductive terminal :=
  | Succeeded (p : Payload) (attempts : nat)
  | Failed (last_error : option string) (attempts : nat).

Inductive retry_event :=
  | Tried (i : nat)
  | Backoff (d : Q).

(** Modelled from the spec: the retry executor of section 4.2 (its module is
    missing), as the state machine of section 9: attempting, backing off,
    exhausted or succeeded. At most [left] attempts remain, [i] is the
    number of the next one, and [d] the delay the executor carries: it
    starts at [retry_base_delay] and doubles after every backoff; what is
    slept is that delay capped at [retry_max_delay]. Only a transient
    failure is retried. *)
Fixpoint execute_from (cfg : RetryConfig) (left : nat) (i : nat) (d : Q)
    (operation : nat → attempt) : terminal * list retry_event :=
  match left with
  | O => (Failed None (Nat.pred i), [])
  | S left' =>
      match operation i with
      | Success p => (Succeeded p i, [Tried i])
      | Permanent err => (Failed (Some err) i, [Tried i])
      | Transient err =>
          match left' with
          | O => (Failed (Some err) i, [Tried i])
          | S _ =>
              let '(t, evs) :=
                execute_from cfg left' (S i) (d * 2) operation in
              (t, Tried i :: Backoff (Qmin d (retry_max_delay cfg)) :: evs)
          end
      end
  end.

(** Modelled from the spec: [RetryPolicy.execute] with up to [max_retries]
    attempts, the first included; [operation i] is the outcome of attempt
    [i]. *)
Definition execute (cfg : RetryConfig) (operation : nat → attempt)
    : terminal * list retry_event :=
  execute_from cfg (max_retries cfg) 1 (retry_base_delay cfg) operation.

(** Modelled from the spec: the backoff delay after attempt [i], counted
    from 1: the delay the executor carries at that attempt, capped. *)
Definition backoff_delay (cfg : RetryConfig) (i : nat) : Q :=
  Qmin (Nat.iter (Nat.pred i) (λ d, d * 2) (retry_base_delay cfg))
       (retry_max_delay cfg).

(** Modelled from the spec: the "exponential backoff sequence" of section
    8, the delays of the attempts [1 .. max_retries]. *)
Definition delay_sequence (cfg : RetryConfig) : list Q :=
  List.map (backoff_delay cfg) (seq 1 (max_retries cfg)).

Fixpoint backoffs (evs : list retry_event) : list Q :=
  match evs with
  | [] => []
  | Backoff d :: evs' => d :: backoffs evs'
  | Tried _ :: evs' => backoffs evs'
  end.

(** *** ProviderClient and FetcherManager *)

(** Modelled from the spec: "FetchResult: {provider name that produced it,
    payload, fetched-at timestamp}". *)
Record FetchResult := {
  provider : string;
  payload : Payload;
  fetched_at : Q;
}.

(** Modelled from the spec: the capability contract of section 4.3.
    [fetch request i] is what the vendor answers to attempt [i] of the
    request; [available] is what the adapter reports at registration. *)
Record ProviderClient := {
  identity : ProviderIdentity;
  limits : ProviderLimits;
  available : bool;
  fetch : FetchRequest → nat → attempt;
}.

Definition supports (p : ProviderClient) (c : Capability) : bool :=
  bool_decide (c ∈ capabilities (identity p)).

Definition rank (p : ProviderClient) : nat := priority (identity p).

(** Modelled from the spec: the manager of sections 3 and 4.4 (its module is
    missing): the clients in registration order and the retry settings. *)
Record FetcherManager := {
  registered : list ProviderClient;
  retry : RetryConfig;
}.

(** Modelled from the spec: registration (section 4.3); an unavailable
    adapter is left out of the provider list. *)
Definition register (p : ProviderClient) (m : FetcherManager)
    : FetcherManager :=
  if available p
  then {| registered := registered m ++ [p]; retry := retry m |}
  else m.

(** Modelled from the spec: "priority order, ties by registration order":
    lower rank first; among equal ranks the earlier registration first. *)
Fixpoint insert_by_rank (p : ProviderClient) (l : list ProviderClient)
    : list ProviderClient :=
  match l with
  | [] => [p]
  | q :: l' =>
      if (rank p <=? rank q)%nat then p :: q :: l'
      else q :: insert_by_rank p l'
  end.

Definition sort_by_rank (l : list ProviderClient) : list ProviderClient :=
  foldr insert_by_rank [] l.

(** Modelled from the spec: step 1 of the failover algorithm (section
    4.4). *)
Definition resolve (m : FetcherManager) (c : Capability)
    : list ProviderClient :=
  sort_by_rank (List.filter (λ p, supports p c) (registered m)).

(** Modelled from the spec: what a walk does, as a log: a rate-limit slot
    taken for a provider, an attempt made on it, a backoff slept. *)
Inductive event :=
  | Acquired (provider : string) (at_time : Q)
  | Attempted (provider : string) (i : nat)
  | Slept (d : Q).

(** Modelled from the spec: what the manager works on, the clock, the
    limiter's state, the jitter samples still to be drawn and the log of
    what happened. *)
Record World := {
  clock : Q;
  limiter : limiter_state;
  samples : list Q;
  events : list event;
}.

(** Modelled from the spec: an entry of the aggregated error, "each
    provider's terminal failure reason". *)
Record failure_entry := {
  failed_provider : string;
  reason : option string;
  attempts_made : nat;
}.

(** Modelled from the spec: "the first success or an aggregated failure",
    and the failure of a capability without providers (sections 4.4, 7). *)
Inductive fetch_outcome :=
  | Fetched (r : FetchResult)
  | NoProviderAvailable
  | Exhausted (failures : list failure_entry).

Definition tag (provider : string) (e : retry_event) : event :=
  match e with
  | Tried i => Attempted provider i
  | Backoff d => Slept d
  end.

Definition slept (evs : list retry_event) : Q :=
  foldr Qplus 0 (backoffs evs).

(** Modelled from the spec: steps 2 and 3 of the failover algorithm
    (section 4.4), without circuit breaking and without a request deadline,
    both optional there; [None] is a walk stuck in [acquire]. *)
Fixpoint walk (m : FetcherManager) (request : FetchRequest)
    (ps : list ProviderClient) (failures : list failure_entry) (w : World)
    : option (fetch_outcome * World) :=
  match ps with
  | [] => Some (Exhausted failures, w)
  | p :: rest =>
      let who := name (identity p) in
      let u := hd 0 (samples w) in
      match acquire (limits p) who u (clock w) (limiter w) with
      | None => None
      | Some (t, lim') =>
          let '(outcome, evs) := execute (retry m) (fetch p request) in
          let w' :=
            {| clock := t + slept evs;
               limiter := lim';
               samples := tl (samples w);
               events := events w ++ Acquired who t :: List.map (tag who) evs |} in
          match outcome with
          | Succeeded x _ =>
              Some (Fetched {| provider := who; payload := x;
                               fetched_at := clock w' |}, w')
          | Failed err n =>
              walk m request rest
                (failures ++ [{| failed_provider := who; reason := err;
                                 attempts_made := n |}]) w'
          end
      end
  end.

(** Modelled from the spec: the manager's entry point (section 4.4); a
    capability without providers fails at once. *)
Definition manager_fetch (m : FetcherManager) (request : FetchRequest)
    (w : World) : option (fetch_outcome * World) :=
  match resolve m (capability request) with
  | [] => Some (NoProviderAvailable, w)
  | ps => walk m request ps [] w
  end.

(** Modelled from the spec: the attempt order, the providers a log shows as
    tried. *)
Fixpoint tried_providers (evs : list event) : list string :=
  match evs with
  | [] => []
  | Acquired who _ :: evs' => who :: tried_providers evs'
  | _ :: evs' => tried_providers evs'
  end.

End Fetching.

Arguments Success {Payload} p.
Arguments Transient {Payload} err.
Arguments Permanent {Payload} err.
Arguments Succeeded {Payload} p attempts.
Arguments Failed {Payload} last_error attempts.
Arguments execute_from {Payload} cfg left i d operation.
Arguments execute {Payload} cfg operation.
Arguments Fetched {Payload} r.
Arguments NoProviderAvailable {Payload}.
Arguments Exhausted {Payload} failures.
Arguments identity {Payload} p.
Arguments limits {Payload} p.
Arguments available {Payload} p.
Arguments fetch {Payload} p _ _.
Arguments supports {Payload} p c.
Arguments rank {Payload} p.
Arguments registered {Payload} f.
Arguments retry {Payload} f.
Arguments register {Payload} p m.
Arguments insert_by_rank {Payload} p l.
Arguments sort_by_rank {Payload} l.
Arguments resolve {Payload} m c.
Arguments walk {Payload} m request ps failures w.
Arguments manager_fetch {Payload} m request w.
Arguments provider {Payload} f.
Arguments payload {Payload} f.
Arguments fetched_at {Payload} f.

End Strategy.

(** A process started with STOCK_LIST set and no [.env] file. *)
Definition demo_env : State :=
  {| environ := {[ "STOCK_LIST" := " 600519, ,000001 " ]};
     dotenv := None; heap := []; _instance := None |}.

(** [n] slashes, and an optional query string, as they may follow a URL. *)
Fixpoint slashes (n : nat) : string :=
  match n with
  | O => ""
  | S n' => String "/" (slashes n')
  end.

Definition query (q : option string) : string :=
  match q with
  | Some text => String "?" text
  | None => ""
  end.

(** A segment of a URL: free of ["/"] and ["?"]. *)
Definition segment (s : string) : Prop :=
  Py.contains "/" s = false ∧ Py.contains "?" s = false.

(** The two shapes of URL the module documents, with [n] trailing slashes
    and an optional query string. *)
Definition table_url (host app tbl : string) (n : nat) (q : option string)
    : string :=
  ("https://" +:+ host +:+ "/base/" +:+ app +:+ "/~/" +:+ tbl)
  +:+ slashes n +:+ query q.

Definition app_url (host app : string) (n : nat) (q : option string)
    : string :=
  ("https://" +:+ host +:+ "/base/" +:+ app) +:+ slashes n +:+ query q.

(** What the filter of [_extract_stock_codes] lets through: six characters,
    each a digit in the sense of [str.isdigit]. *)
Definition accepted_code (s : string) : Prop :=
  String.length s = 6%nat ∧ Py.forallb_str Py.isdigit_char s = true.

(** A field value that is a string, or a list headed by one. *)
Definition headed_string (v : json) : option string :=
  match v with
  | JStr s => Some s
  | JList (JStr s :: _) => Some s
  | _ => None
  end.

(** A reader with all three settings whose table token has three parts. *)
Definition three_part_reader : FeishuBitableReader :=
  {| app_id := Some "cli_a1b2"; app_secret := Some "s3cret";
     table_token := Some "bascnAAA/tblBBB/extra";
     _access_token := JNull; _token_expires_at := None |}.

(** A configured reader, and a vendor that answers the token request and
    then serves one page with a single row whose code is made of six
    superscript twos. *)
Definition demo_reader : FeishuBitableReader :=
  {| app_id := Some "cli_a1b2"; app_secret := Some "s3cret";
     table_token := Some "bascnAAA/tblBBB";
     _access_token := JNull; _token_expires_at := None |}.

Definition superscript_code : string :=
  String "178" (String "178" (String "178"
    (String "178" (String "178" (String "178" ""))))).

Definition demo_net : Net :=
  {| now := 1700000000;
     script :=
       [(1#2, Body (JDict [("code", JNum 0);
                           ("tenant_access_token", JStr "t-abc")]));
        (1#4, Body (JDict
           [("code", JNum 0);
            ("data", JDict
               [("items", JList
                   [JDict [("fields",
                            JDict [("股票代码", JStr superscript_code)])];
                    JDict [("fields",
                            JDict [("code", JStr " sh600519.SH ")])];
                    JDict [("fields",
                            JDict [("股票代码", JNum 600519)])]]);
                ("has_more", JBool false)])]))];
     trace := [] |}.

(** The retry settings of the design document's example:
    [max_retries=5, base=1.0, max=30.0]. *)
Definition example_retry : Strategy.RetryConfig :=
  {| Strategy.max_retries := 5;
     Strategy.retry_base_delay := 1;
     Strategy.retry_max_delay := 30 |}.

(** The limits of the quota-limited Tushare provider under a loaded
    configuration: its per-minute quota, no jitter. *)
Definition tushare_limits (c : Config) : Strategy.ProviderLimits :=
  {| Strategy.ceiling := Z.to_nat (tushare_quota c);
     Strategy.jitter_range := None |}.

(** The admission times of [provider] in a log. *)
Definition times_of (provider : string) (log : list (string * Q)) : list Q :=
  List.map snd (List.filter (λ e, bool_decide (fst e = provider)) log).

(** A caller the simulated clock accepts: it does not arrive before the
    previous admission and its jitter delay is not negative. *)
Definition well_timed (limits : string → Strategy.ProviderLimits)
    (a : Strategy.arrival) : Prop :=
  (0 <= Strategy.gap a)%Q ∧
  (0 <= Strategy.jitter_delay (limits (Strategy.to_provider a))
          (Strategy.sample a))%Q.

(** What the limiter maintains, for the log [H] of the calls granted so
    far: each provider's stored window is the part of its log still inside
    the 60 seconds before some past time of the clock, and no window of 60
    seconds holds more granted calls than the provider's ceiling. *)
Definition limiter_inv (limits : string → Strategy.ProviderLimits)
    (H : list (string * Q)) (st : gmap string (list Q)) (clock : Q) : Prop :=
  (∀ p, ∃ tp, (tp <= clock)%Q ∧
              Strategy.calls_of st p = Strategy.window tp (times_of p H)) ∧
  (∀ p s, (Strategy.granted_in p s H <= Strategy.ceiling (limits p))%nat).

(** Three callers arriving together at a provider limited to two calls per
    minute. *)
Definition two_per_minute (_ : string) : Strategy.ProviderLimits :=
  {| Strategy.ceiling := 2; Strategy.jitter_range := None |}.

Definition three_arrivals : list Strategy.arrival :=
  [ {| Strategy.to_provider := "tushare"; Strategy.gap := 0;
       Strategy.sample := 0 |};
    {| Strategy.to_provider := "tushare"; Strategy.gap := 0;
       Strategy.sample := 0 |};
    {| Strategy.to_provider := "tushare"; Strategy.gap := 0;
       Strategy.sample := 0 |} ].

(** The order of the failover walk: lower rank first. *)
Definition by_rank {Payload} (p q : Strategy.ProviderClient Payload) : Prop :=
  (Strategy.rank p <= Strategy.rank q)%nat.

(** The terminal outcome of a provider for a request, and the entry the
    manager records when that outcome is a failure. *)
Definition terminal_of {Payload} (m : Strategy.FetcherManager Payload)
    (request : Strategy.FetchRequest) (p : Strategy.ProviderClient Payload)
    : Strategy.terminal Payload :=
  fst (Strategy.execute (Strategy.retry m) (Strategy.fetch p request)).

Definition fails {Payload} (m : Strategy.FetcherManager Payload)
    (request : Strategy.FetchRequest) (p : Strategy.ProviderClient Payload)
    : Prop :=
  ∃ err k, terminal_of m request p = Strategy.Failed err k.

Definition who {Payload} (p : Strategy.ProviderClient Payload) : string :=
  Strategy.name (Strategy.identity p).

Definition has_quota {Payload} (p : Strategy.ProviderClient Payload) : Prop :=
  (1 <= Strategy.ceiling (Strategy.limits p))%nat.

(** The example of the design document: A (priority 1), B (priority 2) and
    C (priority 2), registered in this order, all serving daily bars; only C
    answers. *)
Definition demo_client (label : string) (prio : nat)
    (answer : nat → Strategy.attempt string) : Strategy.ProviderClient string :=
  {| Strategy.identity :=
       {| Strategy.name := label; Strategy.priority := prio;
          Strategy.capabilities := [Strategy.DailyBars] |};
     Strategy.limits :=
       {| Strategy.ceiling := 80; Strategy.jitter_range := None |};
     Strategy.available := true;
     Strategy.fetch := λ _ i, answer i |}.

Definition client_A := demo_client "A" 1 (λ _, Strategy.Transient "timeout").
Definition client_B := demo_client "B" 2 (λ _, Strategy.Permanent "HTTP 401").
Definition client_C := demo_client "C" 2 (λ _, Strategy.Success "bars of C").
Definition client_D := demo_client "D" 2 (λ _, Strategy.Transient "HTTP 503").

Definition demo_manager (clients : list (Strategy.ProviderClient string))
    : Strategy.FetcherManager string :=
  foldl (λ m p, Strategy.register p m)
    {| Strategy.registered := []; Strategy.retry := example_retry |} clients.

Definition demo_request : Strategy.FetchRequest :=
  {| Strategy.capability := Strategy.DailyBars; Strategy.symbol := "600519";
     Strategy.date_range := None; Strategy.cursor := None |}.

Definition demo_world : Strategy.World :=
  {| Strategy.clock := 0; Strategy.limiter := ∅; Strategy.samples := [];
     Strategy.events := [] |}.

(** ** The rest of config.py *)

(** The truth value of [a and b] for two optional strings. *)
Definition both (a b : option string) : bool := Py.truthy_opt a && Py.truthy_opt b.

(** [Config.validate]: the warnings, in the order they are appended. *)
Definition validate (c : Config) : list string :=
  (match stock_list c with
   | [] => ["Warning: STOCK_LIST not configured"]
   | _ => []
   end) ++
  (if Py.truthy_opt (tushare_token c) then []
   else ["Note: Tushare Token not configured; other data sources will be used"]) ++
  (if negb (Py.truthy_opt (gemini_api_key c)) &&
      negb (Py.truthy_opt (openai_api_key c))
   then ["Warning: Neither Gemini nor OpenAI API Key configured; AI analysis unavailable"]
   else if negb (Py.truthy_opt (gemini_api_key c))
   then ["Note: Gemini API Key not configured; OpenAI-compatible API will be used"]
   else []) ++
  (match tavily_api_keys c, serpapi_keys c with
   | [], [] =>
       ["Note: Search API keys (Tavily/SerpAPI) not configured; news search unavailable"]
   | _, _ => []
   end) ++
  (let has_notification :=
     Py.truthy_opt (wechat_webhook_url c) ||
     Py.truthy_opt (feishu_webhook_url c) ||
     both (telegram_bot_token c) (telegram_chat_id c) ||
     both (email_sender c) (email_password c) in
   if has_notification then []
   else ["Note: No notification channels configured; no push messages will be sent"]).

(** The dictionaries [get_active_ai_config] builds: keys in the order of the
    source, values [Optional[str]]. *)
Definition gemini_config (c : Config) : list (string * option string) :=
  [("provider", Some "gemini"); ("api_key", gemini_api_key c);
   ("model", Some (gemini_model c));
   ("model_fallback", Some (gemini_model_fallback c))].

Definition openrouter_config (c : Config) : list (string * option string) :=
  [("provider", Some "openrouter"); ("api_key", openrouter_api_key c);
   ("base_url", Some (openrouter_base_url c));
   ("model", Some (openrouter_model c))].

Definition deepseek_config (c : Config) : list (string * option string) :=
  [("provider", Some "deepseek"); ("api_key", deepseek_api_key c);
   ("base_url", Some (deepseek_base_url c));
   ("model", Some (deepseek_model c))].

Definition dashscope_config (c : Config) : list (string * option string) :=
  [("provider", Some "dashscope"); ("api_key", dashscope_api_key c);
   ("base_url", Some (dashscope_base_url c));
   ("model", Some (dashscope_model c))].

Definition openai_config (c : Config) : list (string * option string) :=
  [("provider", Some "openai"); ("api_key", openai_api_key c);
   ("base_url", openai_base_url c);
   ("model", Some (openai_model c))].

(** [Config.get_active_ai_config]: the provider named by [ai_provider] when
    its key is set, else the first provider with a key, in the fixed order
    of the source; [None] when no key is set. *)
Definition get_active_ai_config (c : Config)
    : option (list (string * option string)) :=
  let provider := Py.lower (ai_provider c) in
  if bool_decide (provider = "gemini") && Py.truthy_opt (gemini_api_key c)
  then Some (gemini_config c)
  else if bool_decide (provider = "openrouter") &&
          Py.truthy_opt (openrouter_api_key c)
  then Some (openrouter_config c)
  else if bool_decide (provider = "deepseek") &&
          Py.truthy_opt (deepseek_api_key c)
  then Some (deepseek_config c)
  else if bool_decide (provider = "dashscope") &&
          Py.truthy_opt (dashscope_api_key c)
  then Some (dashscope_config c)
  else if bool_decide (provider = "openai") &&
          Py.truthy_opt (openai_api_key c)
  then Some (openai_config c)
  else if Py.truthy_opt (gemini_api_key c) then Some (gemini_config c)
  else if Py.truthy_opt (openrouter_api_key c) then Some (openrouter_config c)
  else if Py.truthy_opt (deepseek_api_key c) then Some (deepseek_config c)
  else if Py.truthy_opt (dashscope_api_key c) then Some (dashscope_config c)
  else if Py.truthy_opt (openai_api_key c) then Some (openai_config c)
  else None.

(** [d[key]] on such a dictionary; [None] both for a missing key and for a
    key bound to [None]. *)
Fixpoint ai_get (d : list (string * option string)) (key : string)
    : option string :=
  match d with
  | [] => None
  | (k, v) :: d' => if decide (k = key) then v else ai_get d' key
  end.

Definition of_opt_str (o : option string) : json :=
  match o with
  | Some s => JStr s
  | None => JNull
  end.

(** The value of the dataclass field [name] of a configuration, as a Python
    object; [None] when [Config] declares no field of that name. *)
Definition config_field (c : Config) (name : string) : option json :=
  if decide (name = "stock_list") then Some (JList (List.map JStr (stock_list c))) else
  if decide (name = "feishu_app_id") then Some (of_opt_str (feishu_app_id c)) else
  if decide (name = "feishu_app_secret") then Some (of_opt_str (feishu_app_secret c)) else
  if decide (name = "feishu_folder_token") then Some (of_opt_str (feishu_folder_token c)) else
  if decide (name = "tushare_token") then Some (of_opt_str (tushare_token c)) else
  if decide (name = "ai_provider") then Some (JStr (ai_provider c)) else
  if decide (name = "gemini_api_key") then Some (of_opt_str (gemini_api_key c)) else
  if decide (name = "gemini_model") then Some (JStr (gemini_model c)) else
  if decide (name = "gemini_model_fallback") then Some (JStr (gemini_model_fallback c)) else
  if decide (name = "gemini_request_delay") then Some (JNum (gemini_request_delay c)) else
  if decide (name = "gemini_max_retries") then Some (JNum (inject_Z (gemini_max_retries c))) else
  if decide (name = "gemini_retry_delay") then Some (JNum (gemini_retry_delay c)) else
  if decide (name = "gemini_request_timeout") then Some (JNum (inject_Z (gemini_request_timeout c))) else
  if decide (name = "openai_preferred") then Some (JBool (openai_preferred c)) else
  if decide (name = "openai_api_key") then Some (of_opt_str (openai_api_key c)) else
  if decide (name = "openai_base_url") then Some (of_opt_str (openai_base_url c)) else
  if decide (name = "openai_model") then Some (JStr (openai_model c)) else
  if decide (name = "openrouter_api_key") then Some (of_opt_str (openrouter_api_key c)) else
  if decide (name = "openrouter_base_url") then Some (JStr (openrouter_base_url c)) else
  if decide (name = "openrouter_model") then Some (JStr (openrouter_model c)) else
  if decide (name = "deepseek_api_key") then Some (of_opt_str (deepseek_api_key c)) else
  if decide (name = "deepseek_base_url") then Some (JStr (deepseek_base_url c)) else
  if decide (name = "deepseek_model") then Some (JStr (deepseek_model c)) else
  if decide (name = "dashscope_api_key") then Some (of_opt_str (dashscope_api_key c)) else
  if decide (name = "dashscope_base_url") then Some (JStr (dashscope_base_url c)) else
  if decide (name = "dashscope_model") then Some (JStr (dashscope_model c)) else
  if decide (name = "google_search_api_key") then Some (of_opt_str (google_search_api_key c)) else
  if decide (name = "google_search_engine_id") then Some (of_opt_str (google_search_engine_id c)) else
  if decide (name = "tavily_api_keys") then Some (JList (List.map JStr (tavily_api_keys c))) else
  if decide (name = "serpapi_keys") then Some (JList (List.map JStr (serpapi_keys c))) else
  if decide (name = "wechat_webhook_url") then Some (of_opt_str (wechat_webhook_url c)) else
  if decide (name = "feishu_webhook_url") then Some (of_opt_str (feishu_webhook_url c)) else
  if decide (name = "telegram_bot_token") then Some (of_opt_str (telegram_bot_token c)) else
  if decide (name = "telegram_chat_id") then Some (of_opt_str (telegram_chat_id c)) else
  if decide (name = "email_sender") then Some (of_opt_str (email_sender c)) else
  if decide (name = "email_password") then Some (of_opt_str (email_password c)) else
  if decide (name = "email_receivers") then Some (JList (List.map JStr (email_receivers c))) else
  if decide (name = "custom_webhook_urls") then Some (JList (List.map JStr (custom_webhook_urls c))) else
  if decide (name = "feishu_max_bytes") then Some (JNum (inject_Z (feishu_max_bytes c))) else
  if decide (name = "wechat_max_bytes") then Some (JNum (inject_Z (wechat_max_bytes c))) else
  if decide (name = "database_path") then Some (JStr (database_path c)) else
  if decide (name = "log_dir") then Some (JStr (log_dir c)) else
  if decide (name = "log_level") then Some (JStr (log_level c)) else
  if decide (name = "max_workers") then Some (JNum (inject_Z (max_workers c))) else
  if decide (name = "debug") then Some (JBool (debug c)) else
  if decide (name = "schedule_enabled") then Some (JBool (schedule_enabled c)) else
  if decide (name = "schedule_time") then Some (JStr (schedule_time c)) else
  if decide (name = "market_review_enabled") then Some (JBool (market_review_enabled c)) else
  if decide (name = "akshare_sleep_min") then Some (JNum (akshare_sleep_min c)) else
  if decide (name = "akshare_sleep_max") then Some (JNum (akshare_sleep_max c)) else
  if decide (name = "tushare_rate_limit_per_minute") then Some (JNum (inject_Z (tushare_rate_limit_per_minute c))) else
  if decide (name = "max_retries") then Some (JNum (inject_Z (max_retries c))) else
  if decide (name = "retry_base_delay") then Some (JNum (retry_base_delay c)) else
  if decide (name = "retry_max_delay") then Some (JNum (retry_max_delay c)) else
  if decide (name = "_instance") then Some JNull else None.

(** ** The rest of feishu_url_helper.py *)

Definition nl : string := String "010" "".

(** [generate_env_config]: the four lines of the f-string, stripped. *)
Definition generate_env_config (app_token : string)
    (table_id : option string) (app_id app_secret : string) : string :=
  let table_token :=
    if Py.truthy_opt table_id
    then app_token +:+ "/" +:+ default "" table_id
    else app_token in
  let config :=
    nl +:+ "# 飞书多维表格配置" +:+ nl +:+
    "USE_FEISHU_BITABLE=true" +:+ nl +:+
    "FEISHU_TABLE_TOKEN=" +:+ table_token +:+ nl +:+
    "FEISHU_APP_ID_BITABLE=" +:+ app_id +:+ nl +:+
    "FEISHU_APP_SECRET_BITABLE=" +:+ app_secret +:+ nl in
  Py.strip config.

(** ** The rest of feishu_bitable.py *)

(** [_parse_table_token]: the two parts of a token of the form
    [app_token/table_id], else the token twice. A missing token makes
    ['/' in self.table_token] raise [TypeError]. *)
Definition _parse_table_token (r : FeishuBitableReader)
    : result (string * string) :=
  match table_token r with
  | None => Raise TypeError
  | Some token =>
      if Py.contains "/" token then
        match Py.split "/" token with
        | [a; b] => Ok (a, b)
        | _ => Ok (token, token)
        end
      else Ok (token, token)
  end.

(** The object [a or b] for two attribute values. *)
Definition py_or (a b : json) : json := if truthy a then a else b.

Definition to_opt_str (j : json) : option string :=
  match j with
  | JStr s => Some s
  | _ => None
  end.

Section ReaderInit.

Variable py_int : string → option Z.
Variable py_float : string → option Q.

(** Reading the attribute [name] of the configuration object: a name the
    dataclass does not declare raises [AttributeError] (the names read by
    [__init__] are neither methods nor special attributes). *)
Definition config_getattr (c : Config) (name : string) : result json :=
  match config_field c name with
  | Some v => Ok v
  | None => Raise AttributeError
  end.

(** [FeishuBitableReader.__init__]: the new reader, or what the
    constructor raises. *)
Definition reader_init (st : State)
    : result FeishuBitableReader * State :=
  let '(r, st1) := get_config py_int py_float st in
  (match r with
   | Raise e => Raise e
   | Ok l =>
       match heap st1 !! l with
       | None => Raise AttributeError
       | Some c =>
           id_b <-r config_getattr c "feishu_app_id_bitable" ;;
           id <-r (if truthy id_b then Ok id_b
                   else config_getattr c "feishu_app_id") ;;
           secret_b <-r config_getattr c "feishu_app_secret_bitable" ;;
           secret <-r (if truthy secret_b then Ok secret_b
                       else config_getattr c "feishu_app_secret") ;;
           token <-r config_getattr c "feishu_table_token" ;;
           Ok {| app_id := to_opt_str id; app_secret := to_opt_str secret;
                 table_token := to_opt_str token;
                 _access_token := JNull; _token_expires_at := None |}
       end
   end, st1).

(** [get_stock_list_from_feishu]: construct a reader and read the list. *)
Definition get_stock_list_from_feishu (st : State) (n : Net)
    : outcome (list string) * State * Net :=
  match reader_init st with
  | (Raise e, st1) => (Raised (PyExn e), st1, n)
  | (Ok r, st1) =>
      let '(out, (_, n1)) := read_stock_list "股票代码" (r, n) in
      (out, st1, n1)
  end.

End ReaderInit.

(** The API key that [get_active_ai_config] looks at for a provider name. *)
Definition key_of (c : Config) (provider : string) : option string :=
  if decide (provider = "gemini") then gemini_api_key c
  else if decide (provider = "openrouter") then openrouter_api_key c
  else if decide (provider = "deepseek") then deepseek_api_key c
  else if decide (provider = "dashscope") then dashscope_api_key c
  else if decide (provider = "openai") then openai_api_key c
  else None.

(** The order of the automatic choice. *)
Definition ai_providers : list string :=
  ["gemini"; "openrouter"; "deepseek"; "dashscope"; "openai"].

(** A process whose OS environment and [.env] file both set STOCK_LIST, and
    a key for DeepSeek and for Gemini. *)
Definition demo_env2 : State :=
  {| environ := {[ "STOCK_LIST" := "600519" ]};
     dotenv := Some {[ "STOCK_LIST" := Some " 000001,300750 ";
                       "AI_PROVIDER" := Some "DeepSeek";
                       "DEEPSEEK_API_KEY" := Some "sk-d";
                       "GEMINI_API_KEY" := Some "g-key" ]};
     heap := []; _instance := None |}.

(** A process with a numeric variable that is not a number. *)
Definition broken_env : State :=
  {| environ := {[ "MAX_WORKERS" := "many" ]};
     dotenv := None; heap := []; _instance := None |}.

(** A configuration as [demo_env2] loads it. *)
Definition demo_config2 : option Config :=
  fst (_load_from_env default_int default_float demo_env2).

(** The text of a URL that the parser searches: what precedes the first
    ["?"], without trailing slashes. *)
Definition searched_text (url : string) : string :=
  Py.rstrip_char "/"
    (if Py.contains "?" url then Py.split_head "?" url else url).

(** The requests a reader with credentials [id] and [secret] sends for the
    table [table_id] of the application [app_token]: a token request with
    these credentials, or a page of at most 100 records asked with a true
    access token and, past the first page, a true page token. *)
Definition request_of (id secret : option string) (app_token table_id : string)
    (req : request) : Prop :=
  req = PostToken id secret ∨
  ∃ access_token page_token,
    req = GetRecords app_token table_id access_token 100 page_token ∧
    truthy access_token = true ∧
    ∀ p, page_token = Some p → truthy p = true.

(** [s'] comes from [s] by sending requests that satisfy [P]; the
    credentials and the table token of the reader are those of [s]. *)
Definition sends (P : request → Prop) (s s' : FeishuBitableReader * Net)
    : Prop :=
  (∃ new, trace (snd s') = trace (snd s) ++ new ∧ Forall P new) ∧
  app_id (fst s') = app_id (fst s) ∧
  app_secret (fst s') = app_secret (fst s) ∧
  table_token (fst s') = table_token (fst s).

(** One record and what a non-empty selection [names] keeps of it. *)
Definition selected (names : list string) (record out : json) : Prop :=
  ∃ m, py_get record "fields" (JDict []) = Ok (JDict m) ∧
       out = JDict (List.filter (λ kv, bool_decide (fst kv ∈ names)) m).

(** A record as the vendor documents it: a dictionary whose ["fields"],
    when present, is a dictionary. *)
Definition well_formed_record (record : json) : Prop :=
  ∃ m, record = JDict m ∧
       match dict_get m "fields" with
       | Some fields => ∃ mf, fields = JDict mf
       | None => True
       end.

Definition is_dict (j : json) : bool :=
  match j with JDict _ => true | _ => false end.

(** Six decimal digits, the form of an A-share code. *)
Definition six_decimal (s : string) : Prop :=
  String.length s = 6%nat ∧ Py.forallb_str Py.is_decimal_char s = true.

(** A reader that holds a token valid until 1700005400. *)
Definition cached_reader : FeishuBitableReader :=
  {| app_id := Some "cli_a1b2"; app_secret := Some "s3cret";
     table_token := Some "bascnAAA/tblBBB";
     _access_token := JStr "t-abc";
     _token_expires_at := Some 1700005400%Q |}.

(** The first page of a table that announces a second one. *)
Definition first_page : list (string * json) :=
  [("items", JList [JDict [("fields", JDict [("code", JStr "600519")])]]);
   ("has_more", JBool true);
   ("page_token", JStr "p2")].

(** A vendor that answers the first page and then nothing. *)
Definition cut_net : Net :=
  {| now := 1700000000;
     script := [(1#4, Body (JDict [("code", JNum 0);
                                   ("data", JDict first_page)]))];
     trace := [] |}.

(** The body of a successful answer with the page [d] as its data. *)
Definition page_body (d : list (string * json)) : json :=
  JDict [("code", JNum 0); ("data", JDict d)].

(** [has_more and page_token] of a page: it announces a further page. *)
Definition announces (d : list (string * json)) : bool :=
  truthy (default (JBool false) (dict_get d "has_more")) &&
  truthy (default JNull (dict_get d "page_token")).

(** A run of pages answered one after the other from time [clock] on, each
    taking its time [dt]: the cached token of [r] is valid when each page
    is asked, [process] gives [out] for the rows of the pages, and every
    page but the last announces a further one. *)
Fixpoint follows {A} (process : json → result (list A))
    (r : FeishuBitableReader) (clock : Q)
    (ps : list (Q * list (string * json))) (out : list (list A)) : Prop :=
  match ps, out with
  | [], [] => True
  | (dt, d) :: ps', new :: out' =>
      token_fresh r clock = true ∧
      process (default (JList []) (dict_get d "items")) = Ok new ∧
      (announces d = true ↔ ps' ≠ []) ∧
      follows process r (clock + dt)%Q ps' out'
  | _, _ => False
  end.

(** The requests for the pages after the first, the first of them asked
    with the page token [pt]. *)
Fixpoint page_requests (a t : string) (access_token pt : json)
    (ps : list (Q * list (string * json))) : list request :=
  match ps with
  | [] => []
  | (_, d) :: ps' =>
      GetRecords a t access_token 100 (Some pt) ::
      page_requests a t access_token
        (default JNull (dict_get d "page_token")) ps'
  end.

(** A vendor that answers two pages. *)
Definition two_page_net : Net :=
  {| now := 1700000000;
     script :=
       [(1#4, Body (page_body first_page));
        (1#4, Body (page_body
           [("items", JList
               [JDict [("fields", JDict [("code", JStr "000001.SZ")])]]);
            ("has_more", JBool false)]))];
     trace := [] |}.

(** * Properties *)

(** ** Python string primitives *)

Example split_ex1 : Py.split "," "a, b,,c" = ["a"; " b"; ""; "c"].
Proof. reflexivity. Qed.
Example split_ex2 : Py.split "," "" = [""].
Proof. reflexivity. Qed.
Example strip_ex : Py.strip "  60 05 " = "60 05".
Proof. reflexivity. Qed.
Example replace_ex1 : Py.replace "sz" "" "sszz000001" = "sz000001".
Proof. reflexivity. Qed.
Example replace_ex2 : Py.replace "sh" "" "sh600519.SH" = "600519.SH".
Proof. reflexivity. Qed.
Example rstrip_ex : Py.rstrip_char "/" "a/b//" = "a/b".
Proof. reflexivity. Qed.
Example lower_ex : Py.lower "TrUe" = "true".
Proof. reflexivity. Qed.

Lemma app_cons_str a (s t : string) : String a s +:+ t = String a (s +:+ t).
Proof. done. Qed.

Lemma app_nil_l_str (s : string) : "" +:+ s = s.
Proof. done. Qed.

Lemma app_nil_r_str (s : string) : s +:+ "" = s.
Proof. induction s as [|a s IH]; [done|]. by rewrite app_cons_str, IH. Qed.

Lemma app_assoc_str (s t u : string) : (s +:+ t) +:+ u = s +:+ t +:+ u.
Proof. induction s as [|a s IH]; [done|]. by rewrite !app_cons_str, IH. Qed.

Lemma contains_app c (s t : string) :
  Py.contains c (s +:+ t) = Py.contains c s || Py.contains c t.
Proof.
  induction s as [|a s IH]; [done|].
  rewrite ?app_cons_str; simpl. by destruct (decide (a = c)).
Qed.

(** The pieces of a split contain no separator and rebuild the text. *)
Lemma split_no_sep sep (s : string) :
  Forall (λ w, Py.contains sep w = false) (Py.split sep s).
Proof.
  induction s as [|a s IH]; simpl.
  - by repeat constructor.
  - destruct (decide (a = sep)) as [->|Hne].
    + by constructor.
    + destruct (Py.split sep s) as [|w ws]; inversion IH; subst;
        constructor; auto; simpl; by destruct (decide (a = sep)).
Qed.

Lemma split_nonempty sep (s : string) : Py.split sep s ≠ [].
Proof.
  destruct s as [|a s]; simpl; [done|].
  destruct (decide (a = sep)); [done|]. by destruct (Py.split sep s).
Qed.

Lemma split_join sep (s : string) :
  String.concat (String sep "") (Py.split sep s) = s.
Proof.
  induction s as [|a s IH]; [done|]. simpl.
  pose proof (split_nonempty sep s) as Hne.
  destruct (decide (a = sep)) as [->|Hna].
  - destruct (Py.split sep s) as [|w ws]; [done|].
    simpl in *. by rewrite IH.
  - destruct (Py.split sep s) as [|w ws]; [done|].
    destruct ws as [|w' ws]; simpl in *; by rewrite <- IH.
Qed.

Lemma split_no_sep_id sep (s : string) :
  Py.contains sep s = false → Py.split sep s = [s].
Proof.
  induction s as [|a s IH]; [done|]. simpl.
  destruct (decide (a = sep)); [done|]. intros H. by rewrite IH.
Qed.

Lemma split_app_sep sep (s t : string) :
  Py.contains sep s = false →
  Py.split sep (s +:+ String sep t) = s :: Py.split sep t.
Proof.
  induction s as [|a s IH]; simpl.
  - intros _. rewrite decide_True by done. done.
  - rewrite ?app_cons_str; simpl. destruct (decide (a = sep)); [done|].
    intros H. by rewrite IH.
Qed.

Lemma rstrip_by_idem p (s : string) :
  Py.rstrip_by p (Py.rstrip_by p s) = Py.rstrip_by p s.
Proof.
  induction s as [|a s IH]; [done|]. simpl.
  destruct (Py.rstrip_by p s) as [|b r] eqn:E.
  - destruct (p a) eqn:Ea; simpl; [done|]. by rewrite Ea.
  - change (Py.rstrip_by p (String a (String b r)))
      with (match Py.rstrip_by p (String b r) with
            | "" => if p a then "" else String a ""
            | r0 => String a r0 end).
    by rewrite IH.
Qed.

Lemma rstrip_by_head p a (s : string) :
  p a = false → ∃ r, Py.rstrip_by p (String a s) = String a r.
Proof.
  intros Ha. simpl. destruct (Py.rstrip_by p s); rewrite ?Ha; eauto.
Qed.

Lemma lstrip_by_head p (s : string) :
  Py.lstrip_by p s = "" ∨
  ∃ a t, Py.lstrip_by p s = String a t ∧ p a = false.
Proof.
  induction s as [|a s IH]; [by left|]. simpl.
  destruct (p a) eqn:Ea; [done|]. right; eauto.
Qed.

Lemma strip_idem (s : string) : Py.strip (Py.strip s) = Py.strip s.
Proof.
  unfold Py.strip.
  destruct (lstrip_by_head Py.isspace s) as [->|(a & t & -> & Ha)]; [done|].
  destruct (rstrip_by_head Py.isspace a t Ha) as [r Hr].
  rewrite Hr. simpl Py.lstrip_by at 1. rewrite Ha, <- Hr.
  apply rstrip_by_idem.
Qed.

(** What [rstrip] leaves when the text ends in a kept character. *)
Lemma rstrip_by_app_keep p (s : string) a :
  p a = false → Py.rstrip_by p (s +:+ String a "") = s +:+ String a "".
Proof.
  intros Ha. induction s as [|b s IH]; simpl.
  - by rewrite Ha.
  - rewrite ?app_cons_str; simpl. rewrite IH.
    by destruct s.
Qed.

Lemma rstrip_by_app_drop p (s : string) a :
  p a = true → Py.rstrip_by p (s +:+ String a "") = Py.rstrip_by p s.
Proof.
  intros Ha. induction s as [|b s IH]; simpl.
  - by rewrite Ha.
  - rewrite ?app_cons_str; simpl. by rewrite IH.
Qed.

(** ** config.py *)

Lemma csv_entries_stripped (s : string) :
  Forall stripped_nonempty (csv_entries s).
Proof.
  unfold csv_entries. apply List.Forall_forall. intros e He.
  apply List.filter_In in He as [Hin Ht].
  apply List.in_map_iff in Hin as (x & <- & _).
  split; [|apply strip_idem].
  intros E. by rewrite E in Ht.
Qed.

Lemma load_stock_list py_int py_float st c st' :
  _load_from_env py_int py_float st = (Some c, st') →
  stock_list c =
    match csv_entries (getenv_default (load_dotenv st) "STOCK_LIST" "") with
    | [] => ["600519"; "000001"; "300750"]
    | e :: es => e :: es
    end.
Proof.
  unfold _load_from_env. intros H.
  repeat match type of H with
         | context [mbind _ ?x] => destruct x; simpl in H; [|discriminate]
         end.
  injection H as <- _. simpl.
  by destruct (csv_entries _).
Qed.

Lemma refresh_lookup self st c :
  heap st !! self = Some c →
  heap (refresh_stock_list self st) !! self =
    Some (set_stock_list (refreshed_stock_list st) c).
Proof.
  intros H. unfold refresh_stock_list. rewrite H. simpl.
  apply list_lookup_insert_eq. by eapply lookup_lt_Some.
Qed.

(** C9. The watchlist is never left empty: [_load_from_env] stores the
    entries of STOCK_LIST (split at commas, stripped, blanks dropped) or,
    when there are none, the three default codes; [refresh_stock_list]
    stores the entries of the text it re-reads or, when there are none,
    ["000001"]; every stored entry is non-empty and stripped. *)
Theorem stock_list_never_empty py_int py_float :
  (∀ st c st',
     _load_from_env py_int py_float st = (Some c, st') →
     stock_list c =
       match csv_entries (getenv_default (load_dotenv st) "STOCK_LIST" "") with
       | [] => ["600519"; "000001"; "300750"]
       | e :: es => e :: es
       end ∧
     stock_list c ≠ [] ∧
     Forall stripped_nonempty (stock_list c)) ∧
  (∀ self st c,
     heap st !! self = Some c →
     ∃ c', heap (refresh_stock_list self st) !! self = Some c' ∧
       stock_list c' =
         match csv_entries (refresh_source st) with
         | [] => ["000001"]
         | e :: es => e :: es
         end ∧
       stock_list c' ≠ [] ∧
       Forall stripped_nonempty (stock_list c')).
Proof.
  split.
  - intros st c st' H. apply load_stock_list in H. rewrite H.
    pose proof (csv_entries_stripped
                  (getenv_default (load_dotenv st) "STOCK_LIST" "")) as Hs.
    destruct (csv_entries _) as [|e es].
    + split; [done|]. split; [done|].
      repeat constructor; done.
    + done.
  - intros self st c H. eexists. split; [by apply refresh_lookup|].
    simpl. unfold refreshed_stock_list.
    pose proof (csv_entries_stripped (refresh_source st)) as Hs.
    destruct (csv_entries _) as [|e es].
    + split; [done|]. split; [done|]. repeat constructor; done.
    + done.
Qed.

Lemma stock_list_never_empty_witness :
  ∃ c st', _load_from_env default_int default_float demo_env = (Some c, st') ∧
           stock_list c = ["600519"; "000001"].
Proof.
  eexists _, _. split; [vm_compute; reflexivity|].
  destruct (proj1 (stock_list_never_empty default_int default_float)
              demo_env _ _ eq_refl) as (H & _ & _).
  exact H.
Defined.

Section ConfigSingleton.

Variable py_int : string → option Z.
Variable py_float : string → option Q.

Lemma get_instance_cached st l :
  _instance st = Some l → get_instance py_int py_float st = (Ok l, st).
Proof. intros H. unfold get_instance. by rewrite H. Qed.

Lemma load_dotenv_heap st :
  heap (load_dotenv st) = heap st ∧ _instance (load_dotenv st) = _instance st.
Proof. unfold load_dotenv. by destruct (dotenv st). Qed.

Lemma load_from_env_state st r st' :
  _load_from_env py_int py_float st = (r, st') → st' = load_dotenv st.
Proof.
  unfold _load_from_env. intros H. by injection H as _ <-.
Qed.

Lemma get_instance_fresh st c st1 :
  _instance st = None →
  _load_from_env py_int py_float st = (Some c, st1) →
  get_instance py_int py_float st =
    (Ok (length (heap st)),
     {| environ := environ st1; dotenv := dotenv st1;
        heap := heap st ++ [c]; _instance := Some (length (heap st)) |}).
Proof.
  intros Hi Hl. unfold get_instance. rewrite Hi, Hl.
  apply load_from_env_state in Hl as ->.
  by destruct (load_dotenv_heap st) as [-> _].
Qed.

Lemma same_but_stock_list_refl c : same_but_stock_list c c.
Proof. by destruct c. Qed.

Lemma same_but_stock_list_set c c' l :
  same_but_stock_list c c' → same_but_stock_list c (set_stock_list l c').
Proof. unfold same_but_stock_list. intros <-. by destruct c'. Qed.

(** While nobody resets the singleton, its slot keeps the reference and the
    object behind it changes in [stock_list] at most. *)
Lemma step_keeps_instance o st l c :
  is_reset o = false →
  _instance st = Some l →
  (∃ c', heap st !! l = Some c' ∧ same_but_stock_list c c') →
  _instance (step py_int py_float o st) = Some l ∧
  (∃ c', heap (step py_int py_float o st) !! l = Some c' ∧ same_but_stock_list c c') ∧
  (is_refresh o = false → heap (step py_int py_float o st) = heap st).
Proof.
  intros Hr Hi (c' & Hc' & Hs).
  destruct o as [| |self|key value|key|content]; simpl in *; try done.
  - rewrite (get_instance_cached st l Hi). simpl. eauto.
  - unfold refresh_stock_list.
    destruct (heap st !! self) as [d|] eqn:Hd; simpl; [|eauto].
    split; [done|]. split; [|done].
    destruct (decide (self = l)) as [->|Hne].
    + rewrite Hc' in Hd. injection Hd as <-.
      eexists. split.
      * apply list_lookup_insert_eq. by eapply lookup_lt_Some.
      * by apply same_but_stock_list_set.
    + exists c'. split; [|done]. by rewrite list_lookup_insert_ne.
  - eauto.
  - eauto.
  - eauto.
Qed.

Lemma run_keeps_instance ops st l c :
  forallb (λ o, negb (is_reset o)) ops = true →
  _instance st = Some l →
  (∃ c', heap st !! l = Some c' ∧ same_but_stock_list c c') →
  _instance (run py_int py_float ops st) = Some l ∧
  (∃ c', heap (run py_int py_float ops st) !! l = Some c' ∧ same_but_stock_list c c') ∧
  (forallb (λ o, negb (is_refresh o)) ops = true →
   heap (run py_int py_float ops st) = heap st).
Proof.
  revert st. induction ops as [|o ops IH]; intros st Hops Hi Hc.
  - simpl. eauto.
  - simpl in Hops. apply andb_prop in Hops as [Ho Hops].
    apply negb_true_iff in Ho.
    destruct (step_keeps_instance o st l c Ho Hi Hc) as (Hi' & Hc' & Hh).
    destruct (IH (step py_int py_float o st) Hops Hi' Hc') as (Hi'' & Hc'' & Hh').
    unfold run in *. simpl. split; [done|]. split; [done|].
    intros Hreq. simpl in Hreq. apply andb_prop in Hreq as [Ho' Hreq].
    apply negb_true_iff in Ho'. rewrite (Hh' Hreq). by apply Hh.
Qed.

(** C5, as the code has it. [get_instance] reads the environment only while
    no instance exists: the first successful call builds the singleton from
    the [.env] file and the OS environment; every later call returns the
    same reference and reads nothing, whatever happens to the environment;
    until [reset_instance] the object changes in no field but [stock_list],
    and not at all unless [refresh_stock_list] runs; after [reset_instance]
    the next call builds a new object from the environment of that
    moment. *)
Theorem singleton_frozen_except_stock_list st c st1 :
  _instance st = None →
  _load_from_env py_int py_float st = (Some c, st1) →
  ∃ l st',
    get_instance py_int py_float st = (Ok l, st') ∧
    heap st' !! l = Some c ∧
    ∀ ops,
      forallb (λ o, negb (is_reset o)) ops = true →
      let st'' := run py_int py_float ops st' in
      get_instance py_int py_float st'' = (Ok l, st'') ∧
      (∃ c', heap st'' !! l = Some c' ∧ same_but_stock_list c c' ∧
             (forallb (λ o, negb (is_refresh o)) ops = true → c' = c)) ∧
      ∀ c2 st2,
        _load_from_env py_int py_float (reset_instance st'') = (Some c2, st2) →
        ∃ l2 st3,
          get_instance py_int py_float (reset_instance st'') = (Ok l2, st3) ∧
          l2 ≠ l ∧ heap st3 !! l2 = Some c2 ∧ heap st3 !! l = heap st'' !! l.
Proof.
  intros Hi Hl.
  eexists _, _. split; [by apply get_instance_fresh|].
  assert (Hc : (heap st ++ [c]) !! length (heap st) = Some c).
  { by rewrite lookup_app_r, Nat.sub_diag. }
  split; [exact Hc|].
  intros ops Hops.
  set (st' := {| environ := environ st1; dotenv := dotenv st1;
                 heap := heap st ++ [c];
                 _instance := Some (length (heap st)) |}).
  destruct (run_keeps_instance ops st' (length (heap st)) c Hops eq_refl)
    as (Hi' & (c' & Hc' & Hs) & Hh).
  { exists c. split; [exact Hc|apply same_but_stock_list_refl]. }
  simpl. split; [by apply get_instance_cached|].
  split.
  - exists c'. split; [done|]. split; [done|].
    intros Hnr. rewrite (Hh Hnr) in Hc'. simpl in Hc'.
    rewrite Hc in Hc'. by injection Hc' as <-.
  - intros c2 st2 Hl2.
    eexists _, _. split; [by apply get_instance_fresh|].
    simpl. apply lookup_lt_Some in Hc' as Hlt.
    split; [lia|]. split.
    + by rewrite lookup_app_r, Nat.sub_diag.
    + by rewrite lookup_app_l.
Qed.

End ConfigSingleton.

Lemma singleton_frozen_except_stock_list_witness :
  ∃ l st',
    get_instance default_int default_float demo_env = (Ok l, st') ∧
    (stock_list <$> heap st' !! l) = Some ["600519"; "000001"].
Proof.
  destruct (singleton_frozen_except_stock_list default_int default_float
              demo_env _ _ eq_refl eq_refl) as (l & st' & Hg & Hc & _).
  exists l, st'. split; [exact Hg|]. rewrite Hc. reflexivity.
Defined.

(** C5, as stated, fails: the environment changes, [refresh_stock_list] runs
    on the singleton, nobody resets it, and [get_instance] still returns
    the same object, whose [stock_list] now differs. *)
Lemma config_changes_without_reset :
  let st1 := snd (get_instance default_int default_float demo_env) in
  let st2 := run default_int default_float
               [SetEnv "STOCK_LIST" "000002"; RefreshStockList 0] st1 in
  fst (get_instance default_int default_float demo_env) = Ok 0%nat ∧
  fst (get_instance default_int default_float st2) = Ok 0%nat ∧
  (stock_list <$> heap st1 !! 0%nat) = Some ["600519"; "000001"] ∧
  (stock_list <$> heap st2 !! 0%nat) = Some ["000002"] ∧
  heap st2 !! 0%nat ≠ heap st1 !! 0%nat.
Proof.
  vm_compute. repeat split; try reflexivity. discriminate.
Qed.

(** ** feishu_url_helper.py *)

Example parse_ex1 :
  parse_feishu_bitable_url "https://xxx.feishu.cn/base/appX/~/tblY?view=v1"
  = Some ("appX", Some "tblY", "appX/tblY").
Proof. reflexivity. Qed.

Example parse_ex2 :
  parse_feishu_bitable_url "https://xxx.feishu.cn/base/appX/"
  = Some ("appX", None, "appX").
Proof. reflexivity. Qed.

Example parse_ex3 :
  parse_feishu_bitable_url "https://xxx.feishu.cn/wiki/appX" = None.
Proof. reflexivity. Qed.

Lemma startswith_app (l s : string) : Py.startswith l (l +:+ s) = true.
Proof.
  induction l as [|a l IH]; [done|].
  rewrite ?app_cons_str. simpl. by rewrite decide_True.
Qed.

Lemma startswith_inv (l s : string) :
  Py.startswith l s = true → ∃ r, s = l +:+ r.
Proof.
  revert s. induction l as [|a l IH]; intros s H.
  - by exists s.
  - destruct s as [|b s]; [done|]. simpl in H.
    destruct (decide (a = b)) as [->|]; [|done].
    destruct (IH s H) as [r ->]. by exists r.
Qed.

(** A run of literals matches exactly its own text. *)
Lemma match_lits (l : string) p (s : string) :
  Re.match_here (Re.lits l ++ p) (l +:+ s) = Re.match_here p s.
Proof.
  induction l as [|a l IH]; [done|].
  rewrite ?app_cons_str. simpl. by rewrite bool_decide_eq_true_2.
Qed.

Lemma match_lits_fail (l : string) p (s : string) :
  Py.startswith l s = false → Re.match_here (Re.lits l ++ p) s = None.
Proof.
  revert s. induction l as [|a l IH]; intros s H; [done|].
  destruct s as [|b s]; [done|]. simpl in *.
  destruct (decide (a = b)) as [->|Hne].
  - rewrite bool_decide_eq_true_2 by done. by apply IH.
  - rewrite bool_decide_eq_false_2 by done. done.
Qed.

Lemma match_lits_inv (l : string) p (s : string) caps :
  Re.match_here (Re.lits l ++ p) s = Some caps →
  ∃ r, s = l +:+ r ∧ Re.match_here p r = Some caps.
Proof.
  intros H. destruct (Py.startswith l s) eqn:E.
  - apply startswith_inv in E as [r ->]. rewrite match_lits in H. eauto.
  - by rewrite match_lits_fail in H.
Qed.

(** The search moves past text that cannot start a match. *)
Lemma search_skip c p (pre s : string) :
  Py.contains c pre = false →
  Re.search (Re.One (Re.Lit c) :: p) (pre +:+ s) =
  Re.search (Re.One (Re.Lit c) :: p) s.
Proof.
  induction pre as [|a pre IH]; [done|].
  simpl. destruct (decide (a = c)) as [|Hne]; [done|]. intros H.
  rewrite ?app_cons_str.
  change (Re.search (Re.One (Re.Lit c) :: p) (String a (pre +:+ s)))
    with (match Re.match_here (Re.One (Re.Lit c) :: p) (String a (pre +:+ s)) with
          | Some caps => Some caps
          | None => Re.search (Re.One (Re.Lit c) :: p) (pre +:+ s)
          end).
  simpl. rewrite bool_decide_eq_false_2 by done. by apply IH.
Qed.

Lemma search_next p a (s : string) :
  Re.match_here p (String a s) = None →
  Re.search p (String a s) = Re.search p s.
Proof.
  intros H.
  change (Re.search p (String a s))
    with (match Re.match_here p (String a s) with
          | Some caps => Some caps
          | None => Re.search p s
          end).
  by rewrite H.
Qed.

Lemma search_here p (s : string) caps :
  Re.match_here p s = Some caps → Re.search p s = Some caps.
Proof. intros H. destruct s; simpl; by rewrite H. Qed.

(** A group [([^/]+)] takes a whole segment when the rest of the pattern
    matches after it. *)
Lemma plus_go_segment cont (g rest : string) caps :
  g ≠ "" →
  Py.contains "/" g = false →
  (rest = "" ∨ ∃ r, rest = String "/" r) →
  cont rest = Some caps →
  Re.plus_go (Re.NotLit "/") cont (g +:+ rest) = Some (g, caps).
Proof.
  intros Hne Hg Hrest Hc.
  assert (Hstop : Re.plus_go (Re.NotLit "/") cont rest = None).
  { by destruct Hrest as [->|[r ->]]. }
  induction g as [|a g IH]; [done|].
  simpl in Hg. destruct (decide (a = "/"%char)) as [|Ha]; [done|].
  rewrite ?app_cons_str. simpl. rewrite bool_decide_eq_false_2 by done. simpl.
  destruct g as [|b g].
  - rewrite app_nil_l_str, Hstop, Hc. done.
  - rewrite IH by done. done.
Qed.

(** ... and nothing when the rest of the pattern, which starts with a
    literal ["/"], does not match after the segment. *)
Lemma plus_go_segment_fail p (g rest : string) :
  Py.contains "/" g = false →
  (rest = "" ∨ ∃ r, rest = String "/" r) →
  Re.match_here (Re.One (Re.Lit "/") :: p) rest = None →
  Re.plus_go (Re.NotLit "/")
    (Re.match_here (Re.One (Re.Lit "/") :: p)) (g +:+ rest) = None.
Proof.
  intros Hg Hrest Hc.
  assert (Hstop : Re.plus_go (Re.NotLit "/")
                    (Re.match_here (Re.One (Re.Lit "/") :: p)) rest = None).
  { by destruct Hrest as [->|[r ->]]. }
  induction g as [|a g IH]; [done|].
  simpl in Hg. destruct (decide (a = "/"%char)) as [|Ha]; [done|].
  rewrite ?app_cons_str.
  change (Re.plus_go ?k ?c (String a ?s))
    with (if Re.accepts k a then
            match Re.plus_go k c s with
            | Some (g0, caps) => Some (String a g0, caps)
            | None => match c s with
                      | Some caps => Some (String a "", caps)
                      | None => None
                      end
            end
          else None).
  simpl Re.accepts. rewrite bool_decide_eq_false_2 by done. simpl negb.
  cbv iota. rewrite (IH Hg).
  destruct g as [|b g].
  - rewrite app_nil_l_str. by rewrite Hc.
  - simpl in Hg. destruct (decide (b = "/"%char)) as [|Hb]; [done|].
    rewrite ?app_cons_str. simpl. by rewrite bool_decide_eq_false_2.
Qed.

Lemma startswith_segment (l h r : string) :
  Py.contains "/" l = false →
  Py.contains "/" h = false →
  Py.startswith (l +:+ "/") (h +:+ String "/" r) = true →
  h = l.
Proof.
  revert h. induction l as [|a l IH]; intros h Hl Hh H.
  - destruct h as [|b h]; [done|]. simpl in *.
    destruct (decide (b = "/"%char)) as [|Hb]; [done|].
    rewrite ?app_nil_l_str in H. simpl in H.
    destruct (decide ("/"%char = b)); [congruence|done].
  - simpl in Hl. destruct (decide (a = "/"%char)) as [|Ha]; [done|].
    destruct h as [|b h].
    + rewrite ?app_cons_str, ?app_nil_l_str in H. simpl in H.
      destruct (decide (a = "/"%char)); done.
    + simpl in Hh. destruct (decide (b = "/"%char)) as [|Hb]; [done|].
      rewrite ?app_cons_str in H. simpl in H.
      destruct (decide (a = b)) as [->|]; [|done].
      f_equal. by apply IH.
Qed.

Lemma startswith_contains c (l s : string) :
  Py.startswith l s = true → Py.contains c l = true → Py.contains c s = true.
Proof.
  intros H Hl. apply startswith_inv in H as [r ->].
  by rewrite contains_app, Hl.
Qed.

Lemma pattern_unfold :
  pattern = Re.lits "/base/" ++ group_seg :: Re.lits "/~/" ++ [group_seg].
Proof. reflexivity. Qed.

Lemma pattern2_unfold :
  pattern2 =
  Re.lits "/base/" ++ [group_seg; Re.Opt (Re.Lit "/"); Re.Dollar].
Proof. reflexivity. Qed.

Lemma match_group p (s : string) :
  Re.match_here (group_seg :: p) s =
  match Re.plus_go (Re.NotLit "/") (Re.match_here p) s with
  | Some (g, caps) => Some (g :: caps)
  | None => None
  end.
Proof. reflexivity. Qed.

(** The first pattern at a place where the application and table segments
    follow ["/base/"]. *)
Lemma pattern_at_base (app tbl : string) :
  app ≠ "" → Py.contains "/" app = false →
  tbl ≠ "" → Py.contains "/" tbl = false →
  Re.match_here pattern ("/base/" +:+ app +:+ "/~/" +:+ tbl)
  = Some [app; tbl].
Proof.
  intros Ha Hna Ht Hnt.
  rewrite pattern_unfold, match_lits, match_group.
  rewrite (plus_go_segment _ app ("/~/" +:+ tbl) [tbl]); eauto.
  rewrite match_lits, match_group.
  rewrite <- (app_nil_r_str tbl) at 1.
  by rewrite (plus_go_segment _ tbl "" []); eauto.
Qed.

Lemma pattern_head :
  pattern = Re.One (Re.Lit "/") ::
            Re.lits "base/" ++ group_seg :: Re.lits "/~/" ++ [group_seg].
Proof. reflexivity. Qed.

Lemma pattern2_head :
  pattern2 = Re.One (Re.Lit "/") ::
             Re.lits "base/" ++ [group_seg; Re.Opt (Re.Lit "/"); Re.Dollar].
Proof. reflexivity. Qed.

Lemma at_end_true (s : string) :
  Re.at_end s = true → s = "" ∨ s = String "010" "".
Proof.
  destruct s as [|c s]; [by left|].
  destruct c as [[] [] [] [] [] [] [] []]; simpl; try done.
  destruct s; [by right|done].
Qed.

(** Where the host begins, the first pattern finds nothing, except in the
    URL whose host is ["base"] and whose application token is ["~"]. *)
Lemma pattern_not_at_host (host app rest : string) :
  Py.contains "/" host = false →
  Py.contains "/" app = false →
  (rest ≠ "" → ¬ (host = "base" ∧ app = "~")) →
  (rest = "" ∨ ∃ r, rest = String "/" r) →
  Re.match_here pattern (String "/" (host +:+ "/base/" +:+ app +:+ rest))
  = None.
Proof.
  intros Hh Ha Hex Hrest.
  destruct (Py.startswith "/base/"
              (String "/" (host +:+ "/base/" +:+ app +:+ rest))) eqn:E;
    [|rewrite pattern_unfold; by apply match_lits_fail].
  simpl in E.
  apply (startswith_segment "base") in E; [|done..]. subst host.
  change (String "/" ("base" +:+ "/base/" +:+ app +:+ rest))
    with ("/base/" +:+ "base" +:+ String "/" (app +:+ rest)).
  rewrite pattern_unfold, match_lits, match_group.
  change (Re.lits "/~/" ++ [group_seg])
    with (Re.One (Re.Lit "/") :: Re.lits "~/" ++ [group_seg]).
  rewrite plus_go_segment_fail; [done|done|eauto|].
  change (Re.One (Re.Lit "/") :: Re.lits "~/" ++ [group_seg])
    with (Re.lits "/~/" ++ [group_seg]).
  apply match_lits_fail.
  destruct (Py.startswith "/~/" (String "/" (app +:+ rest))) eqn:E; [|done].
  change (Py.startswith "~/" (app +:+ rest) = true) in E.
  exfalso. destruct Hrest as [->|[r ->]].
  - rewrite app_nil_r_str in E.
    apply (startswith_contains "/") in E; [congruence|done].
  - apply Hex; [done|]. split; [done|].
    by apply (startswith_segment "~") in E.
Qed.

Lemma search_pattern_url (host app tbl : string) :
  Py.contains "/" host = false →
  app ≠ "" → Py.contains "/" app = false →
  tbl ≠ "" → Py.contains "/" tbl = false →
  ¬ (host = "base" ∧ app = "~") →
  Re.search pattern
    ("https://" +:+ host +:+ "/base/" +:+ app +:+ "/~/" +:+ tbl)
  = Some [app; tbl].
Proof.
  intros Hh Ha Hna Ht Hnt Hex.
  change ("https://" +:+ ?x) with ("https:" +:+ String "/" (String "/" x)).
  rewrite pattern_head, search_skip, <- pattern_head by done.
  rewrite search_next by done.
  rewrite search_next by (apply pattern_not_at_host; eauto).
  rewrite pattern_head, search_skip, <- pattern_head by done.
  apply search_here. by apply pattern_at_base.
Qed.

(** The same places for a URL that stops after the application token. *)
Lemma search_pattern_none (host app : string) :
  Py.contains "/" host = false →
  Py.contains "/" app = false →
  Re.search pattern ("https://" +:+ host +:+ "/base/" +:+ app) = None.
Proof.
  intros Hh Hna.
  change ("https://" +:+ ?x) with ("https:" +:+ String "/" (String "/" x)).
  rewrite pattern_head, search_skip, <- pattern_head by done.
  rewrite search_next by done.
  rewrite search_next.
  2:{ rewrite <- (app_nil_r_str app). apply pattern_not_at_host; eauto. }
  rewrite pattern_head, search_skip, <- pattern_head by done.
  change ("/base/" +:+ app) with (String "/" ("base/" +:+ app)).
  rewrite search_next.
  2:{ change (String "/" ("base/" +:+ app)) with ("/base/" +:+ app).
      rewrite pattern_unfold, match_lits, match_group.
      rewrite <- (app_nil_r_str app).
      change (Re.lits "/~/" ++ [group_seg])
        with (Re.One (Re.Lit "/") :: Re.lits "~/" ++ [group_seg]).
      by rewrite plus_go_segment_fail; eauto. }
  change ("base/" +:+ app) with ("base" +:+ String "/" app).
  rewrite pattern_head, search_skip, <- pattern_head by done.
  rewrite search_next.
  2:{ rewrite pattern_unfold. apply match_lits_fail.
      destruct (Py.startswith "/base/" (String "/" app)) eqn:E; [|done].
      change (Py.startswith "base/" app = true) in E.
      apply (startswith_contains "/") in E; [congruence|done]. }
  rewrite <- (app_nil_r_str app).
  by rewrite pattern_head, search_skip.
Qed.

Lemma pattern2_not_at_host (host app : string) :
  Py.contains "/" host = false →
  app ≠ "" →
  ¬ (host = "base" ∧ app = String "010" "") →
  Re.match_here pattern2 (String "/" (host +:+ "/base/" +:+ app)) = None.
Proof.
  intros Hh Ha Hex.
  destruct (Py.startswith "/base/"
              (String "/" (host +:+ "/base/" +:+ app))) eqn:E;
    [|rewrite pattern2_unfold; by apply match_lits_fail].
  change (Py.startswith ("base" +:+ "/")
            (host +:+ String "/" ("base/" +:+ app)) = true) in E.
  apply (startswith_segment "base") in E; [|done..]. subst host.
  destruct (Re.at_end app) eqn:Hend.
  - apply at_end_true in Hend as [->| ->]; [done|]. by destruct Hex.
  - change (String "/" ("base" +:+ "/base/" +:+ app))
      with ("/base/" +:+
            String "b" (String "a" (String "s" (String "e" (String "/" app))))).
    rewrite pattern2_unfold, match_lits, match_group.
    simpl. by rewrite Hend.
Qed.

Lemma pattern2_at_base (app : string) :
  app ≠ "" → Py.contains "/" app = false →
  Re.match_here pattern2 ("/base/" +:+ app) = Some [app].
Proof.
  intros Ha Hna.
  rewrite pattern2_unfold, match_lits, match_group.
  rewrite <- (app_nil_r_str app) at 1.
  by rewrite (plus_go_segment _ app "" []); eauto.
Qed.

Lemma search_pattern2_url (host app : string) :
  Py.contains "/" host = false →
  app ≠ "" → Py.contains "/" app = false →
  ¬ (host = "base" ∧ app = String "010" "") →
  Re.search pattern2 ("https://" +:+ host +:+ "/base/" +:+ app) = Some [app].
Proof.
  intros Hh Ha Hna Hex.
  change ("https://" +:+ ?x) with ("https:" +:+ String "/" (String "/" x)).
  rewrite pattern2_head, search_skip, <- pattern2_head by done.
  rewrite search_next by done.
  rewrite search_next by (by apply pattern2_not_at_host).
  rewrite pattern2_head, search_skip, <- pattern2_head by done.
  apply search_here. by apply pattern2_at_base.
Qed.

Lemma slashes_snoc n : slashes (S n) = slashes n +:+ "/".
Proof. induction n as [|n IH]; [done|]. simpl in *. by rewrite IH at 1. Qed.

Lemma contains_slashes c n : c ≠ "/"%char → Py.contains c (slashes n) = false.
Proof.
  intros Hc. induction n as [|n IH]; [done|]. simpl.
  destruct (decide ("/"%char = c)); [congruence|done].
Qed.

Lemma rstrip_slashes (u : string) n :
  Py.rstrip_char "/" (u +:+ slashes n) = Py.rstrip_char "/" u.
Proof.
  induction n as [|n IH]; [by rewrite app_nil_r_str|].
  rewrite slashes_snoc, <- app_assoc_str.
  unfold Py.rstrip_char in *. rewrite rstrip_by_app_drop; [done|].
  by apply bool_decide_eq_true_2.
Qed.

Lemma last_char (s : string) :
  s ≠ "" → ∃ s' c, s = s' +:+ String c "".
Proof.
  induction s as [|a s IH]; [done|]. intros _.
  destruct s as [|b s].
  - by exists "", a.
  - destruct IH as (s' & c & E); [done|]. exists (String a s'), c.
    by rewrite E.
Qed.

Lemma rstrip_keeps (u t : string) :
  t ≠ "" → Py.contains "/" t = false →
  Py.rstrip_char "/" (u +:+ t) = u +:+ t.
Proof.
  intros Ht Hn. destruct (last_char t Ht) as (t' & c & ->).
  rewrite contains_app in Hn. apply orb_false_elim in Hn as [_ Hc].
  simpl in Hc. destruct (decide (c = "/"%char)) as [|Hne]; [done|].
  rewrite <- app_assoc_str. unfold Py.rstrip_char.
  apply rstrip_by_app_keep. by apply bool_decide_eq_false_2.
Qed.

(** Dropping the query string and the trailing slashes gives back the URL
    they were added to. *)
Lemma strip_url (u t : string) n q :
  Py.contains "?" (u +:+ t) = false →
  t ≠ "" → Py.contains "/" t = false →
  let url := (u +:+ t) +:+ slashes n +:+ query q in
  Py.rstrip_char "/"
    (if Py.contains "?" url then Py.split_head "?" url else url)
  = u +:+ t.
Proof.
  intros Hq Ht Hn url. subst url.
  assert (Hs : Py.contains "?" ((u +:+ t) +:+ slashes n) = false).
  { by rewrite contains_app, Hq, contains_slashes. }
  destruct q as [text|]; simpl query.
  - rewrite <- app_assoc_str.
    rewrite (contains_app _ (_ +:+ slashes n)). simpl Py.contains at 2.
    rewrite orb_true_r. unfold Py.split_head.
    rewrite split_app_sep by done.
    by rewrite rstrip_slashes, rstrip_keeps.
  - rewrite app_nil_r_str, Hs. by rewrite rstrip_slashes, rstrip_keeps.
Qed.

Lemma parse_table_url (host app tbl : string) n q :
  segment host → app ≠ "" → segment app → tbl ≠ "" → segment tbl →
  ¬ (host = "base" ∧ app = "~") →
  parse_feishu_bitable_url (table_url host app tbl n q)
  = Some (app, Some tbl, app +:+ "/" +:+ tbl).
Proof.
  intros [Hh Hh'] Ha [Hna Hna'] Ht [Hnt Hnt'] Hex.
  unfold parse_feishu_bitable_url, table_url.
  assert (E : "https://" +:+ host +:+ "/base/" +:+ app +:+ "/~/" +:+ tbl
              = ("https://" +:+ host +:+ "/base/" +:+ app +:+ "/~/") +:+ tbl).
  { by rewrite !app_assoc_str. }
  rewrite E, strip_url; [|..|done|done].
  - rewrite <- E, search_pattern_url by done. done.
  - rewrite <- E, !contains_app. by rewrite Hh', Hna', Hnt'.
Qed.

Lemma parse_app_url (host app : string) n q :
  segment host → app ≠ "" → segment app →
  ¬ (host = "base" ∧ app = String "010" "") →
  parse_feishu_bitable_url (app_url host app n q) = Some (app, None, app).
Proof.
  intros [Hh Hh'] Ha [Hna Hna'] Hex.
  unfold parse_feishu_bitable_url, app_url.
  assert (E : "https://" +:+ host +:+ "/base/" +:+ app
              = ("https://" +:+ host +:+ "/base/") +:+ app).
  { by rewrite !app_assoc_str. }
  rewrite E, strip_url; [|..|done|done].
  - rewrite <- E, search_pattern_none, search_pattern2_url by done. done.
  - rewrite <- E, !contains_app. by rewrite Hh', Hna'.
Qed.

(** What a successful search tells about the text. *)
Lemma search_inv p (s : string) caps :
  Re.search p s = Some caps →
  ∃ pre suf, s = pre +:+ suf ∧ Re.match_here p suf = Some caps.
Proof.
  induction s as [|a s IH]; simpl.
  - destruct (Re.match_here p "") eqn:E; [|done].
    intros [= <-]. by exists "", "".
  - destruct (Re.match_here p (String a s)) eqn:E.
    + intros [= <-]. by exists "", (String a s).
    + intros H. destruct (IH H) as (pre & suf & -> & Hm).
      by exists (String a pre), suf.
Qed.

Lemma plus_go_inv cont (s g : string) caps :
  Re.plus_go (Re.NotLit "/") cont s = Some (g, caps) →
  ∃ rest, s = g +:+ rest ∧ g ≠ "" ∧ Py.contains "/" g = false ∧
          cont rest = Some caps.
Proof.
  revert g. induction s as [|a s IH]; intros g; [done|]. simpl.
  destruct (decide (a = "/"%char)) as [->|Ha].
  - by rewrite bool_decide_eq_true_2.
  - rewrite bool_decide_eq_false_2 by done. simpl.
    destruct (Re.plus_go (Re.NotLit "/") cont s) as [[g0 caps0]|] eqn:E.
    + intros [= <- <-]. destruct (IH g0 eq_refl) as (rest & -> & _ & Hg & Hc).
      exists rest. split; [done|]. split; [done|]. split; [|done].
      simpl. by rewrite decide_False.
    + destruct (cont s) as [caps0|] eqn:Ec; [|done].
      intros [= <- <-]. exists s. split; [done|]. split; [done|].
      split; [|done]. simpl. by rewrite decide_False.
Qed.

Lemma split_head_prefix c (s : string) : ∃ r, s = Py.split_head c s +:+ r.
Proof.
  unfold Py.split_head. induction s as [|a s [r IH]]; [by exists ""|].
  simpl. destruct (decide (a = c)).
  - by exists (String a s).
  - destruct (Py.split c s) as [|w ws].
    + by exists s.
    + exists r. by rewrite IH at 1.
Qed.

Lemma rstrip_by_prefix p (s : string) : ∃ r, s = Py.rstrip_by p s +:+ r.
Proof.
  induction s as [|a s [r IH]]; [by exists ""|]. simpl.
  destruct (Py.rstrip_by p s) as [|b t].
  - destruct (p a); [by exists (String a s)|].
    exists s. done.
  - exists r. by rewrite IH at 1.
Qed.

Lemma stripped_prefix (url : string) :
  ∃ r, url =
       Py.rstrip_char "/"
         (if Py.contains "?" url then Py.split_head "?" url else url) +:+ r.
Proof.
  set (u := if Py.contains "?" url then Py.split_head "?" url else url).
  assert (∃ r, url = u +:+ r) as [r1 E1].
  { subst u. destruct (Py.contains "?" url).
    - apply split_head_prefix.
    - exists "". by rewrite app_nil_r_str. }
  destruct (rstrip_by_prefix (λ a, bool_decide (a = "/"%char)) u) as [r2 E2].
  exists (r2 +:+ r1). rewrite <- app_assoc_str.
  unfold Py.rstrip_char. by rewrite <- E2.
Qed.

Lemma pattern_inv (s : string) caps :
  Re.match_here pattern s = Some caps →
  ∃ a t rest,
    caps = [a; t] ∧ s = "/base/" +:+ a +:+ "/~/" +:+ t +:+ rest ∧
    a ≠ "" ∧ Py.contains "/" a = false ∧
    t ≠ "" ∧ Py.contains "/" t = false.
Proof.
  rewrite pattern_unfold. intros H.
  apply match_lits_inv in H as (r1 & -> & H). rewrite match_group in H.
  destruct (Re.plus_go _ _ r1) as [[a caps1]|] eqn:E1; [|done].
  injection H as <-.
  apply plus_go_inv in E1 as (r2 & -> & Ha & Hna & H).
  apply match_lits_inv in H as (r3 & -> & H). rewrite match_group in H.
  destruct (Re.plus_go _ _ r3) as [[t caps2]|] eqn:E2; [|done].
  injection H as <-.
  apply plus_go_inv in E2 as (r4 & -> & Ht & Hnt & H).
  injection H as <-. by exists a, t, r4.
Qed.

Lemma pattern2_inv (s : string) caps :
  Re.match_here pattern2 s = Some caps →
  ∃ a rest,
    caps = [a] ∧ s = "/base/" +:+ a +:+ rest ∧
    a ≠ "" ∧ Py.contains "/" a = false.
Proof.
  rewrite pattern2_unfold. intros H.
  apply match_lits_inv in H as (r1 & -> & H). rewrite match_group in H.
  destruct (Re.plus_go _ _ r1) as [[a caps1]|] eqn:E1; [|done].
  injection H as <-.
  apply plus_go_inv in E1 as (r2 & -> & Ha & Hna & H).
  exists a, r2. split; [|done]. f_equal.
  destruct r2 as [|c r2]; simpl in H; repeat case_match; congruence.
Qed.

(** Whatever the parser returns was found in the URL: the application token
    is a non-empty segment after some ["/base/"], and the table id, when
    there is one, a non-empty segment after the ["/~/"] that follows. *)
Lemma parse_sound (url a f : string) (t : option string) :
  parse_feishu_bitable_url url = Some (a, t, f) →
  a ≠ "" ∧ Py.contains "/" a = false ∧
  match t with
  | Some tb =>
      tb ≠ "" ∧ Py.contains "/" tb = false ∧ f = a +:+ "/" +:+ tb ∧
      ∃ pre rest, url = pre +:+ "/base/" +:+ a +:+ "/~/" +:+ tb +:+ rest
  | None => f = a ∧ ∃ pre rest, url = pre +:+ "/base/" +:+ a +:+ rest
  end.
Proof.
  unfold parse_feishu_bitable_url.
  destruct (stripped_prefix url) as [r E].
  set (u := Py.rstrip_char "/" _) in *.
  destruct (Re.search pattern u) as [caps|] eqn:E1.
  - apply search_inv in E1 as (pre & suf & Eu & Hm).
    apply pattern_inv in Hm as (a' & t' & rest & -> & -> & Ha & Hna & Ht & Hnt).
    intros [= <- <- <-]. repeat split; try done.
    exists pre, (rest +:+ r). rewrite E, Eu. by rewrite !app_assoc_str.
  - destruct (Re.search pattern2 u) as [caps|] eqn:E2; [|done].
    apply search_inv in E2 as (pre & suf & Eu & Hm).
    apply pattern2_inv in Hm as (a' & rest & -> & -> & Ha & Hna).
    intros [= <- <- <-]. repeat split; try done.
    exists pre, (rest +:+ r). rewrite E, Eu. by rewrite !app_assoc_str.
Qed.

Lemma substring_in_app (sub pre s : string) :
  substring_in sub (pre +:+ sub +:+ s) = true.
Proof.
  induction pre as [|a pre IH].
  - rewrite app_nil_l_str. destruct (sub +:+ s) eqn:E; simpl;
      rewrite <- E, startswith_app; done.
  - rewrite app_cons_str. simpl. rewrite IH. apply orb_true_r.
Qed.

(** C10, as the code has it. A URL [https://<host>/base/<app>/~/<tbl>], with
    any trailing slashes and query string, yields [(app, tbl, app/tbl)];
    a URL [https://<host>/base/<app>] yields [(app, None, app)]; host,
    [app] and [tbl] are free of ["/"] and ["?"], [app] and [tbl] non-empty.
    Two URLs are left out, in which the search finds the host first: host
    ["base"] with [app = "~"], and host ["base"] with [app] a lone newline.
    The search is not anchored: a URL without ["/base/"] yields [None], and
    every triple the parser returns was read off an occurrence of
    ["/base/<app>"] (followed by ["/~/<tbl>"] when a table id is returned)
    somewhere in the URL. *)
Theorem parse_feishu_bitable_url_spec :
  (∀ host app tbl n q,
     segment host → app ≠ "" → segment app → tbl ≠ "" → segment tbl →
     ¬ (host = "base" ∧ app = "~") →
     parse_feishu_bitable_url (table_url host app tbl n q)
     = Some (app, Some tbl, app +:+ "/" +:+ tbl)) ∧
  (∀ host app n q,
     segment host → app ≠ "" → segment app →
     ¬ (host = "base" ∧ app = String "010" "") →
     parse_feishu_bitable_url (app_url host app n q)
     = Some (app, None, app)) ∧
  (∀ url, substring_in "/base/" url = false →
          parse_feishu_bitable_url url = None) ∧
  (∀ url a t f,
     parse_feishu_bitable_url url = Some (a, t, f) →
     a ≠ "" ∧ Py.contains "/" a = false ∧
     match t with
     | Some tb =>
         tb ≠ "" ∧ Py.contains "/" tb = false ∧ f = a +:+ "/" +:+ tb ∧
         ∃ pre rest, url = pre +:+ "/base/" +:+ a +:+ "/~/" +:+ tb +:+ rest
     | None => f = a ∧ ∃ pre rest, url = pre +:+ "/base/" +:+ a +:+ rest
     end).
Proof.
  split; [intros; by apply parse_table_url|].
  split; [intros; by apply parse_app_url|].
  split; [|intros; by apply parse_sound].
  intros url Hn.
  destruct (parse_feishu_bitable_url url) as [[[a t] f]|] eqn:E; [|done].
  apply parse_sound in E as (_ & _ & H).
  destruct t as [tb|].
  - destruct H as (_ & _ & _ & pre & rest & ->).
    by rewrite substring_in_app in Hn.
  - destruct H as (_ & pre & rest & ->).
    by rewrite substring_in_app in Hn.
Qed.

Lemma parse_feishu_bitable_url_spec_witness :
  parse_feishu_bitable_url
    (table_url "xxx.feishu.cn" "appX" "tblY" 2 (Some "view=v1"))
  = Some ("appX", Some "tblY", "appX/tblY").
Proof.
  apply (proj1 parse_feishu_bitable_url_spec
           "xxx.feishu.cn" "appX" "tblY" 2%nat (Some "view=v1"));
    try done.
  intros [H _]. discriminate H.
Defined.

(** C10, as stated, fails. With host ["base"] and application token ["~"]
    the search stops at the host and returns the wrong pair; and a URL of
    neither documented shape, here one over plain [http], is parsed all
    the same. *)
Lemma parse_feishu_bitable_url_counterexample :
  segment "base" ∧ segment "~" ∧ segment "tbl" ∧
  parse_feishu_bitable_url (table_url "base" "~" "tbl" 0 None)
  = Some ("base", Some "~", "base/~") ∧
  parse_feishu_bitable_url "http://h/base/a/~/t" = Some ("a", Some "t", "a/t") ∧
  (∀ host app tbl n q, "http://h/base/a/~/t" ≠ table_url host app tbl n q) ∧
  (∀ host app n q, "http://h/base/a/~/t" ≠ app_url host app n q).
Proof.
  repeat split; try reflexivity; intros; discriminate.
Qed.

(** ** feishu_bitable.py *)

Lemma Qltb_true (a b : Q) : Qltb a b = true ↔ (a < b)%Q.
Proof.
  unfold Qltb. rewrite negb_true_iff.
  destruct (Qle_bool b a) eqn:E.
  - apply Qle_bool_iff in E. split; [done|]. intros H.
    by apply Qlt_not_le in H.
  - split; [|done]. intros _. apply Qnot_le_lt. intros H.
    apply Qle_bool_iff in H. congruence.
Qed.

Lemma Qeq_bool_false (a b : Q) : ¬ (a == b)%Q → Qeq_bool a b = false.
Proof.
  intros H. destruct (Qeq_bool a b) eqn:E; [|done].
  by apply Qeq_bool_iff in E.
Qed.

Example read_demo :
  fst (read_stock_list "股票代码" (demo_reader, demo_net))
  = Return [superscript_code; "600519"].
Proof. vm_compute. reflexivity. Qed.

Lemma token_cached (r : FeishuBitableReader) (n : Net) :
  token_fresh r (now n) = true →
  _get_tenant_access_token (r, n) = (Return (_access_token r), (r, n)).
Proof.
  intros H. unfold _get_tenant_access_token, bind, self, timestamp. simpl.
  by rewrite H.
Qed.

(** The reader after a token was stored at time [t]. *)
Lemma token_request (r : FeishuBitableReader) (n : Net) :
  token_fresh r (now n) = false →
  _get_tenant_access_token (r, n) =
  try_except
    (data <- http (PostToken (app_id r) (app_secret r)) ;;
     code <- lift (py_get data "code" JNull) ;;
     if negb (eq_zero code) then ret JNull
     else
       tok <- lift (py_get data "tenant_access_token" JNull) ;;
       t' <- timestamp ;;
       set_token tok (t' + 5400) ;;;
       ret tok)
    (ret JNull) (r, n).
Proof.
  intros H. unfold _get_tenant_access_token at 1.
  unfold bind at 1, self. simpl. unfold bind at 1, timestamp. simpl.
  by rewrite H.
Qed.

Lemma token_fresh_iff (r : FeishuBitableReader) (t : Q) :
  token_fresh r t = true ↔
  truthy (_access_token r) = true ∧
  ∃ e, _token_expires_at r = Some e ∧ ¬ (e == 0)%Q ∧ (t < e)%Q.
Proof.
  unfold token_fresh. split.
  - intros H. apply andb_prop in H as [Ht H]. split; [done|].
    destruct (_token_expires_at r) as [e|]; [|done].
    apply andb_prop in H as [He Hlt]. exists e. split; [done|].
    split; [|by apply Qltb_true].
    intros E. apply Qeq_bool_iff in E. by rewrite E in He.
  - intros (Ht & e & -> & He & Hlt). rewrite Ht. simpl.
    rewrite (Qeq_bool_false _ _ He). simpl. by apply Qltb_true.
Qed.

(** C7. The token cache of the reader. With a token and an expiry time
    stored (both true values, as the source tests them) and the clock
    strictly before the expiry, the stored token is returned and nothing is
    sent. Otherwise one token request is sent: when the vendor answers with
    a JSON object whose code is zero, the token of the answer is stored
    together with the expiry "time of the answer plus 5400 seconds" and
    returned; on an exception, or any other answer, [None] is returned
    and the reader is unchanged. The method never raises. *)
Theorem tenant_access_token_cache (r : FeishuBitableReader) (n : Net) :
  (∀ e,
     truthy (_access_token r) = true →
     _token_expires_at r = Some e → ¬ (e == 0)%Q → (now n < e)%Q →
     _get_tenant_access_token (r, n) = (Return (_access_token r), (r, n))) ∧
  (token_fresh r (now n) = false →
   ∃ v r' n',
     _get_tenant_access_token (r, n) = (Return v, (r', n')) ∧
     trace n' = trace n ++ [PostToken (app_id r) (app_secret r)] ∧
     match script n with
     | (dt, Body (JDict m)) :: rest =>
         if eq_zero (default JNull (dict_get m "code")) then
           v = default JNull (dict_get m "tenant_access_token") ∧
           now n' = (now n + dt)%Q ∧
           r' = {| app_id := app_id r; app_secret := app_secret r;
                   table_token := table_token r;
                   _access_token := v;
                   _token_expires_at := Some (now n' + 5400)%Q |}
         else v = JNull ∧ r' = r
     | _ => v = JNull ∧ r' = r
     end) ∧
  (∃ v s, _get_tenant_access_token (r, n) = (Return v, s)) ∧
  (token_fresh r (now n) = true ↔
   truthy (_access_token r) = true ∧
   ∃ e, _token_expires_at r = Some e ∧ ¬ (e == 0)%Q ∧ (now n < e)%Q).
Proof.
  assert (Hreq : token_fresh r (now n) = false →
    ∃ v r' n',
     _get_tenant_access_token (r, n) = (Return v, (r', n')) ∧
     trace n' = trace n ++ [PostToken (app_id r) (app_secret r)] ∧
     match script n with
     | (dt, Body (JDict m)) :: rest =>
         if eq_zero (default JNull (dict_get m "code")) then
           v = default JNull (dict_get m "tenant_access_token") ∧
           now n' = (now n + dt)%Q ∧
           r' = {| app_id := app_id r; app_secret := app_secret r;
                   table_token := table_token r;
                   _access_token := v;
                   _token_expires_at := Some (now n' + 5400)%Q |}
         else v = JNull ∧ r' = r
     | _ => v = JNull ∧ r' = r
     end).
  { intros H. rewrite (token_request r n H).
    unfold try_except, bind, http. destruct n as [t sc tr]. simpl.
    destruct sc as [|[dt rep] rest]; simpl.
    { by eexists _, _, _. }
    destruct rep as [| |data]; simpl; try by eexists _, _, _.
    destruct data as [| | | | |m]; simpl; try by eexists _, _, _.
    destruct (eq_zero (default JNull (dict_get m "code"))); simpl;
      by eexists _, _, _. }
  split; [|split; [exact Hreq|split; [|apply token_fresh_iff]]].
  - intros e Ht He Hz Hlt. apply token_cached. apply token_fresh_iff. eauto.
  - destruct (token_fresh r (now n)) eqn:E.
    + rewrite (token_cached r n E). eauto.
    + destruct (Hreq eq_refl) as (v & r' & n' & -> & _). eauto.
Qed.

Lemma tenant_access_token_cache_witness :
  let r := {| app_id := Some "cli_a1b2"; app_secret := Some "s3cret";
              table_token := Some "bascnAAA/tblBBB";
              _access_token := JStr "t-abc";
              _token_expires_at := Some 1700005400%Q |} in
  _get_tenant_access_token (r, demo_net) = (Return (JStr "t-abc"), (r, demo_net)).
Proof.
  intros r.
  apply (proj1 (tenant_access_token_cache r demo_net) 1700005400%Q);
    [reflexivity|reflexivity|discriminate|reflexivity].
Defined.

(** *** The guard of the two readers *)

Lemma with_table_unconfigured {A} (k : string → string → M (list A)) r n :
  is_configured r = false → with_table k (r, n) = (Return [], (r, n)).
Proof.
  intros H. unfold with_table, bind, self. simpl. by rewrite H.
Qed.

Lemma with_table_no_slash {A} (k : string → string → M (list A)) r n tt :
  table_token r = Some tt → Py.contains "/" tt = false →
  with_table k (r, n) = (Return [], (r, n)).
Proof.
  intros Ht Hs. unfold with_table, bind, self. simpl.
  destruct (is_configured r); simpl; [|done].
  by rewrite Ht; simpl; rewrite Hs.
Qed.

(** The part of C6 that the code keeps: an unconfigured reader, and a
    reader whose table token holds no ["/"], return the empty list and send
    nothing. *)
Lemma readers_guarded py_dict r n field_name field_names :
  is_configured r = false ∨
  (∃ tt, table_token r = Some tt ∧ Py.contains "/" tt = false) →
  read_stock_list field_name (r, n) = (Return [], (r, n)) ∧
  get_table_records py_dict field_names (r, n) = (Return [], (r, n)).
Proof.
  unfold read_stock_list, get_table_records.
  intros [H|(tt & Ht & Hs)].
  - split; by apply with_table_unconfigured.
  - split; by eapply with_table_no_slash.
Qed.

(** C6 at a table token with three parts: both readers raise [ValueError]
    from unpacking the split instead of returning the empty list; nothing
    is sent. *)
Theorem three_part_token_raises py_dict (n : Net) field_name field_names :
  is_configured three_part_reader = true ∧
  read_stock_list field_name (three_part_reader, n)
  = (Raised (PyExn ValueError), (three_part_reader, n)) ∧
  get_table_records py_dict field_names (three_part_reader, n)
  = (Raised (PyExn ValueError), (three_part_reader, n)).
Proof. repeat split. Qed.

(** *** The filter of [_extract_stock_codes] *)

Lemma code_ok_accepted (s : string) : code_ok s = true → accepted_code s.
Proof.
  unfold code_ok, accepted_code. intros H.
  apply andb_prop in H as [H Hd]. apply andb_prop in H as [_ Hl].
  apply bool_decide_eq_true_1 in Hl. split; [done|].
  by destruct s.
Qed.

Lemma extract_one_spec field_name record fields v :
  py_get record "fields" (JDict []) = Ok fields →
  pick_field (field_names_tried field_name) fields = Ok v →
  extract_one field_name record =
  Ok match headed_string v with
     | Some s => if code_ok (clean_code s) then [clean_code s] else []
     | None => []
     end.
Proof.
  intros Hf Hv. unfold extract_one. rewrite Hf. unfold rbind at 1.
  rewrite Hv. unfold rbind.
  destruct v as [|b|q|s|[|x l]|m]; simpl; try done.
  - by destruct b.
  - by destruct (negb (Qeq_bool q 0)).
  - destruct (Py.truthy_str s) eqn:E; [by destruct (code_ok _)|].
    by destruct s.
  - destruct x; try done. by destruct (code_ok _).
  - by destruct m.
Qed.

Lemma extract_one_accepted field_name record new :
  extract_one field_name record = Ok new → Forall accepted_code new.
Proof.
  unfold extract_one.
  destruct (py_get record "fields" (JDict [])) as [fields|]; [|done].
  unfold rbind at 1.
  destruct (pick_field _ fields) as [v|]; [|done]. unfold rbind.
  destruct (truthy v); [|by intros [= <-]].
  repeat case_match; intros [= <-]; try constructor; try done;
    by apply code_ok_accepted.
Qed.

Lemma extract_loop_spec field_name records acc l :
  extract_loop field_name records acc = Ok l →
  ∃ news, Forall2 (λ record new, extract_one field_name record = Ok new)
            records news ∧
          l = acc ++ concat news.
Proof.
  revert acc. induction records as [|record rest IH]; intros acc; simpl.
  - intros [= <-]. exists []. split; [constructor|]. by rewrite app_nil_r.
  - destruct (extract_one field_name record) as [new|] eqn:E; [|done]. simpl.
    intros H. destruct (IH _ H) as (news & HF & ->).
    exists (new :: news). split; [by constructor|].
    simpl. by rewrite app_assoc.
Qed.

Lemma extract_stock_codes_accepted items field_name l :
  _extract_stock_codes items field_name = Ok l → Forall accepted_code l.
Proof.
  unfold _extract_stock_codes.
  destruct (py_iter items) as [records|]; [|done]. simpl. intros H.
  apply extract_loop_spec in H as (news & HF & ->). simpl.
  apply Forall_concat. induction HF; constructor; auto.
  by eapply extract_one_accepted.
Qed.

(** *** Paging *)

Section PagingFacts.

Context {A : Type}.
Variable process : json → result (list A).
Variables app_token table_id : string.

(** Whatever holds of the rows of every page holds of the list read. *)
Lemma pages_Forall (P : A → Prop) :
  (∀ items new, process items = Ok new → Forall P new) →
  ∀ fuel has_more page_token acc s l s',
    Forall P acc →
    pages process app_token table_id fuel has_more page_token acc s
    = (Return l, s') →
    Forall P l.
Proof.
  intros HP. induction fuel as [|fuel IH];
    intros has_more page_token acc s l s' Hacc; simpl;
    (destruct (truthy has_more && truthy page_token);
     [|by intros [= <- _]]); [done|].
  unfold bind at 1.
  destruct (_list_table_records _ _ _ _ s) as [[[result|]|e] s1];
    [|by intros [= <- _]|done].
  destruct (negb (truthy result)); [by intros [= <- _]|].
  destruct (page_fields result) as [[[items hm] pt]|e]; [|done].
  unfold bind, lift. destruct (process items) as [new|e] eqn:E; [|done].
  simpl. apply IH. apply Forall_app. split; [done|]. by eapply HP.
Qed.

Lemma read_pages_Forall (P : A → Prop) :
  (∀ items new, process items = Ok new → Forall P new) →
  ∀ s l s',
    read_pages process app_token table_id s = (Return l, s') → Forall P l.
Proof.
  intros HP s l s'. unfold read_pages. unfold bind at 1.
  destruct (_list_table_records _ _ _ _ s) as [[[result|]|e] s1];
    [|by intros [= <- _]|done].
  destruct (negb (truthy result)); [by intros [= <- _]|].
  destruct (page_fields result) as [[[items hm] pt]|e]; [|done].
  unfold bind, lift. destruct (process items) as [new|e] eqn:E; [|done].
  unfold ret. cbv beta iota. apply pages_Forall; [done|]. by eapply HP.
Qed.

End PagingFacts.

Lemma with_table_Forall {A} (P : A → Prop)
    (k : string → string → M (list A)) :
  (∀ a t s l s', k a t s = (Return l, s') → Forall P l) →
  ∀ s l s', with_table k s = (Return l, s') → Forall P l.
Proof.
  intros Hk [r n] l s'. unfold with_table, bind, self. simpl.
  destruct (negb (is_configured r)); [by intros [= <- _]|].
  destruct (Py.contains "/" _); [|by intros [= <- _]].
  destruct (Py.split "/" _) as [|a [|t [|]]]; try done. apply Hk.
Qed.

Lemma read_stock_list_accepted field_name s l s' :
  read_stock_list field_name s = (Return l, s') → Forall accepted_code l.
Proof.
  apply with_table_Forall. intros a t. apply read_pages_Forall.
  intros items new. apply extract_stock_codes_accepted.
Qed.

(** C8, as the code has it. Every string [read_stock_list] returns, and
    every string [_extract_stock_codes] returns, has six characters, each
    one a digit in the sense of [str.isdigit] (which takes the superscript
    digits too). The list is the concatenation of what the records give, in
    order; a record gives its cleaned code when its field value is a string
    or a list headed by one and the cleaned code passes the filter, and
    nothing otherwise. *)
Theorem extracted_codes_are_six_digits :
  (∀ field_name s l s',
     read_stock_list field_name s = (Return l, s') →
     Forall accepted_code l) ∧
  (∀ items field_name l,
     _extract_stock_codes items field_name = Ok l →
     Forall accepted_code l ∧
     ∀ records, items = JList records →
       ∃ news,
         Forall2 (λ record new, extract_one field_name record = Ok new)
           records news ∧
         l = concat news) ∧
  (∀ field_name record fields v,
     py_get record "fields" (JDict []) = Ok fields →
     pick_field (field_names_tried field_name) fields = Ok v →
     extract_one field_name record =
     Ok match headed_string v with
        | Some s => if code_ok (clean_code s) then [clean_code s] else []
        | None => []
        end).
Proof.
  split; [apply read_stock_list_accepted|].
  split; [|apply extract_one_spec].
  intros items field_name l H.
  split; [by eapply extract_stock_codes_accepted|].
  intros records ->. unfold _extract_stock_codes in H. simpl in H.
  by apply extract_loop_spec in H.
Qed.

Lemma extracted_codes_are_six_digits_witness :
  Forall accepted_code [superscript_code; "600519"].
Proof.
  apply (proj1 extracted_codes_are_six_digits "股票代码"
           (demo_reader, demo_net) _
           (snd (read_stock_list "股票代码" (demo_reader, demo_net)))).
  vm_compute. reflexivity.
Defined.

(** C8, as stated, fails: a row whose code is six superscript twos passes
    [len(...) == 6] and [str.isdigit], so the list read holds a string with
    no decimal digit in it. *)
Lemma superscript_code_is_returned :
  fst (read_stock_list "股票代码" (demo_reader, demo_net))
  = Return [superscript_code; "600519"] ∧
  String.length superscript_code = 6%nat ∧
  Py.isdigit superscript_code = true ∧
  Py.forallb_str Py.is_decimal_char superscript_code = false.
Proof. vm_compute. repeat split. Qed.

(** *** The paging loop stays within its bound *)

Lemma http_script req s :
  ∃ out s', http req s = (out, s') ∧
    (length (script (snd s')) ≤ length (script (snd s)))%nat ∧
    (∀ d, out = Return d →
          (length (script (snd s')) < length (script (snd s)))%nat).
Proof.
  destruct s as [r [t sc tr]]. unfold http. simpl.
  destruct sc as [|[dt rep] rest]; simpl.
  - eexists _, _. split; [done|]. simpl. split; [lia|done].
  - destruct rep; eexists _, _; (split; [done|]); simpl;
      (split; [lia|]); intros d; try done; intros _; lia.
Qed.

Lemma token_script s :
  ∃ v s', _get_tenant_access_token s = (Return v, s') ∧
    (length (script (snd s')) ≤ length (script (snd s)))%nat.
Proof.
  destruct s as [r n].
  destruct (token_fresh r (now n)) eqn:E.
  - rewrite (token_cached r n E). eauto.
  - rewrite (token_request r n E). unfold try_except, bind at 1.
    destruct (http_script (PostToken (app_id r) (app_secret r)) (r, n))
      as (out & s1 & -> & Hle & _).
    destruct out as [data|e]; [|unfold ret; eauto].
    unfold bind, lift, ret, raise, timestamp.
    destruct (py_get data "code" JNull) as [code|e]; [|eauto].
    destruct (negb (eq_zero code)); [eauto|].
    destruct (py_get data "tenant_access_token" JNull) as [tok|e]; [|eauto].
    destruct s1 as [r1 n1]. simpl. eauto.
Qed.

Lemma list_records_script a t ps pt s :
  ∃ v s', _list_table_records a t ps pt s = (Return v, s') ∧
    (is_Some v →
     (length (script (snd s')) < length (script (snd s)))%nat).
Proof.
  unfold _list_table_records, bind at 1.
  destruct (token_script s) as (tok & s1 & -> & Hle).
  destruct (negb (truthy tok)).
  { unfold ret. eexists _, _. split; [done|]. by intros [? ?]. }
  unfold try_except, bind at 1.
  match goal with |- context [http ?req s1] =>
    destruct (http_script req s1) as (out & s2 & -> & Hle2 & Hlt)
  end.
  destruct out as [data|e].
  2:{ unfold ret. eexists _, _. split; [done|]. by intros [? ?]. }
  specialize (Hlt data eq_refl).
  unfold bind, lift, ret, raise.
  destruct (py_get data "code" JNull) as [code|e].
  2:{ eexists _, _. split; [done|]. by intros [? ?]. }
  destruct (negb (eq_zero code)); eexists _, _; (split; [done|]).
  - by intros [? ?].
  - intros _. lia.
Qed.

Lemma pages_bound {A} (process : json → result (list A)) a t :
  ∀ fuel has_more page_token acc s,
    (length (script (snd s)) < fuel)%nat →
    fst (pages process a t fuel has_more page_token acc s) ≠ Raised LoopBound.
Proof.
  induction fuel as [|fuel IH]; intros has_more page_token acc s Hlt; [lia|].
  simpl. destruct (truthy has_more && truthy page_token); [|done].
  unfold bind at 1.
  destruct (list_records_script a t 100 (Some page_token) s)
    as (v & s1 & -> & Hs).
  destruct v as [result|]; [|done].
  destruct (negb (truthy result)); [done|].
  destruct (page_fields result) as [[[items hm] pt]|e] eqn:Ep.
  - unfold bind, lift. destruct (process items) as [new|e]; [|done].
    unfold ret. cbv beta iota. apply IH.
    specialize (Hs (mk_is_Some _ _ eq_refl)). lia.
  - unfold raise. simpl. intros [= ->].
    unfold page_fields in Ep. repeat case_match; congruence.
Qed.

(** Reading never stops for lack of fuel: the bound of the model is not an
    outcome of [read_stock_list] or [get_table_records]. *)
Lemma readers_within_bound py_dict field_name field_names s :
  fst (read_stock_list field_name s) ≠ Raised LoopBound ∧
  fst (get_table_records py_dict field_names s) ≠ Raised LoopBound.
Proof.
  assert (H : ∀ {A} (process : json → result (list A)),
             fst (with_table (read_pages process) s) ≠ Raised LoopBound).
  { intros A process. destruct s as [r n].
    unfold with_table, bind, self. simpl.
    destruct (negb (is_configured r)); [done|].
    destruct (Py.contains "/" _); [|done].
    destruct (Py.split "/" _) as [|a [|t [|]]]; try done.
    unfold read_pages, bind at 1.
    destruct (list_records_script a t 100 None (r, n)) as (v & s1 & -> & _).
    destruct v as [result|]; [|done].
    destruct (negb (truthy result)); [done|].
    destruct (page_fields result) as [[[items hm] pt]|e] eqn:Ep.
    - unfold bind, lift. destruct (process items) as [new|e]; [|done].
      unfold ret. cbv beta iota. apply pages_bound. lia.
    - unfold raise. simpl. intros [= ->].
      unfold page_fields in Ep. repeat case_match; congruence. }
  split; apply H.
Qed.

(** ** The strategy layer *)

Section RetryFacts.

Import Strategy.
Local Open Scope Q_scope.

Lemma iter_double (b : Q) (k : nat) :
  Nat.iter k (λ d, d * 2) b == b * 2 ^ Z.of_nat k.
Proof.
  induction k as [|k IH].
  - simpl. ring.
  - rewrite Nat.iter_succ, IH, Nat2Z.inj_succ, <- Z.add_1_r.
    rewrite Qpower_plus by discriminate. simpl (2 ^ 1). ring.
Qed.

Lemma Qmin_compat_l (a b c : Q) : a == b → Qmin a c == Qmin b c.
Proof. intros H. by rewrite H. Qed.

(** While every attempt fails transiently the executor sleeps the capped
    delays, doubling from [d]. *)
Lemma execute_from_backoffs {Payload} cfg (op : nat → attempt Payload) :
  (∀ i, ∃ err, op i = Transient err) →
  ∀ left i d,
    backoffs (snd (execute_from cfg (S left) i d op)) =
    List.map (λ j, Qmin (Nat.iter j (λ d, d * 2) d) (retry_max_delay cfg))
      (seq 0 left).
Proof.
  intros Hop. induction left as [|left IH]; intros i d.
  - simpl. destruct (Hop i) as [err ->]. done.
  - change (execute_from cfg (S (S left)) i d op)
      with (match op i with
            | Success p => (Succeeded p i, [Tried i])
            | Permanent err => (Failed (Some err) i, [Tried i])
            | Transient err =>
                let '(t, evs) := execute_from cfg (S left) (S i) (d * 2) op in
                (t, Tried i :: Backoff (Qmin d (retry_max_delay cfg)) :: evs)
            end).
    destruct (Hop i) as [err ->].
    specialize (IH (S i) (d * 2)).
    destruct (execute_from cfg (S left) (S i) (d * 2) op) as [t evs].
    simpl in *. rewrite IH. f_equal.
    rewrite <- seq_shift, List.map_map.
    apply List.map_ext. intros j. by rewrite Nat.iter_succ_r.
Qed.

(** C3. After attempt [i >= 1] the backoff delay is
    [min (retry_base_delay * 2^(i-1)) retry_max_delay]; these are the
    delays the executor sleeps between attempts that fail transiently; for
    [max_retries=5, base=1, max=30] the delays of the five attempts are
    1, 2, 4, 8, 16. *)
Theorem backoff_schedule :
  (∀ cfg i, (1 ≤ i)%nat →
     backoff_delay cfg i ==
     Qmin (retry_base_delay cfg * 2 ^ (Z.of_nat i - 1))
          (retry_max_delay cfg)) ∧
  (∀ Payload cfg (op : nat → attempt Payload),
     (∀ i, ∃ err, op i = Transient err) →
     backoffs (snd (execute cfg op)) =
     List.map (backoff_delay cfg) (seq 1 (max_retries cfg - 1))) ∧
  delay_sequence example_retry = [1; 2; 4; 8; 16].
Proof.
  split; [|split].
  - intros cfg i Hi. unfold backoff_delay.
    apply Qmin_compat_l. rewrite iter_double.
    replace (Z.of_nat (Nat.pred i)) with (Z.of_nat i - 1)%Z by lia. done.
  - intros Payload cfg op Hop. unfold execute.
    destruct (max_retries cfg) as [|left]; [done|].
    rewrite execute_from_backoffs by done.
    rewrite Nat.sub_succ, Nat.sub_0_r, <- seq_shift, List.map_map. done.
  - vm_compute. reflexivity.
Qed.

Lemma backoff_schedule_witness :
  backoff_delay example_retry 4 ==
  Qmin (retry_base_delay example_retry * 2 ^ (Z.of_nat 4 - 1))
       (retry_max_delay example_retry).
Proof. apply (proj1 backoff_schedule example_retry 4%nat). lia. Defined.

(** A loaded configuration always carries the default retry settings:
    [_load_from_env] does not read them from the environment. *)
Lemma loaded_retry_settings py_int py_float st c st' :
  _load_from_env py_int py_float st = (Some c, st') →
  retry_config_of c =
  {| max_retries := 3; retry_base_delay := 1; retry_max_delay := 30 |}.
Proof.
  unfold _load_from_env. intros H.
  repeat match type of H with
         | context [mbind _ ?x] => destruct x; simpl in H; [|discriminate]
         end.
  by injection H as <- _.
Qed.

End RetryFacts.

Section LimiterFacts.

Import Strategy.
Local Open Scope Q_scope.

Lemma in_window_iff (now t : Q) : in_window now t = true ↔ now - 60 < t.
Proof. unfold in_window, window_seconds. apply Qltb_true. Qed.

Lemma in_window_mono (now now' t : Q) :
  now <= now' → in_window now' t = true → in_window now t = true.
Proof. rewrite !in_window_iff. intros. lra. Qed.

Lemma window_window (now now' : Q) (calls : list Q) :
  now <= now' →
  window now' (window now calls) = window now' calls.
Proof.
  intros Hle. unfold window. induction calls as [|t calls IH]; [done|].
  simpl. destruct (in_window now t) eqn:E; simpl.
  - by rewrite IH.
  - destruct (in_window now' t) eqn:E'; [|done].
    apply (in_window_mono now) in E'; [congruence|done].
Qed.

Lemma earliest_None (calls : list Q) : earliest calls = None → calls = [].
Proof.
  destruct calls as [|t calls]; [done|]. simpl. by destruct (earliest calls).
Qed.

Lemma earliest_in (calls : list Q) t0 :
  earliest calls = Some t0 → In t0 calls ∧ Forall (λ t, t0 <= t) calls.
Proof.
  revert t0. induction calls as [|t calls IH]; intros t0; [done|]. simpl.
  destruct (earliest calls) as [t1|] eqn:E.
  - destruct (IH t1 eq_refl) as [Hin Hall].
    destruct (Qle_bool t t1) eqn:Hle; intros [= <-].
    + apply Qle_bool_iff in Hle. split; [by left|]. constructor; [lra|].
      eapply Forall_impl; [exact Hall|]. simpl. intros. lra.
    + assert (t1 < t).
      { apply Qnot_le_lt. intros H. apply Qle_bool_iff in H. congruence. }
      split; [by right|]. constructor; [lra|done].
  - intros [= <-]. split; [by left|]. apply earliest_None in E as ->.
    constructor; [lra|constructor].
Qed.

(** The time [slot_time] returns is not before the arrival and finds the
    window below the ceiling. *)
Lemma slot_time_free fuel c calls now t :
  slot_time fuel c calls now = Some t →
  now <= t ∧ (length (window t calls) < c)%nat.
Proof.
  revert now. induction fuel as [|fuel IH]; intros now; simpl.
  - destruct (length (window now calls) <? c)%nat eqn:E; [|done].
    intros [= <-]. apply Nat.ltb_lt in E. split; [lra|done].
  - destruct (length (window now calls) <? c)%nat eqn:E.
    + intros [= <-]. apply Nat.ltb_lt in E. split; [lra|done].
    + destruct (earliest (window now calls)) as [t0|] eqn:E0; [|done].
      intros H. apply IH in H as [Hle Hlt]. split; [|done].
      apply earliest_in in E0 as [Hin _].
      apply List.filter_In in Hin as [_ Hin]. apply in_window_iff in Hin.
      unfold window_seconds in Hle. lra.
Qed.

(** A full window makes the caller wait until its earliest call has aged
    out. *)
Lemma slot_time_waits fuel c calls now t t0 :
  (c <= length (window now calls))%nat →
  earliest (window now calls) = Some t0 →
  slot_time fuel c calls now = Some t →
  t0 + 60 <= t.
Proof.
  intros Hfull E0. apply Nat.ltb_ge in Hfull.
  destruct fuel as [|fuel]; simpl; rewrite Hfull; [done|].
  rewrite E0. intros H. apply slot_time_free in H as [H _]. exact H.
Qed.

(** Waiting for the earliest call of a window frees at least its slot. *)
Lemma window_shrinks (now t0 : Q) (calls : list Q) :
  In t0 (window now calls) →
  (length (window (t0 + 60) calls) < length (window now calls))%nat.
Proof.
  unfold window. intros Hin.
  apply List.filter_In in Hin as [Hin Hw]. apply in_window_iff in Hw.
  induction calls as [|t calls IH]; [done|]. simpl.
  assert (Hle : ∀ l, (length (List.filter (in_window (t0 + 60)) l)
                      <= length (List.filter (in_window now) l))%nat).
  { clear -Hw. induction l as [|x l IHl]; [done|]. simpl.
    destruct (in_window (t0 + 60) x) eqn:E.
    - rewrite (in_window_mono now (t0 + 60) x); [simpl; lia|lra|done].
    - destruct (in_window now x); simpl; lia. }
  destruct Hin as [->|Hin].
  - assert (E : in_window (t0 + 60) t0 = false).
    { destruct (in_window (t0 + 60) t0) eqn:E; [|done].
      apply in_window_iff in E. lra. }
    rewrite E. rewrite (proj2 (in_window_iff now t0)) by done. simpl.
    specialize (Hle calls). lia.
  - specialize (IH Hin).
    destruct (in_window (t0 + 60) t) eqn:E.
    + rewrite (in_window_mono now (t0 + 60) t); [simpl; lia|lra|done].
    + destruct (in_window now t); simpl; lia.
Qed.

(** With a ceiling of at least one call, a slot is always found. *)
Lemma slot_time_total c calls :
  (1 <= c)%nat →
  ∀ fuel now,
    (length (window now calls) < fuel)%nat →
    ∃ t, slot_time fuel c calls now = Some t.
Proof.
  intros Hc. induction fuel as [|fuel IH]; intros now Hlt; [lia|]. simpl.
  destruct (length (window now calls) <? c)%nat eqn:E; [eauto|].
  apply Nat.ltb_ge in E.
  destruct (earliest (window now calls)) as [t0|] eqn:E0.
  - apply IH. apply earliest_in in E0 as [Hin _].
    apply window_shrinks in Hin. unfold window_seconds. lia.
  - apply earliest_None in E0. rewrite E0 in E. simpl in E. lia.
Qed.

Lemma window_length (now : Q) (calls : list Q) :
  (length (window now calls) <= length calls)%nat.
Proof. apply List.filter_length_le. Qed.

Lemma acquire_total lim provider u now (st : limiter_state) :
  (1 <= ceiling lim)%nat →
  ∃ t st', acquire lim provider u now st = Some (t, st').
Proof.
  intros Hc. unfold acquire.
  destruct (slot_time_total (ceiling lim) (calls_of st provider) Hc
              (S (length (calls_of st provider))) now) as [t ->]; [|eauto].
  pose proof (window_length now (calls_of st provider)). lia.
Qed.

Lemma times_of_app p (H H' : list (string * Q)) :
  times_of p (H ++ H') = times_of p H ++ times_of p H'.
Proof. unfold times_of. by rewrite List.filter_app, List.map_app. Qed.

Lemma times_of_one p q (t : Q) :
  times_of q [(p, t)] = if decide (p = q) then [t] else [].
Proof.
  unfold times_of. simpl. destruct (decide (p = q)).
  - by rewrite bool_decide_eq_true_2.
  - by rewrite bool_decide_eq_false_2.
Qed.

Lemma granted_in_app p s (H H' : list (string * Q)) :
  granted_in p s (H ++ H') = (granted_in p s H + granted_in p s H')%nat.
Proof. unfold granted_in. by rewrite List.filter_app, length_app. Qed.

Lemma window_app now (l l' : list Q) :
  window now (l ++ l') = window now l ++ window now l'.
Proof. apply List.filter_app. Qed.

(** Calls granted inside [[s, s + 60)] are inside the quota window of any
    time [ts] with [ts - 60 < s]. *)
Lemma granted_le_window p s ts (H : list (string * Q)) :
  ts - 60 < s →
  (granted_in p s H <= length (window ts (times_of p H)))%nat.
Proof.
  intros Hs. unfold granted_in, times_of, window.
  induction H as [|[q t] H IH]; [done|]. simpl.
  destruct (bool_decide (q = p)); simpl; [|done].
  destruct (Qle_bool s t) eqn:E; simpl.
  - apply Qle_bool_iff in E.
    rewrite (proj2 (in_window_iff ts t)) by lra.
    destruct (Qltb t (s + window_seconds)); simpl; lia.
  - destruct (in_window ts t); simpl; lia.
Qed.

Lemma calls_of_insert (st : limiter_state) p q l :
  calls_of (<[p := l]> st) q = if decide (p = q) then l else calls_of st q.
Proof.
  unfold calls_of. rewrite lookup_insert. by destruct (decide (p = q)).
Qed.

(** One admission keeps the invariant. *)
Lemma acquire_keeps_inv limits H (st : limiter_state) clock a t' st' :
  limiter_inv limits H st clock →
  well_timed limits a →
  acquire (limits (to_provider a)) (to_provider a) (sample a)
    (clock + gap a) st = Some (t', st') →
  clock <= t' ∧
  limiter_inv limits (H ++ [(to_provider a, t')]) st' t'.
Proof.
  intros [Hst Hq] [Hgap Hjit]. unfold acquire.
  set (p := to_provider a) in *.
  destruct (slot_time _ _ _ _) as [ts|] eqn:Es; [|done].
  intros [= <- <-].
  apply slot_time_free in Es as [Hle Hfree].
  destruct (Hst p) as (tp & Htp & Hcalls).
  rewrite Hcalls, window_window in Hfree by lra.
  split; [lra|]. split.
  - intros q. rewrite calls_of_insert, times_of_app, times_of_one.
    destruct (decide (p = q)) as [<-|Hne].
    + exists ts. split; [lra|].
      rewrite Hcalls, window_window, window_app by lra. f_equal.
      unfold window. simpl. rewrite (proj2 (in_window_iff ts _)); [done|lra].
    + destruct (Hst q) as (tq & Htq & Hq').
      exists tq. split; [lra|]. by rewrite Hq', app_nil_r.
  - intros q s. rewrite granted_in_app.
    unfold granted_in at 2. simpl.
    destruct (bool_decide (p = q)) eqn:Epq; simpl; [|rewrite Nat.add_0_r; apply Hq].
    apply bool_decide_eq_true_1 in Epq as <-.
    destruct (Qle_bool s _) eqn:E1; simpl; [|rewrite Nat.add_0_r; apply Hq].
    destruct (Qltb _ (s + window_seconds)) eqn:E2; simpl;
      [|rewrite Nat.add_0_r; apply Hq].
    apply Qltb_true in E2. unfold window_seconds in E2.
    pose proof (granted_le_window p s ts H ltac:(lra)). lia.
Qed.

Lemma simulate_keeps_quota limits arrivals :
  Forall (well_timed limits) arrivals →
  ∀ H (st : limiter_state) clock,
    limiter_inv limits H st clock →
    ∀ p s, (granted_in p s (H ++ simulate limits arrivals clock st)
            <= ceiling (limits p))%nat.
Proof.
  induction 1 as [|a arrivals Ha _ IH]; intros H st clock Hinv p s.
  - simpl. rewrite app_nil_r. apply Hinv.
  - simpl.
    destruct (acquire _ _ _ _ st) as [[t' st']|] eqn:E.
    + destruct (acquire_keeps_inv limits H st clock a t' st' Hinv Ha E)
        as [_ Hinv'].
      rewrite (cons_middle _ H), app_assoc. by apply IH.
    + rewrite app_nil_r. apply Hinv.
Qed.

Lemma limiter_inv_init limits clock : limiter_inv limits [] ∅ clock.
Proof.
  split.
  - intros p. exists clock. split; [lra|]. done.
  - intros p s. unfold granted_in. simpl. lia.
Qed.

(** C2. For every provider and every window of 60 seconds, the calls the
    limiter grants to the provider within the window never exceed its
    ceiling, whatever the arrivals and jitter delays; a caller that finds
    the window full is neither refused nor granted then: with a ceiling of
    at least one call it is granted, at a time when the earliest call of
    that window has aged out; the ceiling of the Tushare provider under a
    loaded configuration is 80. *)
Theorem quota_never_exceeded :
  (∀ limits arrivals clock provider s,
     Forall (well_timed limits) arrivals →
     (granted_in provider s (simulate limits arrivals clock ∅)
      <= ceiling (limits provider))%nat) ∧
  (∀ lim provider u now (st : limiter_state),
     (1 <= ceiling lim)%nat →
     ∃ t st',
       acquire lim provider u now st = Some (t + jitter_delay lim u, st') ∧
       now <= t ∧
       (length (window t (calls_of st provider)) < ceiling lim)%nat ∧
       ∀ t0,
         (ceiling lim <= length (window now (calls_of st provider)))%nat →
         earliest (window now (calls_of st provider)) = Some t0 →
         t0 + 60 <= t) ∧
  (∀ py_int py_float st c st',
     _load_from_env py_int py_float st = (Some c, st') →
     ceiling (tushare_limits c) = 80%nat).
Proof.
  split; [|split].
  - intros limits arrivals clock provider s Hw.
    apply (simulate_keeps_quota limits arrivals Hw [] ∅ clock).
    apply limiter_inv_init.
  - intros lim provider u now st Hc. unfold acquire.
    destruct (slot_time_total (ceiling lim) (calls_of st provider) Hc
                (S (length (calls_of st provider))) now) as [t Et].
    { pose proof (window_length now (calls_of st provider)). lia. }
    rewrite Et. eexists _, _. split; [done|].
    destruct (slot_time_free _ _ _ _ _ Et) as [Hle Hfree].
    split; [done|]. split; [done|].
    intros t0 Hfull E0. by eapply slot_time_waits.
  - intros py_int py_float st c st' H. unfold _load_from_env in H.
    repeat match type of H with
           | context [mbind _ ?x] => destruct x; simpl in H; [|discriminate]
           end.
    by injection H as <- _.
Qed.

Example third_caller_waits :
  simulate two_per_minute three_arrivals 0 ∅
  = [("tushare", 0); ("tushare", 0); ("tushare", 60)].
Proof. vm_compute. reflexivity. Qed.

Lemma quota_never_exceeded_witness :
  (granted_in "tushare" 0 (simulate two_per_minute three_arrivals 0 ∅)
   <= ceiling (two_per_minute "tushare"))%nat.
Proof.
  apply (proj1 quota_never_exceeded two_per_minute three_arrivals 0
           "tushare" 0).
  unfold three_arrivals.
  repeat (apply List.Forall_cons; [split; cbv; discriminate|]).
  apply List.Forall_nil.
Defined.

End LimiterFacts.

Section ManagerFacts.

Import Strategy.
Local Open Scope nat_scope.

Context {Payload : Type}.
Implicit Types (p q : ProviderClient Payload) (m : FetcherManager Payload).

Lemma insert_by_rank_perm p (l : list (ProviderClient Payload)) :
  Permutation (insert_by_rank p l) (p :: l).
Proof.
  induction l as [|q l IH]; [done|]. simpl.
  destruct (rank p <=? rank q); [done|].
  rewrite IH. apply perm_swap.
Qed.

Lemma insert_by_rank_sorted p (l : list (ProviderClient Payload)) :
  StronglySorted by_rank l → StronglySorted by_rank (insert_by_rank p l).
Proof.
  induction 1 as [|q l Hl IH Hq]; simpl.
  - repeat constructor.
  - destruct (rank p <=? rank q) eqn:E.
    + apply Nat.leb_le in E. constructor; [by constructor|].
      constructor; [done|].
      eapply List.Forall_impl; [|exact Hq]. unfold by_rank. simpl. lia.
    + apply Nat.leb_gt in E. constructor; [done|].
      rewrite insert_by_rank_perm. constructor; [|done].
      unfold by_rank. lia.
Qed.

Lemma insert_by_rank_stable k p (l : list (ProviderClient Payload)) :
  List.filter (λ q, rank q =? k) (insert_by_rank p l)
  = List.filter (λ q, rank q =? k) (p :: l).
Proof.
  induction l as [|q l IH]; [done|]. simpl in *.
  destruct (rank p <=? rank q) eqn:E; [done|].
  apply Nat.leb_gt in E. simpl. rewrite IH.
  destruct (rank p =? k) eqn:Ep, (rank q =? k) eqn:Eq; try done.
  apply Nat.eqb_eq in Ep, Eq. lia.
Qed.

Lemma sort_by_rank_sorted (l : list (ProviderClient Payload)) :
  StronglySorted by_rank (sort_by_rank l).
Proof.
  induction l as [|p l IH]; simpl; [constructor|].
  by apply insert_by_rank_sorted.
Qed.

Lemma sort_by_rank_stable k (l : list (ProviderClient Payload)) :
  List.filter (λ q, rank q =? k) (sort_by_rank l)
  = List.filter (λ q, rank q =? k) l.
Proof.
  induction l as [|p l IH]; [done|].
  change (sort_by_rank (p :: l)) with (insert_by_rank p (sort_by_rank l)).
  rewrite insert_by_rank_stable. simpl. by rewrite IH.
Qed.

Lemma sort_by_rank_perm (l : list (ProviderClient Payload)) :
  Permutation (sort_by_rank l) l.
Proof.
  induction l as [|p l IH]; [done|].
  change (sort_by_rank (p :: l)) with (insert_by_rank p (sort_by_rank l)).
  by rewrite insert_by_rank_perm, IH.
Qed.

Lemma tried_providers_app (evs evs' : list event) :
  tried_providers (evs ++ evs') = tried_providers evs ++ tried_providers evs'.
Proof.
  induction evs as [|e evs IH]; [done|]. destruct e; simpl; by rewrite ?IH.
Qed.

Lemma tried_providers_tag who (evs : list retry_event) :
  tried_providers (List.map (tag who) evs) = [].
Proof. induction evs as [|e evs IH]; [done|]. by destruct e. Qed.

(** The terminal failure carries the error of the last attempt made. *)
Lemma execute_from_failed cfg (op : nat → attempt Payload) :
  ∀ left i d err k evs,
    execute_from cfg left i d op = (Failed (Some err) k, evs) →
    i <= k < i + left ∧ (op k = Transient err ∨ op k = Permanent err).
Proof.
  induction left as [|left IH]; intros i d err k evs; [done|].
  change (execute_from cfg (S left) i d op)
    with (match op i with
          | Success p => (Succeeded p i, [Tried i])
          | Permanent e => (Failed (Some e) i, [Tried i])
          | Transient e =>
              match left with
              | O => (Failed (Some e) i, [Tried i])
              | S _ =>
                  let '(t, evs) := execute_from cfg left (S i) (d * 2)%Q op in
                  (t, Tried i :: Backoff (Qmin d (retry_max_delay cfg)) :: evs)
              end
          end).
  destruct (op i) as [x|e|e] eqn:Eo; [done| |].
  - destruct left as [|left'].
    + intros [= <- <- _]. split; [lia|]. by left.
    + destruct (execute_from cfg (S left') (S i) (d * 2)%Q op)
        as [t evs'] eqn:Ee.
      intros [= -> _]. apply IH in Ee as [Hk Ho]. split; [lia|done].
  - intros [= <- <- _]. split; [lia|]. by right.
Qed.

(** A walk in which the providers before [p] fail and [p] succeeds stops at
    [p]. *)
Lemma walk_success m request pre p post x n :
  Forall has_quota (pre ++ [p]) →
  Forall (fails m request) pre →
  terminal_of m request p = Succeeded x n →
  ∀ failures w,
    ∃ r w',
      walk m request (pre ++ p :: post) failures w = Some (Fetched r, w') ∧
      provider r = who p ∧ payload r = x ∧ fetched_at r = clock w' ∧
      tried_providers (events w') =
        tried_providers (events w) ++ List.map who (pre ++ [p]).
Proof.
  intros Hq Hf Hp. induction pre as [|q pre IH]; intros failures w.
  - simpl. apply List.Forall_inv in Hq.
    destruct (acquire_total (limits p) (name (identity p))
                (hd 0%Q (samples w)) (clock w) (limiter w) Hq)
      as (t & lim' & ->).
    unfold terminal_of in Hp.
    destruct (execute (retry m) (fetch p request)) as [out evs].
    simpl in Hp. subst out. eexists _, _. split; [done|]. simpl.
    repeat split.
    rewrite tried_providers_app. simpl. by rewrite tried_providers_tag.
  - simpl. inversion Hq as [|? ? Hq1 Hq2]; subst.
    inversion Hf as [|? ? (err & k & Hf1) Hf2]; subst.
    destruct (acquire_total (limits q) (name (identity q))
                (hd 0%Q (samples w)) (clock w) (limiter w) Hq1)
      as (t & lim' & ->).
    unfold terminal_of in Hf1.
    destruct (execute (retry m) (fetch q request)) as [out evs].
    simpl in Hf1. subst out.
    match goal with |- context [walk m request _ ?f ?w0] =>
      destruct (IH Hq2 Hf2 f w0) as (r & w' & Hw & Hr1 & Hr2 & Hr3 & Ht)
    end.
    exists r, w'. split; [exact Hw|]. repeat (split; [done|]).
    rewrite Ht. simpl. rewrite tried_providers_app. simpl.
    by rewrite tried_providers_tag, <- app_assoc.
Qed.

(** A walk in which every provider fails reports them all, in order. *)
Lemma walk_exhausted m request ps :
  Forall has_quota ps →
  Forall (fails m request) ps →
  ∀ failures w,
    ∃ w' entries,
      walk m request ps failures w = Some (Exhausted (failures ++ entries), w') ∧
      Forall2 (λ p entry,
                 failed_provider entry = who p ∧
                 terminal_of m request p =
                   Failed (reason entry) (attempts_made entry))
        ps entries ∧
      tried_providers (events w') =
        tried_providers (events w) ++ List.map who ps.
Proof.
  intros Hq Hf. induction ps as [|q ps IH]; intros failures w.
  - exists w, []. simpl. rewrite !app_nil_r. repeat split. constructor.
  - simpl. inversion Hq as [|? ? Hq1 Hq2]; subst.
    inversion Hf as [|? ? (err & k & Hf1) Hf2]; subst.
    destruct (acquire_total (limits q) (name (identity q))
                (hd 0%Q (samples w)) (clock w) (limiter w) Hq1)
      as (t & lim' & ->).
    pose proof Hf1 as Hf1'. unfold terminal_of in Hf1.
    destruct (execute (retry m) (fetch q request)) as [out evs].
    simpl in Hf1. subst out.
    match goal with |- context [walk m request _ ?f ?w0] =>
      destruct (IH Hq2 Hf2 f w0) as (w' & entries & Hw & HF & Ht)
    end.
    eexists w', (_ :: entries). split.
    + rewrite Hw. by rewrite <- app_assoc.
    + split; [by constructor|].
      rewrite Ht. simpl. rewrite tried_providers_app. simpl.
      by rewrite tried_providers_tag, <- app_assoc.
Qed.

Lemma manager_fetch_walk m request w :
  resolve m (capability request) ≠ [] →
  manager_fetch m request w
  = walk m request (resolve m (capability request)) [] w.
Proof. unfold manager_fetch. by destruct (resolve _ _). Qed.

(** C1. The providers of a capability are tried in one fixed order, by
    ascending priority rank and, within a rank, in registration order; the
    walk returns the result of the first provider that succeeds and tries
    none after it, so the providers tried are the failed ones before it and
    itself. With A (1), B (2), C (2) registered in this order and only C
    succeeding, the attempts go A, B, C and the result is C's. The providers
    tried have a quota ceiling of at least one call, without which
    [acquire] never returns. *)
Theorem failover_order m request :
  let ps := resolve m (capability request) in
  StronglySorted by_rank ps ∧
  (∀ k, List.filter (λ p, rank p =? k) ps
        = List.filter (λ p, rank p =? k)
            (List.filter (λ p, supports p (capability request))
               (registered m))) ∧
  (∀ pre p post x n w,
     ps = pre ++ p :: post →
     Forall has_quota (pre ++ [p]) →
     Forall (fails m request) pre →
     terminal_of m request p = Succeeded x n →
     ∃ r w',
       manager_fetch m request w = Some (Fetched r, w') ∧
       provider r = who p ∧ payload r = x ∧ fetched_at r = clock w' ∧
       tried_providers (events w') =
         tried_providers (events w) ++ List.map who (pre ++ [p])) ∧
  (∀ A B C x n w,
     registered m = [A; B; C] →
     rank A = 1 → rank B = 2 → rank C = 2 →
     Forall (λ p, supports p (capability request) = true) [A; B; C] →
     Forall has_quota [A; B; C] →
     fails m request A → fails m request B →
     terminal_of m request C = Succeeded x n →
     ∃ r w',
       manager_fetch m request w = Some (Fetched r, w') ∧
       provider r = who C ∧ payload r = x ∧
       tried_providers (events w') =
         tried_providers (events w) ++ [who A; who B; who C]).
Proof.
  intros ps.
  assert (Hwalk : ∀ pre p post x n w,
     ps = pre ++ p :: post →
     Forall has_quota (pre ++ [p]) →
     Forall (fails m request) pre →
     terminal_of m request p = Succeeded x n →
     ∃ r w',
       manager_fetch m request w = Some (Fetched r, w') ∧
       provider r = who p ∧ payload r = x ∧ fetched_at r = clock w' ∧
       tried_providers (events w') =
         tried_providers (events w) ++ List.map who (pre ++ [p])).
  { intros pre p post x n w Hps Hq Hf Hp.
    rewrite manager_fetch_walk; fold ps; rewrite Hps; [|by destruct pre].
    by eapply walk_success. }
  split; [apply sort_by_rank_sorted|].
  split; [intros k; apply sort_by_rank_stable|].
  split; [exact Hwalk|].
  intros A B C x n w Hreg HA HB HC Hsup Hq HfA HfB HsC.
  assert (Hps : ps = [A; B] ++ C :: []).
  { subst ps. unfold resolve. rewrite Hreg.
    inversion Hsup as [|? ? SA Hsup1]; subst.
    inversion Hsup1 as [|? ? SB Hsup2]; subst.
    inversion Hsup2 as [|? ? SC _]; subst.
    simpl. rewrite SA, SB, SC. simpl. rewrite HB, HC. simpl.
    by rewrite HA, HB. }
  destruct (Hwalk [A; B] C [] x n w Hps) as (r & w' & H1 & H2 & H3 & _ & H5);
    try done.
  - by repeat constructor.
  - exists r, w'. by rewrite H5.
Qed.

(** C4. When every provider of the capability fails for good, the manager
    returns one aggregated failure: one entry per provider tried, in the
    order tried, each holding that provider's terminal failure, namely the
    error of its last attempt and the number of attempts; nothing else of
    the attempts is in the result. The capability has at least one provider
    and every provider a quota ceiling of at least one call. *)
Theorem exhaustion_report m request w :
  let ps := resolve m (capability request) in
  ps ≠ [] →
  Forall has_quota ps →
  Forall (fails m request) ps →
  ∃ w' entries,
    manager_fetch m request w = Some (Exhausted entries, w') ∧
    Forall2 (λ p entry,
               failed_provider entry = who p ∧
               terminal_of m request p =
                 Failed (reason entry) (attempts_made entry) ∧
               ∀ err, reason entry = Some err →
                 fetch p request (attempts_made entry) = Transient err ∨
                 fetch p request (attempts_made entry) = Permanent err)
      ps entries ∧
    tried_providers (events w') =
      tried_providers (events w) ++ List.map who ps.
Proof.
  intros ps Hne Hq Hf.
  rewrite manager_fetch_walk by done. fold ps.
  destruct (walk_exhausted m request ps Hq Hf [] w)
    as (w' & entries & Hw & HF & Ht).
  exists w', entries. split; [exact Hw|]. split; [|exact Ht].
  eapply Forall2_impl; [exact HF|]. simpl.
  intros p entry [Hn Hterm]. split; [done|]. split; [done|].
  intros err Herr. rewrite Herr in Hterm. unfold terminal_of in Hterm.
  unfold execute in Hterm.
  destruct (execute_from _ _ _ _ _) as [out evs] eqn:E. simpl in Hterm.
  subst out. by apply execute_from_failed in E as [_ E].
Qed.

End ManagerFacts.

Section ManagerExamples.

Import Strategy.

Example all_fail_report :
  fst <$> manager_fetch (demo_manager [client_A; client_B; client_D])
            demo_request demo_world
  = Some (Exhausted
            [ {| failed_provider := "A"; reason := Some "timeout";
                 attempts_made := 5 |};
              {| failed_provider := "B"; reason := Some "HTTP 401";
                 attempts_made := 1 |};
              {| failed_provider := "D"; reason := Some "HTTP 503";
                 attempts_made := 5 |} ]).
Proof. vm_compute. reflexivity. Qed.

Example no_provider :
  fst <$> manager_fetch (demo_manager []) demo_request demo_world
  = Some NoProviderAvailable.
Proof. reflexivity. Qed.

Example registration_order_breaks_ties :
  List.map who
    (resolve (demo_manager [client_C; client_B; client_A]) DailyBars)
  = ["A"; "C"; "B"].
Proof. reflexivity. Qed.

Lemma failover_order_witness :
  ∃ r w',
    manager_fetch (demo_manager [client_A; client_B; client_C])
      demo_request demo_world = Some (Fetched r, w') ∧
    provider r = "C" ∧ payload r = "bars of C" ∧
    tried_providers (events w') = ["A"; "B"; "C"].
Proof.
  destruct (failover_order (demo_manager [client_A; client_B; client_C])
              demo_request) as (_ & _ & _ & H).
  apply (H client_A client_B client_C "bars of C" 1%nat demo_world);
    try reflexivity.
  - repeat (apply List.Forall_cons; [reflexivity|]). apply List.Forall_nil.
  - repeat (apply List.Forall_cons; [cbv; lia|]). apply List.Forall_nil.
  - exists (Some "timeout"), 5%nat. vm_compute. reflexivity.
  - exists (Some "HTTP 401"), 1%nat. vm_compute. reflexivity.
Defined.

Lemma exhaustion_report_witness :
  ∃ w' entries,
    manager_fetch (demo_manager [client_A; client_B; client_D])
      demo_request demo_world = Some (Exhausted entries, w') ∧
    tried_providers (events w') = ["A"; "B"; "D"].
Proof.
  destruct (exhaustion_report (demo_manager [client_A; client_B; client_D])
              demo_request demo_world)
    as (w' & entries & E & _ & T).
  - discriminate.
  - repeat (apply List.Forall_cons; [cbv; lia|]). apply List.Forall_nil.
  - apply List.Forall_cons;
      [exists (Some "timeout"), 5%nat; vm_compute; reflexivity|].
    apply List.Forall_cons;
      [exists (Some "HTTP 401"), 1%nat; vm_compute; reflexivity|].
    apply List.Forall_cons;
      [exists (Some "HTTP 503"), 5%nat; vm_compute; reflexivity|].
    apply List.Forall_nil.
  - exists w', entries. split; [exact E|exact T].
Defined.

End ManagerExamples.

(** * Further properties of the code *)

(** ** config.py *)

Section ConfigExtras.

Variable py_int : string → option Z.
Variable py_float : string → option Q.

Lemma load_inv st c st' :
  _load_from_env py_int py_float st = (Some c, st') →
  st' = load_dotenv st ∧
  stock_list c ≠ [] ∧
  akshare_sleep_min c = 2%Q ∧ akshare_sleep_max c = 5%Q ∧
  tushare_rate_limit_per_minute c = 80 ∧
  max_retries c = 3 ∧ retry_base_delay c = 1%Q ∧ retry_max_delay c = 30%Q.
Proof.
  intros H. pose proof (load_stock_list _ _ _ _ _ H) as Hs.
  unfold _load_from_env in H.
  repeat match type of H with
         | context [mbind _ ?x] => destruct x; simpl in H; [|discriminate]
         end.
  injection H as <- <-. split; [done|]. split; [|done].
  simpl in *. rewrite Hs. by destruct (csv_entries _).
Qed.

(** X1. The rate-limit and retry settings cannot be set from the
    environment: whatever [os.environ] and [.env] hold, a configuration
    that loads has the dataclass defaults for the AkShare sleep range, the
    Tushare quota and the three retry settings. *)
Theorem loaded_limits_are_defaults st c st' :
  _load_from_env py_int py_float st = (Some c, st') →
  akshare_sleep_min c = 2%Q ∧ akshare_sleep_max c = 5%Q ∧
  tushare_rate_limit_per_minute c = 80 ∧
  max_retries c = 3 ∧ retry_base_delay c = 1%Q ∧ retry_max_delay c = 30%Q.
Proof. intros H. by apply load_inv in H as (_ & _ & H). Qed.

Lemma validate_length (c : Config) :
  (length (validate c) <= 5)%nat ∧
  (stock_list c ≠ [] →
   (length (validate c) <= 4)%nat ∧
   ("Warning: STOCK_LIST not configured" ∉ validate c)).
Proof.
  unfold validate.
  destruct (stock_list c) as [|e es];
    destruct (Py.truthy_opt (tushare_token c));
    destruct (Py.truthy_opt (gemini_api_key c));
    destruct (Py.truthy_opt (openai_api_key c));
    destruct (tavily_api_keys c) as [|? ?];
    destruct (serpapi_keys c) as [|? ?];
    destruct (_ || _ || _ || _); simpl;
    (split; [lia|]); intros Hne; try done;
    (split; [lia|]); rewrite ?list_elem_of_In; simpl;
    intros Hin; repeat destruct Hin as [Hin|Hin]; try discriminate; done.
Qed.

(** X2. [validate] never reports a missing watchlist for a configuration
    that was loaded, nor after [refresh_stock_list]: both leave the list
    non-empty, so at most four of the five warnings can appear. *)
Theorem validate_after_load st c st' self st2 c2 :
  _load_from_env py_int py_float st = (Some c, st') →
  heap st2 !! self = Some c2 →
  ("Warning: STOCK_LIST not configured" ∉ validate c) ∧
  (length (validate c) <= 4)%nat ∧
  ∃ c3, heap (refresh_stock_list self st2) !! self = Some c3 ∧
        ("Warning: STOCK_LIST not configured" ∉ validate c3) ∧
        (length (validate c3) <= 4)%nat.
Proof.
  intros Hl Hh. apply load_inv in Hl as (_ & Hne & _).
  destruct (proj2 (validate_length c) Hne) as [H4 Hnot].
  split; [done|]. split; [done|].
  eexists. split; [by apply refresh_lookup|].
  assert (Hne3 : stock_list (set_stock_list (refreshed_stock_list st2) c2) ≠ []).
  { simpl. unfold refreshed_stock_list. by destruct (csv_entries _). }
  by destruct (proj2 (validate_length _) Hne3).
Qed.

(** X3. The two readings of STOCK_LIST give precedence to different
    sources: with the variable set both in the OS environment and, to a
    non-blank value, in [.env], [_load_from_env] takes the entries of the
    OS value and [refresh_stock_list] the entries of the [.env] value. *)
Theorem stock_list_precedence st c st' d v_os v_env :
  environ st !! "STOCK_LIST" = Some v_os →
  dotenv st = Some d →
  d !! "STOCK_LIST" = Some (Some v_env) →
  Py.strip v_env ≠ "" →
  _load_from_env py_int py_float st = (Some c, st') →
  stock_list c =
    match csv_entries v_os with
    | [] => ["600519"; "000001"; "300750"]
    | e :: es => e :: es
    end ∧
  refreshed_stock_list st' =
    match csv_entries (Py.strip v_env) with
    | [] => ["000001"]
    | e :: es => e :: es
    end.
Proof.
  intros Hos Hd Hv Hne Hl.
  pose proof (load_stock_list _ _ _ _ _ Hl) as Hs.
  apply load_inv in Hl as (-> & _).
  assert (Hg : getenv_default (load_dotenv st) "STOCK_LIST" "" = v_os).
  { unfold getenv_default, load_dotenv. rewrite Hd. simpl.
    by rewrite (lookup_union_Some_l _ _ _ _ Hos). }
  rewrite Hg in Hs. split; [done|].
  unfold refreshed_stock_list, refresh_source.
  assert (Hdot : dotenv (load_dotenv st) = Some d).
  { unfold load_dotenv. by rewrite Hd. }
  rewrite Hdot, Hv.
  assert (Htv : Py.truthy_str v_env = true).
  { destruct v_env; [done|done]. }
  rewrite Htv.
  assert (Hts : Py.truthy_str (Py.strip v_env) = true).
  { by destruct (Py.strip v_env). }
  rewrite Hts. cbv iota. by destruct (csv_entries (Py.strip v_env)).
Qed.

End ConfigExtras.

Lemma loaded_limits_are_defaults_witness :
  ∃ c st', _load_from_env default_int default_float demo_env2 = (Some c, st') ∧
           tushare_rate_limit_per_minute c = 80 ∧ max_retries c = 3.
Proof.
  eexists _, _. split; [vm_compute; reflexivity|].
  destruct (loaded_limits_are_defaults default_int default_float
              demo_env2 _ _ eq_refl) as (_ & _ & H1 & H2 & _).
  split; [exact H1|exact H2].
Defined.

Lemma validate_after_load_witness :
  ∃ c st', _load_from_env default_int default_float demo_env = (Some c, st') ∧
           ("Warning: STOCK_LIST not configured" ∉ validate c).
Proof.
  eexists _, _. split; [vm_compute; reflexivity|].
  pose (st1 := snd (get_instance default_int default_float demo_env)).
  destruct (validate_after_load default_int default_float demo_env _ _
              0%nat st1 _ eq_refl eq_refl) as (H & _).
  exact H.
Defined.

Lemma stock_list_precedence_witness :
  ∃ c st', _load_from_env default_int default_float demo_env2 = (Some c, st') ∧
           stock_list c = ["600519"] ∧
           refreshed_stock_list st' = ["000001"; "300750"].
Proof.
  eexists _, _. split; [vm_compute; reflexivity|].
  eapply (stock_list_precedence default_int default_float demo_env2 _ _ _
            "600519" " 000001,300750 ");
    [reflexivity|reflexivity|reflexivity|discriminate|reflexivity].
Defined.

Lemma split_concat (l : list string) :
  l ≠ [] →
  Forall (λ e, Py.contains "," e = false) l →
  Py.split "," (String.concat "," l) = l.
Proof.
  induction l as [|x l IH]; [done|]. intros _ Hl.
  inversion Hl as [|? ? Hx Hl']; subst.
  destruct l as [|y l].
  - simpl. by apply split_no_sep_id.
  - change (String.concat "," (x :: y :: l))
      with (x +:+ String "," (String.concat "," (y :: l))).
    rewrite split_app_sep by done. f_equal. by apply IH.
Qed.

(** X4. Writing a watchlist as its codes joined by commas and reading it
    back gives the same list, for codes that are non-empty, stripped and
    free of commas. *)
Theorem csv_round_trip (l : list string) :
  Forall (λ e, stripped_nonempty e ∧ Py.contains "," e = false) l →
  csv_entries (String.concat "," l) = l.
Proof.
  intros Hl. destruct l as [|x l]; [done|].
  unfold csv_entries. rewrite split_concat; [|done|].
  2:{ eapply List.Forall_impl; [|exact Hl]. by intros e [_ He]. }
  induction Hl as [|e es [[Hne Hst] _] _ IH]; [done|].
  simpl. rewrite Hst. destruct e; [done|]. simpl. by rewrite IH.
Qed.

Lemma csv_round_trip_witness :
  csv_entries (String.concat "," ["600519"; "000001"]) = ["600519"; "000001"].
Proof.
  apply csv_round_trip.
  repeat (apply List.Forall_cons; [repeat split; discriminate|]).
  apply List.Forall_nil.
Defined.

Lemma key_of_falsy_branch (c : Config) (provider x : string) :
  Py.truthy_opt (key_of c provider) = false →
  bool_decide (provider = x) && Py.truthy_opt (key_of c x) = false.
Proof.
  intros H. destruct (bool_decide_reflect (provider = x)) as [->|]; [|done].
  by rewrite H.
Qed.

(** X5. [get_active_ai_config] returns [None] exactly when none of the five
    API keys is set; a dictionary it returns names one of the five
    providers and carries that provider's own key, which is set. *)
Theorem active_ai_config_has_key (c : Config) :
  (get_active_ai_config c = None ↔
   Forall (λ x, Py.truthy_opt (key_of c x) = false) ai_providers) ∧
  (∀ d, get_active_ai_config c = Some d →
     ∃ x, In x ai_providers ∧ ai_get d "provider" = Some x ∧
          ai_get d "api_key" = key_of c x ∧
          Py.truthy_opt (key_of c x) = true).
Proof.
  unfold get_active_ai_config, ai_providers.
  assert (K1 : key_of c "gemini" = gemini_api_key c) by done.
  assert (K2 : key_of c "openrouter" = openrouter_api_key c) by done.
  assert (K3 : key_of c "deepseek" = deepseek_api_key c) by done.
  assert (K4 : key_of c "dashscope" = dashscope_api_key c) by done.
  assert (K5 : key_of c "openai" = openai_api_key c) by done.
  split.
  - rewrite !List.Forall_cons_iff, Forall_nil, K1, K2, K3, K4, K5.
    destruct (Py.truthy_opt (gemini_api_key c)),
             (Py.truthy_opt (openrouter_api_key c)),
             (Py.truthy_opt (deepseek_api_key c)),
             (Py.truthy_opt (dashscope_api_key c)),
             (Py.truthy_opt (openai_api_key c));
      rewrite ?andb_true_r, ?andb_false_r;
      repeat case_bool_decide; simpl; intuition congruence.
  - intros d.
    destruct (Py.truthy_opt (gemini_api_key c)) eqn:E1,
             (Py.truthy_opt (openrouter_api_key c)) eqn:E2,
             (Py.truthy_opt (deepseek_api_key c)) eqn:E3,
             (Py.truthy_opt (dashscope_api_key c)) eqn:E4,
             (Py.truthy_opt (openai_api_key c)) eqn:E5;
      rewrite ?andb_true_r, ?andb_false_r;
      repeat case_bool_decide; simpl; intros [= <-];
      first
        [ exists "gemini"; rewrite K1; simpl; by eauto 10
        | exists "openrouter"; rewrite K2; simpl; by eauto 10
        | exists "deepseek"; rewrite K3; simpl; by eauto 10
        | exists "dashscope"; rewrite K4; simpl; by eauto 10
        | exists "openai"; rewrite K5; simpl; by eauto 10 ].
Qed.

Lemma active_ai_config_has_key_witness :
  ∃ c, demo_config2 = Some c ∧
       ∃ x, In x ai_providers ∧ Py.truthy_opt (key_of c x) = true.
Proof.
  eexists. split; [vm_compute; reflexivity|].
  match goal with |- ∃ x, In x _ ∧ Py.truthy_opt (key_of ?c x) = true =>
    assert (Hget : ∃ d, get_active_ai_config c = Some d)
      by (eexists; vm_compute; reflexivity);
    destruct Hget as [d Hd];
    destruct (proj2 (active_ai_config_has_key c) d Hd)
      as (x & Hin & _ & _ & Hk)
  end.
  exists x. split; assumption.
Defined.

(** X6. The provider named by [ai_provider] (in any letter case) is used
    whenever its key is set, whatever other keys are set; when the named
    provider has no key, or the name is none of the five, the first
    provider with a key in the order gemini, openrouter, deepseek,
    dashscope, openai is used. *)
Theorem ai_provider_choice (c : Config) :
  (∀ x, In x ai_providers →
        Py.lower (ai_provider c) = x →
        Py.truthy_opt (key_of c x) = true →
        ∃ d, get_active_ai_config c = Some d ∧ ai_get d "provider" = Some x) ∧
  (∀ pre x post,
     ai_providers = pre ++ x :: post →
     Py.truthy_opt (key_of c (Py.lower (ai_provider c))) = false →
     Forall (λ y, Py.truthy_opt (key_of c y) = false) pre →
     Py.truthy_opt (key_of c x) = true →
     ∃ d, get_active_ai_config c = Some d ∧ ai_get d "provider" = Some x).
Proof.
  assert (K1 : key_of c "gemini" = gemini_api_key c) by done.
  assert (K2 : key_of c "openrouter" = openrouter_api_key c) by done.
  assert (K3 : key_of c "deepseek" = deepseek_api_key c) by done.
  assert (K4 : key_of c "dashscope" = dashscope_api_key c) by done.
  assert (K5 : key_of c "openai" = openai_api_key c) by done.
  split.
  - intros x Hx Hl Hk. unfold get_active_ai_config. rewrite Hl.
    simpl in Hx.
    destruct Hx as [<-|[<-|[<-|[<-|[<-|[]]]]]];
      rewrite ?K1, ?K2, ?K3, ?K4, ?K5 in Hk; rewrite Hk;
      repeat first [ rewrite bool_decide_eq_false_2 by discriminate
                   | rewrite bool_decide_eq_true_2 by done ];
      simpl; eauto.
  - intros pre x post Hdec Hman Hpre Hk. unfold get_active_ai_config.
    pose proof (key_of_falsy_branch c _ "gemini" Hman) as M1.
    pose proof (key_of_falsy_branch c _ "openrouter" Hman) as M2.
    pose proof (key_of_falsy_branch c _ "deepseek" Hman) as M3.
    pose proof (key_of_falsy_branch c _ "dashscope" Hman) as M4.
    pose proof (key_of_falsy_branch c _ "openai" Hman) as M5.
    rewrite K1 in M1. rewrite K2 in M2. rewrite K3 in M3.
    rewrite K4 in M4. rewrite K5 in M5.
    rewrite M1, M2, M3, M4, M5. clear M1 M2 M3 M4 M5 Hman.
    unfold ai_providers in Hdec.
    repeat (destruct pre as [|? pre];
            [injection Hdec as <- <-|
             injection Hdec as <- Hdec;
             apply List.Forall_cons_iff in Hpre as [? Hpre]]);
      try (by destruct pre);
      rewrite ?K1, ?K2, ?K3, ?K4, ?K5 in *;
      repeat match goal with
             | H : Py.truthy_opt _ = _ |- _ => rewrite H; clear H
             end; eauto.
Qed.

Lemma ai_provider_choice_witness :
  ∃ c, demo_config2 = Some c ∧
       ∃ d, get_active_ai_config c = Some d ∧
            ai_get d "provider" = Some "deepseek".
Proof.
  eexists. split; [vm_compute; reflexivity|].
  match goal with |- ∃ d, get_active_ai_config ?c = _ ∧ _ =>
    apply (proj1 (ai_provider_choice c) "deepseek")
  end; [vm_compute; tauto|vm_compute; reflexivity|vm_compute; reflexivity].
Defined.

(** ** feishu_url_helper.py *)

Lemma split_head_cons c a (s : string) :
  Py.split_head c (String a s) =
  if decide (a = c) then "" else String a (Py.split_head c s).
Proof.
  unfold Py.split_head. simpl. destruct (decide (a = c)); [done|].
  pose proof (split_nonempty c s). by destruct (Py.split c s).
Qed.

Lemma split_head_no_sep c (s : string) :
  Py.contains c s = false → Py.split_head c s = s.
Proof. intros H. unfold Py.split_head. by rewrite split_no_sep_id. Qed.

Lemma split_head_app_sep c (u q : string) :
  Py.split_head c (u +:+ String c q) = Py.split_head c u.
Proof.
  induction u as [|a u IH].
  - rewrite app_nil_l_str, split_head_cons. by rewrite decide_True.
  - rewrite app_cons_str, !split_head_cons, IH. done.
Qed.

Lemma split_head_app_has c (u x : string) :
  Py.contains c u = true → Py.split_head c (u +:+ x) = Py.split_head c u.
Proof.
  induction u as [|a u IH]; [done|]. simpl.
  rewrite app_cons_str, !split_head_cons.
  destruct (decide (a = c)); [done|]. intros H. by rewrite IH.
Qed.

Lemma split_head_clean c (s : string) :
  Py.contains c (Py.split_head c s) = false.
Proof.
  unfold Py.split_head. pose proof (split_no_sep c s) as H.
  destruct (Py.split c s); [done|]. by inversion H.
Qed.

Lemma searched_text_alt (url : string) :
  searched_text url = Py.rstrip_char "/" (Py.split_head "?" url).
Proof.
  unfold searched_text. destruct (Py.contains "?" url) eqn:E; [done|].
  by rewrite split_head_no_sep.
Qed.

Lemma parse_by_searched_text (u v : string) :
  searched_text u = searched_text v →
  parse_feishu_bitable_url u = parse_feishu_bitable_url v.
Proof.
  unfold parse_feishu_bitable_url. fold (searched_text u) (searched_text v).
  by intros ->.
Qed.

(** X7. The parser looks at nothing from the first ["?"] on and at no
    trailing slash: adding a query string, or slashes, to any URL leaves
    the result as it is. *)
Theorem parse_ignores_tail (url q : string) (n : nat) :
  parse_feishu_bitable_url (url +:+ String "?" q)
  = parse_feishu_bitable_url url ∧
  parse_feishu_bitable_url (url +:+ slashes n)
  = parse_feishu_bitable_url url.
Proof.
  split; apply parse_by_searched_text; rewrite !searched_text_alt.
  - by rewrite split_head_app_sep.
  - destruct (Py.contains "?" url) eqn:E.
    + by rewrite split_head_app_has.
    + rewrite !split_head_no_sep; [|done|].
      * apply rstrip_slashes.
      * by rewrite contains_app, E, contains_slashes.
Qed.

Lemma contains_rstrip c p (s : string) :
  Py.contains c s = false → Py.contains c (Py.rstrip_by p s) = false.
Proof.
  intros H. destruct (rstrip_by_prefix p s) as [r E].
  rewrite E, contains_app in H. by apply orb_false_elim in H as [H _].
Qed.

Lemma searched_text_clean (url : string) :
  Py.contains "?" (searched_text url) = false.
Proof.
  rewrite searched_text_alt. apply contains_rstrip, split_head_clean.
Qed.

(** The tokens the parser returns hold no ["?"]. *)
Lemma parse_sound_query (url a f : string) (t : option string) :
  parse_feishu_bitable_url url = Some (a, t, f) →
  Py.contains "?" a = false ∧
  ∀ tb, t = Some tb → Py.contains "?" tb = false.
Proof.
  unfold parse_feishu_bitable_url. fold (searched_text url).
  pose proof (searched_text_clean url) as Hq.
  destruct (Re.search pattern (searched_text url)) as [caps|] eqn:E1.
  - apply search_inv in E1 as (pre & suf & Eu & Hm).
    apply pattern_inv in Hm as (a' & t' & rest & -> & -> & _).
    intros [= <- <- <-]. rewrite Eu, !contains_app in Hq.
    repeat (apply orb_false_elim in Hq as [? Hq]).
    split; [done|]. by intros tb [= <-].
  - destruct (Re.search pattern2 (searched_text url)) as [caps|] eqn:E2;
      [|done].
    apply search_inv in E2 as (pre & suf & Eu & Hm).
    apply pattern2_inv in Hm as (a' & rest & -> & -> & _).
    intros [= <- <- <-]. rewrite Eu, !contains_app in Hq.
    repeat (apply orb_false_elim in Hq as [? Hq]).
    split; [done|]. done.
Qed.

(** X8. What the parser reads off a URL it reads again off the URL rebuilt
    from it: for a result [(app, tbl, full)] of any URL, the URL
    [https://<host>/base/<app>/~/<tbl>] gives the same result, and for a
    result [(app, None, app)] so does [https://<host>/base/<app>], with or
    without trailing slashes and a query string; the host is free of ["/"]
    and ["?"] and is not ["base"]. *)
Theorem parse_round_trip (url host a f : string) (t : option string) n q :
  parse_feishu_bitable_url url = Some (a, t, f) →
  segment host →
  host ≠ "base" →
  parse_feishu_bitable_url
    (match t with
     | Some tb => table_url host a tb n q
     | None => app_url host a n q
     end)
  = Some (a, t, f).
Proof.
  intros H Hh Hb.
  destruct (parse_sound_query _ _ _ _ H) as [Hqa Hqt].
  apply parse_sound in H as (Ha & Hna & H).
  destruct t as [tb|].
  - destruct H as (Ht & Hnt & -> & _).
    apply parse_table_url;
      [done|done|by split|done|split; [done|by apply Hqt]|by intros [? _]].
  - destruct H as (-> & _).
    apply parse_app_url; [done|done|by split|by intros [? _]].
Qed.

Lemma parse_round_trip_witness :
  parse_feishu_bitable_url (table_url "xxx.feishu.cn" "a" "t" 1 None)
  = Some ("a", Some "t", "a/t").
Proof.
  apply (parse_round_trip "http://h/base/a/~/t/extra?x=1" "xxx.feishu.cn"
           "a" "a/t" (Some "t") 1%nat None);
    [reflexivity|split; reflexivity|discriminate].
Defined.

Lemma rstrip_by_cons_keep p a (s : string) :
  p a = false → Py.rstrip_by p (String a s) = String a (Py.rstrip_by p s).
Proof. intros H. simpl. destruct (Py.rstrip_by p s); by rewrite ?H. Qed.

Lemma rstrip_by_app_r p (s t : string) :
  Py.rstrip_by p t ≠ "" →
  Py.rstrip_by p (s +:+ t) = s +:+ Py.rstrip_by p t.
Proof.
  intros Ht. induction s as [|a s IH]; [done|].
  rewrite !app_cons_str. simpl. rewrite IH.
  destruct (s +:+ Py.rstrip_by p t) eqn:E; [|done].
  destruct s; [|done]. by rewrite app_nil_l_str in E.
Qed.

Lemma rstrip_app_nonempty p (s t : string) :
  Py.rstrip_by p t ≠ "" → Py.rstrip_by p (s +:+ t) ≠ "".
Proof.
  intros H. rewrite rstrip_by_app_r by done.
  destruct s; [by rewrite app_nil_l_str|done].
Qed.

(** X9. The text [generate_env_config] produces: four settings after the
    comment line, the table token being [app_token/table_id] or, without a
    table id, the application token alone; the surrounding blank lines are
    gone, and so is any white space that ends the application secret. *)
Theorem generate_env_config_text (app_token app_id app_secret : string)
    (table_id : option string) :
  generate_env_config app_token table_id app_id app_secret =
  "# 飞书多维表格配置" +:+ nl +:+
  "USE_FEISHU_BITABLE=true" +:+ nl +:+
  "FEISHU_TABLE_TOKEN=" +:+
    (match table_id with
     | Some (String c tid) => app_token +:+ "/" +:+ String c tid
     | _ => app_token
     end) +:+ nl +:+
  "FEISHU_APP_ID_BITABLE=" +:+ app_id +:+ nl +:+
  "FEISHU_APP_SECRET_BITABLE=" +:+ Py.rstrip_by Py.isspace app_secret.
Proof.
  unfold generate_env_config, Py.strip.
  set (token := if Py.truthy_opt table_id then _ else _).
  assert (Etok : token = match table_id with
                         | Some (String c tid) =>
                             app_token +:+ "/" +:+ String c tid
                         | _ => app_token
                         end).
  { subst token. by destruct table_id as [[|c tid]|]. }
  rewrite <- Etok. clear Etok. generalize token. clear. intros token.
  change (Py.lstrip_by Py.isspace (nl +:+ "# 飞书多维表格配置" +:+ ?x))
    with ("# 飞书多维表格配置" +:+ x).
  assert (E : Py.rstrip_by Py.isspace
                ("FEISHU_APP_SECRET_BITABLE=" +:+ app_secret +:+ nl)
              = "FEISHU_APP_SECRET_BITABLE=" +:+
                Py.rstrip_by Py.isspace app_secret).
  { change ("FEISHU_APP_SECRET_BITABLE=" +:+ ?x)
      with ("FEISHU_APP_SECRET_BITABLE" +:+ String "=" x).
    rewrite rstrip_by_app_r.
    - unfold nl. by rewrite rstrip_by_cons_keep, rstrip_by_app_drop.
    - by rewrite rstrip_by_cons_keep. }
  assert (N : Py.rstrip_by Py.isspace
                ("FEISHU_APP_SECRET_BITABLE=" +:+ app_secret +:+ nl) ≠ "").
  { by rewrite E. }
  repeat (rewrite rstrip_by_app_r
            by (repeat first [exact N | apply rstrip_app_nonempty])).
  by rewrite E.
Qed.

Example generate_env_config_ex :
  generate_env_config "appX" (Some "tblY") "cli_1" "s3cret  "
  = "# 飞书多维表格配置" +:+ nl +:+ "USE_FEISHU_BITABLE=true" +:+ nl +:+
    "FEISHU_TABLE_TOKEN=appX/tblY" +:+ nl +:+
    "FEISHU_APP_ID_BITABLE=cli_1" +:+ nl +:+
    "FEISHU_APP_SECRET_BITABLE=s3cret".
Proof. reflexivity. Qed.

(** ** feishu_bitable.py *)

Lemma split_two (a b : string) :
  Py.contains "/" a = false → Py.contains "/" b = false →
  Py.split "/" (a +:+ "/" +:+ b) = [a; b].
Proof.
  intros Ha Hb.
  change (a +:+ "/" +:+ b) with (a +:+ String "/" b).
  by rewrite split_app_sep, split_no_sep_id.
Qed.

Lemma with_table_two {A} (k : string → string → M (list A)) r n a b :
  is_configured r = true →
  table_token r = Some (a +:+ "/" +:+ b) →
  Py.contains "/" a = false → Py.contains "/" b = false →
  with_table k (r, n) = k a b (r, n).
Proof.
  intros Hc Ht Ha Hb. unfold with_table, bind, self. simpl.
  rewrite Hc, Ht. simpl.
  rewrite split_two by done.
  change (a +:+ "/" +:+ b) with (a +:+ String "/" b).
  by rewrite contains_app, orb_true_r.
Qed.

(** X10. The parser's full token is what the reader expects. With the full
    token of a parsed URL as table token of a reader that has its two
    credentials, a result with a table id makes [read_stock_list] read
    exactly that table of that application, and [_parse_table_token] return
    the same pair; a result without table id makes [read_stock_list] return
    the empty list and send nothing. *)
Theorem parsed_token_feeds_reader (url a f : string) (t : option string)
    (r : FeishuBitableReader) (n : Net) (field_name : string) :
  parse_feishu_bitable_url url = Some (a, t, f) →
  Py.truthy_opt (app_id r) = true →
  Py.truthy_opt (app_secret r) = true →
  table_token r = Some f →
  match t with
  | Some tb =>
      read_stock_list field_name (r, n) =
        read_pages (λ items, _extract_stock_codes items field_name) a tb
          (r, n) ∧
      _parse_table_token r = Ok (a, tb)
  | None =>
      read_stock_list field_name (r, n) = (Return [], (r, n)) ∧
      _parse_table_token r = Ok (a, a)
  end.
Proof.
  intros H Hid Hsec Htok.
  apply parse_sound in H as (Ha & Hna & H).
  destruct t as [tb|].
  - destruct H as (Ht & Hnt & -> & _). split.
    + unfold read_stock_list. apply with_table_two; try done.
      unfold is_configured. rewrite Hid, Hsec, Htok. simpl.
      by destruct a.
    + unfold _parse_table_token. rewrite Htok, split_two by done.
      change (a +:+ "/" +:+ tb) with (a +:+ String "/" tb).
      by rewrite contains_app, orb_true_r.
  - destruct H as (-> & _). split.
    + unfold read_stock_list. by eapply with_table_no_slash.
    + unfold _parse_table_token. by rewrite Htok, Hna.
Qed.

Lemma parsed_token_feeds_reader_witness :
  read_stock_list "股票代码" (demo_reader, demo_net) =
  read_pages (λ items, _extract_stock_codes items "股票代码")
    "bascnAAA" "tblBBB" (demo_reader, demo_net).
Proof.
  apply (parsed_token_feeds_reader
           "https://x.feishu.cn/base/bascnAAA/~/tblBBB?view=v"
           "bascnAAA" "bascnAAA/tblBBB" (Some "tblBBB")
           demo_reader demo_net "股票代码"); reflexivity.
Defined.

(** X11. [_parse_table_token] never fails on a reader that has a table
    token: a token with exactly one ["/"] is cut there, and the two parts
    joined by ["/"] give the token back; every other token is returned
    twice, including the tokens with several ["/"] on which
    [read_stock_list] raises [ValueError]. *)
Theorem parse_table_token_total (r : FeishuBitableReader) (token : string) :
  table_token r = Some token →
  ∃ a b,
    _parse_table_token r = Ok (a, b) ∧
    (Py.split "/" token = [a; b] ∧ token = a +:+ "/" +:+ b ∨
     length (Py.split "/" token) ≠ 2%nat ∧ a = token ∧ b = token) ∧
    (∀ n field_name,
       is_configured r = true →
       (2 < length (Py.split "/" token))%nat →
       read_stock_list field_name (r, n)
       = (Raised (PyExn ValueError), (r, n)) ∧
       a = token ∧ b = token).
Proof.
  intros Ht. unfold _parse_table_token. rewrite Ht.
  pose proof (split_join "/" token) as Hj.
  destruct (Py.contains "/" token) eqn:Ec.
  - destruct (Py.split "/" token) as [|a [|b [|c l]]] eqn:Es;
      eexists _, _; (split; [done|]); split;
      try (by right); try (by left; split; [done|rewrite <- Hj]);
      intros n fn Hc Hlen; simpl in Hlen; try lia.
    split; [|done].
    unfold read_stock_list, with_table, bind, self. simpl.
    by rewrite Hc, Ht; simpl; rewrite Ec, Es.
  - rewrite (split_no_sep_id _ _ Ec).
    eexists _, _. split; [done|]. split; [by right|].
    intros n fn Hc Hlen. simpl in Hlen. lia.
Qed.

Lemma parse_table_token_total_witness :
  _parse_table_token three_part_reader
  = Ok ("bascnAAA/tblBBB/extra", "bascnAAA/tblBBB/extra").
Proof.
  destruct (parse_table_token_total three_part_reader
              "bascnAAA/tblBBB/extra" eq_refl) as (a & b & E & _ & H).
  destruct (H demo_net "股票代码" eq_refl) as (_ & -> & ->).
  - vm_compute. lia.
  - exact E.
Defined.

Section ReaderInitFacts.

Variable py_int : string → option Z.
Variable py_float : string → option Q.

(** X12. The constructor of the reader cannot succeed with this
    configuration class: [__init__] reads the attribute
    [feishu_app_id_bitable], which [Config] does not declare, so it raises
    [AttributeError] whenever the configuration loads, and passes on the
    error of the loader otherwise. [get_stock_list_from_feishu] therefore
    never returns a list, and sends nothing. *)
Theorem reader_init_raises (st : State) (n : Net) :
  ∃ e st',
    reader_init py_int py_float st = (Raise e, st') ∧
    get_stock_list_from_feishu py_int py_float st n
    = (Raised (PyExn e), st', n) ∧
    st' = snd (get_config py_int py_float st) ∧
    match fst (get_config py_int py_float st) with
    | Ok _ => e = AttributeError
    | Raise e0 => e = e0
    end.
Proof.
  unfold get_stock_list_from_feishu, reader_init.
  destruct (get_config py_int py_float st) as [[l|e] st1] eqn:E.
  - exists AttributeError, st1. simpl.
    destruct (heap st1 !! l) as [c|]; done.
  - by exists e, st1.
Qed.

End ReaderInitFacts.

(** *** The requests of a read *)

Lemma sends_refl P s : sends P s s.
Proof.
  split; [|done]. exists []. split; [by rewrite app_nil_r|constructor].
Qed.

Lemma sends_trans P s1 s2 s3 : sends P s1 s2 → sends P s2 s3 → sends P s1 s3.
Proof.
  intros [(l1 & E1 & F1) (A1 & B1 & C1)] [(l2 & E2 & F2) (A2 & B2 & C2)].
  split; [|by rewrite A2, B2, C2].
  exists (l1 ++ l2). split; [by rewrite E2, E1, app_assoc|].
  by apply Forall_app.
Qed.

Lemma http_sends (P : request → Prop) req s :
  P req → sends P s (snd (http req s)).
Proof.
  intros HP. destruct s as [r [t sc tr]]. unfold http. simpl.
  destruct sc as [|[dt [| |data]] rest]; simpl;
    (split; [|done]); exists [req]; simpl; (split; [done|]);
    by repeat constructor.
Qed.

Lemma token_sends (P : request → Prop) s :
  P (PostToken (app_id (fst s)) (app_secret (fst s))) →
  sends P s (snd (_get_tenant_access_token s)).
Proof.
  destruct s as [r n]. simpl. intros HP.
  destruct (token_fresh r (now n)) eqn:E.
  - rewrite (token_cached r n E). apply sends_refl.
  - rewrite (token_request r n E). unfold try_except, bind at 1.
    pose proof (http_sends P _ (r, n) HP) as Hh.
    destruct (http (PostToken (app_id r) (app_secret r)) (r, n))
      as [[data|e] s1]; simpl in Hh; [|done].
    unfold bind, lift, ret, raise, timestamp.
    destruct (py_get data "code" JNull) as [code|e]; [|done].
    destruct (negb (eq_zero code)); [done|].
    destruct (py_get data "tenant_access_token" JNull) as [tok|e]; [|done].
    destruct s1 as [r1 n1]. simpl.
    destruct Hh as [Htr (A & B & C)]. by split.
Qed.

Lemma list_records_sends id secret a t pt s :
  app_id (fst s) = id → app_secret (fst s) = secret →
  sends (request_of id secret a t) s
    (snd (_list_table_records a t 100 pt s)).
Proof.
  intros Hid Hsec. unfold _list_table_records, bind at 1.
  pose proof (token_sends (request_of id secret a t) s) as Ht.
  destruct (token_script s) as (tok & s1 & E & _). rewrite E in Ht |- *.
  simpl in Ht. specialize (Ht ltac:(left; congruence)).
  destruct (truthy tok) eqn:Etok; simpl; [|done].
  unfold try_except, bind at 1.
  match goal with |- context [http ?req s1] =>
    pose proof (http_sends (request_of id secret a t) req s1) as Hh;
    destruct (http req s1) as [[data|e] s2]
  end; simpl in Hh.
  - assert (Hs : sends (request_of id secret a t) s s2).
    { eapply sends_trans; [done|]. apply Hh. right. eexists _, _.
      split; [done|]. split; [done|]. intros p.
      destruct pt as [q|]; [|done]. by destruct (truthy q) eqn:Eq; intros [= <-]. }
    unfold bind, lift, ret, raise.
    destruct (py_get data "code" JNull) as [code|e]; [|done].
    by destruct (negb (eq_zero code)).
  - eapply sends_trans; [done|]. apply Hh. right. eexists _, _.
    split; [done|]. split; [done|]. intros p.
    destruct pt as [q|]; [|done]. by destruct (truthy q) eqn:Eq; intros [= <-].
Qed.

Lemma pages_sends {A} (process : json → result (list A)) id secret a t :
  ∀ fuel has_more page_token acc s,
    app_id (fst s) = id → app_secret (fst s) = secret →
    sends (request_of id secret a t) s
      (snd (pages process a t fuel has_more page_token acc s)).
Proof.
  induction fuel as [|fuel IH]; intros has_more page_token acc s Hid Hsec;
    simpl; (destruct (truthy has_more && truthy page_token);
            [|apply sends_refl]); [apply sends_refl|].
  unfold bind at 1.
  pose proof (list_records_sends id secret a t (Some page_token) s Hid Hsec)
    as Hl.
  destruct (_list_table_records a t 100 (Some page_token) s)
    as [[[result|]|e] s1]; simpl in Hl; try done.
  destruct (negb (truthy result)); [done|].
  destruct (page_fields result) as [[[items hm] pt]|e]; [|done].
  unfold bind, lift. destruct (process items) as [new|e]; [|done].
  unfold ret. cbv beta iota. eapply sends_trans; [done|].
  destruct Hl as [_ (Ha & Hb & _)]. apply IH; congruence.
Qed.

Lemma read_pages_sends {A} (process : json → result (list A)) id secret a t s :
  app_id (fst s) = id → app_secret (fst s) = secret →
  sends (request_of id secret a t) s (snd (read_pages process a t s)).
Proof.
  intros Hid Hsec. unfold read_pages, bind at 1.
  pose proof (list_records_sends id secret a t None s Hid Hsec) as Hl.
  destruct (_list_table_records a t 100 None s)
    as [[[result|]|e] s1]; simpl in Hl; try done.
  destruct (negb (truthy result)); [done|].
  destruct (page_fields result) as [[[items hm] pt]|e]; [|done].
  unfold bind, lift. destruct (process items) as [new|e]; [|done].
  unfold ret. cbv beta iota. eapply sends_trans; [done|].
  destruct Hl as [_ (Ha & Hb & _)]. apply pages_sends; congruence.
Qed.

Lemma with_table_sends {A} (process : json → result (list A)) r n :
  ∃ a t,
    sends (request_of (app_id r) (app_secret r) a t) (r, n)
      (snd (with_table (read_pages process) (r, n))) ∧
    (trace (snd (snd (with_table (read_pages process) (r, n)))) ≠ trace n →
     table_token r = Some (a +:+ "/" +:+ t)).
Proof.
  unfold with_table, bind, self. simpl.
  destruct (negb (is_configured r));
    [exists "", ""; split; [apply sends_refl|done]|].
  destruct (table_token r) as [token|]; simpl;
    [|exists "", ""; split; [apply sends_refl|done]].
  pose proof (split_join "/" token) as Hj.
  destruct (Py.contains "/" token);
    [|exists "", ""; split; [apply sends_refl|done]].
  destruct (Py.split "/" token) as [|a [|t [|]]];
    try (exists "", ""; split; [apply sends_refl|done]).
  exists a, t. split; [by apply read_pages_sends|].
  intros _. by rewrite <- Hj.
Qed.

(** X13. What a read sends. Every request sent by [read_stock_list] or
    [get_table_records] is a token request with the credentials of the
    reader, or a request for at most 100 records of the table named by the
    table token, made with a true access token and never with an empty page
    token. Whatever the vendor answers, the requests already in the trace
    stay, and the credentials and the table token of the reader are not
    changed. *)
Theorem reads_send_own_requests py_dict (r : FeishuBitableReader) (n : Net)
    (field_name : string) (field_names : option (list string)) :
  ∀ s', s' = snd (read_stock_list field_name (r, n)) ∨
        s' = snd (get_table_records py_dict field_names (r, n)) →
    ∃ new,
      trace (snd s') = trace n ++ new ∧
      Forall (λ req,
                req = PostToken (app_id r) (app_secret r) ∨
                ∃ a t access_token page_token,
                  table_token r = Some (a +:+ "/" +:+ t) ∧
                  req = GetRecords a t access_token 100 page_token ∧
                  truthy access_token = true ∧
                  ∀ p, page_token = Some p → truthy p = true) new ∧
      app_id (fst s') = app_id r ∧
      app_secret (fst s') = app_secret r ∧
      table_token (fst s') = table_token r.
Proof.
  assert (H : ∀ {A} (process : json → result (list A)),
    let s' := snd (with_table (read_pages process) (r, n)) in
    ∃ new,
      trace (snd s') = trace n ++ new ∧
      Forall (λ req,
                req = PostToken (app_id r) (app_secret r) ∨
                ∃ a t access_token page_token,
                  table_token r = Some (a +:+ "/" +:+ t) ∧
                  req = GetRecords a t access_token 100 page_token ∧
                  truthy access_token = true ∧
                  ∀ p, page_token = Some p → truthy p = true) new ∧
      app_id (fst s') = app_id r ∧
      app_secret (fst s') = app_secret r ∧
      table_token (fst s') = table_token r).
  { intros A process s'.
    destruct (with_table_sends process r n)
      as (a & t & [(new & Etr & HF) (Ha & Hb & Hc)] & Htok).
    fold s' in Etr, Ha, Hb, Hc, Htok. simpl in Etr.
    exists new. repeat split; try done.
    destruct new as [|req new]; [constructor|].
    assert (Ht : table_token r = Some (a +:+ "/" +:+ t)).
    { apply Htok. rewrite Etr. intros E.
      apply (f_equal length) in E. rewrite length_app in E. simpl in E. lia. }
    eapply Forall_impl; [exact HF|]. intros q [->|(tok & pt & -> & H1 & H2)];
      [by left|right]. by exists a, t, tok, pt. }
  intros s' [->| ->]; apply H.
Qed.

Lemma reads_send_own_requests_witness :
  ∃ new,
    trace (snd (snd (read_stock_list "股票代码" (demo_reader, demo_net))))
    = trace demo_net ++ new ∧
    Forall (λ req,
              req = PostToken (app_id demo_reader) (app_secret demo_reader) ∨
              ∃ a t access_token page_token,
                table_token demo_reader = Some (a +:+ "/" +:+ t) ∧
                req = GetRecords a t access_token 100 page_token ∧
                truthy access_token = true ∧
                ∀ p, page_token = Some p → truthy p = true) new ∧
    app_id (fst (snd (read_stock_list "股票代码" (demo_reader, demo_net))))
    = app_id demo_reader ∧
    app_secret (fst (snd (read_stock_list "股票代码" (demo_reader, demo_net))))
    = app_secret demo_reader ∧
    table_token (fst (snd (read_stock_list "股票代码" (demo_reader, demo_net))))
    = table_token demo_reader.
Proof.
  apply (reads_send_own_requests (λ j, Ok j) demo_reader demo_net
           "股票代码" None).
  left. reflexivity.
Defined.

(** *** The token cache across calls *)

Lemma token_request_outcome (r : FeishuBitableReader) (n : Net) :
  token_fresh r (now n) = false →
  ∃ v r' n',
    _get_tenant_access_token (r, n) = (Return v, (r', n')) ∧
    trace n' = trace n ++ [PostToken (app_id r) (app_secret r)] ∧
    match script n with
    | (dt, Body (JDict m)) :: rest =>
        if eq_zero (default JNull (dict_get m "code")) then
          v = default JNull (dict_get m "tenant_access_token") ∧
          now n' = (now n + dt)%Q ∧
          r' = {| app_id := app_id r; app_secret := app_secret r;
                  table_token := table_token r;
                  _access_token := v;
                  _token_expires_at := Some (now n' + 5400)%Q |}
        else v = JNull ∧ r' = r
    | _ => v = JNull ∧ r' = r
    end.
Proof.
  intros H. rewrite (token_request r n H).
  unfold try_except, bind, http. destruct n as [t sc tr]. simpl.
  destruct sc as [|[dt rep] rest]; simpl.
  { by eexists _, _, _. }
  destruct rep as [| |data]; simpl; try by eexists _, _, _.
  destruct data as [| | | | |m]; simpl; try by eexists _, _, _.
  destruct (eq_zero (default JNull (dict_get m "code"))); simpl;
    by eexists _, _, _.
Qed.

(** X14. Reuse of a stored token. After a token request that the vendor
    answers with code zero at time [t], a true token is served from the
    cache, with nothing sent, at every later call made strictly before
    [t + 5400]; from [t + 5400] on the next call sends a token request
    again. A false token (missing, null or empty) is stored too, but never
    served: the next call sends a request whatever the time. *)
Theorem stored_token_reuse (r : FeishuBitableReader) (n : Net) (dt : Q)
    (m : list (string * json)) (rest : list (Q * reply)) :
  token_fresh r (now n) = false →
  script n = (dt, Body (JDict m)) :: rest →
  eq_zero (default JNull (dict_get m "code")) = true →
  ¬ (now n + dt + 5400 == 0)%Q →
  let tok := default JNull (dict_get m "tenant_access_token") in
  ∃ r' n',
    _get_tenant_access_token (r, n) = (Return tok, (r', n')) ∧
    now n' = (now n + dt)%Q ∧
    ∀ n2,
      if truthy tok && Qltb (now n2) (now n + dt + 5400) then
        _get_tenant_access_token (r', n2) = (Return tok, (r', n2))
      else
        trace (snd (snd (_get_tenant_access_token (r', n2))))
        = trace n2 ++ [PostToken (app_id r) (app_secret r)].
Proof.
  intros Hf Hs Hc Hz tok.
  destruct (token_request_outcome r n Hf) as (v & r' & n' & E & _ & H).
  rewrite Hs, Hc in H. destruct H as (-> & Hn & ->).
  rewrite Hn in E. fold tok in E.
  eexists _, n'. split; [exact E|]. split; [done|].
  intros n2.
  match goal with |- context [_get_tenant_access_token (?x, n2)] =>
    set (r' := x) end.
  assert (Hfresh : token_fresh r' (now n2)
                   = truthy tok && Qltb (now n2) (now n + dt + 5400)).
  { unfold token_fresh, r'. simpl. by rewrite (Qeq_bool_false _ _ Hz). }
  rewrite <- Hfresh. destruct (token_fresh r' (now n2)) eqn:E2.
  - by apply token_cached.
  - destruct (token_request_outcome r' n2 E2)
      as (v2 & r2 & n3 & -> & Htr & _). exact Htr.
Qed.

Lemma stored_token_reuse_witness :
  ∃ r' n',
    _get_tenant_access_token (demo_reader, demo_net)
    = (Return (JStr "t-abc"), (r', n')) ∧
    _get_tenant_access_token (r', n') = (Return (JStr "t-abc"), (r', n')).
Proof.
  destruct (stored_token_reuse demo_reader demo_net (1#2)
              [("code", JNum 0); ("tenant_access_token", JStr "t-abc")]
              (tail (script demo_net)) eq_refl eq_refl eq_refl
              ltac:(intros H; vm_compute in H; discriminate))
    as (r' & n' & E & Hn & H).
  exists r', n'. split; [exact E|].
  specialize (H n'). rewrite Hn in H. exact H.
Defined.

(** *** Selecting fields *)

Section RecordsFacts.

Variable py_dict : json → result json.

Lemma dict_get_filter (p : string → bool) (m : list (string * json)) k :
  dict_get (List.filter (λ kv, p (fst kv)) m) k
  = if p k then dict_get m k else None.
Proof.
  induction m as [|[k' v] m IH]; simpl; [by destruct (p k)|].
  destruct (p k') eqn:E; simpl; destruct (decide (k' = k)) as [->|Hne];
    try done.
  - by rewrite E.
  - by rewrite IH, E.
Qed.

Lemma process_loop_selected n ns records acc out :
  process_loop py_dict (Some (n :: ns)) records acc = Ok out →
  ∃ news, Forall2 (selected (n :: ns)) records news ∧ out = acc ++ news.
Proof.
  revert acc. induction records as [|record rest IH]; intros acc; simpl.
  - intros [= <-]. exists []. split; [constructor|]. by rewrite app_nil_r.
  - unfold process_one.
    destruct (py_get record "fields" (JDict [])) as [fields|] eqn:E;
      [|done]. simpl.
    destruct fields as [| | | | |m]; try done. simpl.
    intros H. destruct (IH _ H) as (news & HF & ->).
    eexists (_ :: news). split; [constructor; [|exact HF]|].
    + by exists m.
    + by rewrite <- app_assoc.
Qed.

(** X15. Selecting fields. With a non-empty list of field names,
    [_process_records] gives one dictionary per record, in order: the
    fields of the record whose name is in the list, each with its value, and
    no others. Every record returned by [get_table_records] is such a
    dictionary: all its keys are among the names asked for. *)
Theorem selected_fields_only (names : list string) :
  names ≠ [] →
  (∀ records out,
     _process_records py_dict (JList records) (Some names) = Ok out →
     Forall2 (λ record o,
                ∃ m, py_get record "fields" (JDict []) = Ok (JDict m) ∧
                     ∀ k dflt,
                       py_get o k dflt
                       = Ok (if bool_decide (k ∈ names)
                             then default dflt (dict_get m k) else dflt))
       records out) ∧
  (∀ s l s',
     get_table_records py_dict (Some names) s = (Return l, s') →
     Forall (λ o, ∃ m, o = JDict m ∧ Forall (λ kv, fst kv ∈ names) m) l).
Proof.
  intros Hne. destruct names as [|n ns]; [done|]. split.
  - intros records out H. unfold _process_records in H. simpl in H.
    apply process_loop_selected in H as (news & HF & ->). simpl.
    eapply Forall2_impl; [exact HF|].
    intros record o (m & Hm & ->). exists m. split; [done|].
    intros k dflt. simpl.
    pose proof (dict_get_filter (λ k, bool_decide (k ∈ n :: ns)) m k) as Hd.
    cbv beta in Hd. rewrite Hd.
    by destruct (bool_decide (k ∈ n :: ns)).
  - apply with_table_Forall. intros a t. apply read_pages_Forall.
    intros items new H. unfold _process_records in H.
    destruct (py_iter items) as [records|]; [|done]. simpl in H.
    apply process_loop_selected in H as (news & HF & ->). simpl.
    clear -HF. induction HF as [|record o ? ? (m & _ & ->) _ IH];
      constructor; [|done].
    eexists. split; [done|].
    apply Forall_forall. intros kv Hin.
    apply list_elem_of_In, filter_In in Hin as [_ Hin].
    by apply bool_decide_eq_true_1 in Hin.
Qed.

End RecordsFacts.

Lemma selected_fields_only_witness :
  _process_records (λ j, Ok j)
    (JList [JDict [("fields", JDict [("code", JStr "600519");
                                     ("name", JStr "x");
                                     ("note", JNull)])]])
    (Some ["name"; "code"])
  = Ok [JDict [("code", JStr "600519"); ("name", JStr "x")]] ∧
  Forall2 (λ record o,
             ∃ m, py_get record "fields" (JDict []) = Ok (JDict m) ∧
                  ∀ k dflt,
                    py_get o k dflt
                    = Ok (if bool_decide (k ∈ ["name"; "code"])
                          then default dflt (dict_get m k) else dflt))
    [JDict [("fields", JDict [("code", JStr "600519");
                              ("name", JStr "x");
                              ("note", JNull)])]]
    [JDict [("code", JStr "600519"); ("name", JStr "x")]].
Proof.
  split; [reflexivity|].
  apply (proj1 (selected_fields_only (λ j, Ok j) ["name"; "code"]
                  ltac:(discriminate))).
  reflexivity.
Defined.

(** *** One exchange with a valid token *)

Lemma list_records_fresh r n a t ps pt dt m rest :
  token_fresh r (now n) = true →
  script n = (dt, Body (JDict m)) :: rest →
  eq_zero (default JNull (dict_get m "code")) = true →
  _list_table_records a t ps pt (r, n)
  = (Return (Some (JDict m)),
     (r, {| now := now n + dt; script := rest;
            trace := trace n ++
              [GetRecords a t (_access_token r) ps
                 match pt with
                 | Some p => if truthy p then Some p else None
                 | None => None
                 end] |})).
Proof.
  intros Hf Hs Hz. unfold _list_table_records, bind at 1.
  rewrite (token_cached r n Hf).
  apply andb_prop in Hf as Hf'. destruct Hf' as [-> _].
  unfold try_except, bind, http. simpl. rewrite Hs.
  unfold lift, py_get, ret. by rewrite Hz.
Qed.

Lemma list_records_fails r n a t ps pt :
  token_fresh r (now n) = true →
  match script n with
  | (dt, Body (JDict m)) :: rest =>
      eq_zero (default JNull (dict_get m "code")) = false
  | _ => True
  end →
  ∃ n', _list_table_records a t ps pt (r, n) = (Return None, (r, n')) ∧
        trace n' = trace n ++
          [GetRecords a t (_access_token r) ps
             match pt with
             | Some p => if truthy p then Some p else None
             | None => None
             end].
Proof.
  intros Hf Hs. unfold _list_table_records, bind at 1.
  rewrite (token_cached r n Hf).
  apply andb_prop in Hf as Hf'. destruct Hf' as [-> _].
  unfold try_except, bind, http. simpl.
  destruct (script n) as [|[dt [| |data]] rest]; try by eexists.
  unfold lift, ret, raise.
  destruct data as [| | | | |m]; try by eexists.
  unfold py_get. rewrite Hs. by eexists.
Qed.

Lemma page_fields_dict m d :
  dict_get m "data" = Some (JDict d) →
  page_fields (JDict m)
  = Return (default (JList []) (dict_get d "items"),
            default (JBool false) (dict_get d "has_more"),
            default JNull (dict_get d "page_token")).
Proof. intros H. unfold page_fields, py_get. by rewrite H. Qed.

(** *** Records that raise *)

Lemma pick_field_dict names m :
  ∃ v, pick_field names (JDict m) = Ok v.
Proof.
  induction names as [|name names IH]; simpl; [by eexists|].
  case_bool_decide as H; [|done].
  destruct H as [v ->]. by eexists.
Qed.

Lemma extract_one_total field_name record :
  well_formed_record record →
  ∃ new, extract_one field_name record = Ok new ∧ (length new ≤ 1)%nat.
Proof.
  intros (m & -> & Hf). unfold extract_one, py_get. unfold rbind at 1.
  assert (∃ mf, default (JDict []) (dict_get m "fields") = JDict mf)
    as [mf ->].
  { destruct (dict_get m "fields") as [f|]; simpl; [done|by eexists]. }
  destruct (pick_field_dict (field_names_tried field_name) mf) as [v ->].
  unfold rbind.
  destruct (truthy v); [|eexists; split; [done|simpl; lia]].
  repeat case_match; eexists; (split; [done|]); simpl; lia.
Qed.

Lemma extract_loop_total field_name records acc :
  Forall well_formed_record records →
  ∃ l, extract_loop field_name records acc = Ok l ∧
       (length l ≤ length acc + length records)%nat.
Proof.
  intros H. revert acc. induction H as [|record rest Hr _ IH]; intros acc.
  - simpl. exists acc. split; [done|lia].
  - simpl. destruct (extract_one_total field_name record Hr) as (new & -> & Hn).
    simpl. destruct (IH (acc ++ new)) as (l & -> & Hl).
    exists l. split; [done|]. rewrite length_app in Hl. lia.
Qed.

Lemma extract_loop_raises field_name pre bad post acc :
  Forall well_formed_record pre → is_dict bad = false →
  extract_loop field_name (pre ++ bad :: post) acc = Raise AttributeError.
Proof.
  intros H Hb. revert acc. induction H as [|record rest Hr _ IH]; intros acc.
  - simpl. unfold extract_one. by destruct bad.
  - simpl. destruct (extract_one_total field_name record Hr) as (new & -> & _).
    simpl. apply IH.
Qed.

(** X16. Malformed records. On a list of well-formed records (dictionaries
    whose ["fields"], when present, is a dictionary)
    [_extract_stock_codes] raises nothing and returns at most one code per
    record. A record that is not a dictionary makes it raise
    [AttributeError], the codes of the records before it being lost, and
    [read_stock_list] does not catch this: with a valid cached token, a
    first page answered with code zero that holds such a record makes the
    whole read raise. *)
Theorem malformed_record_raises (field_name : string) :
  (∀ records,
     Forall well_formed_record records →
     ∃ l, _extract_stock_codes (JList records) field_name = Ok l ∧
          (length l ≤ length records)%nat) ∧
  (∀ pre bad post,
     Forall well_formed_record pre → is_dict bad = false →
     _extract_stock_codes (JList (pre ++ bad :: post)) field_name
     = Raise AttributeError ∧
     ∀ r n a t dt m d rest,
       is_configured r = true →
       table_token r = Some (a +:+ "/" +:+ t) →
       Py.contains "/" a = false → Py.contains "/" t = false →
       token_fresh r (now n) = true →
       script n = (dt, Body (JDict m)) :: rest →
       eq_zero (default JNull (dict_get m "code")) = true →
       dict_get m "data" = Some (JDict d) →
       dict_get d "items" = Some (JList (pre ++ bad :: post)) →
       fst (read_stock_list field_name (r, n))
       = Raised (PyExn AttributeError)).
Proof.
  split.
  - intros records H. unfold _extract_stock_codes. simpl.
    destruct (extract_loop_total field_name records [] H) as (l & -> & Hl).
    by exists l.
  - intros pre bad post H Hb.
    assert (E : _extract_stock_codes (JList (pre ++ bad :: post)) field_name
                = Raise AttributeError).
    { unfold _extract_stock_codes. simpl. by apply extract_loop_raises. }
    split; [exact E|].
    intros r n a t dt m d rest Hc Ht Ha Htb Hf Hs Hz Hd Hi.
    unfold read_stock_list. rewrite (with_table_two _ r n a t) by done.
    unfold read_pages, bind at 1.
    rewrite (list_records_fresh r n a t 100 None dt m rest Hf Hs Hz).
    assert (Htr : truthy (JDict m) = true).
    { destruct m; [done|done]. }
    rewrite Htr. simpl negb. cbv iota.
    rewrite (page_fields_dict m d Hd), Hi. cbn [from_option id].
    unfold bind, lift. by rewrite E.
Qed.

Lemma malformed_record_raises_witness :
  (∃ l, _extract_stock_codes
          (JList [JDict [("fields", JDict [("code", JStr "600519")])];
                  JDict []]) "股票代码" = Ok l ∧
        (length l ≤ 2)%nat) ∧
  _extract_stock_codes
    (JList ([JDict [("fields", JDict [("code", JStr "600519")])]]
            ++ JStr "600519" :: [])) "股票代码"
  = Raise AttributeError.
Proof.
  split.
  - apply (proj1 (malformed_record_raises "股票代码")).
    repeat constructor; eexists; (split; [reflexivity|]); simpl; eauto.
  - apply (proj2 (malformed_record_raises "股票代码")); [|reflexivity].
    repeat constructor; eexists; (split; [reflexivity|]); simpl; eauto.
Defined.

(** *** Cleaning a code *)

Lemma decimal_char c :
  Py.is_decimal_char c = true →
  c ≠ "s"%char ∧ c ≠ "."%char ∧ Py.isdigit_char c = true.
Proof. destruct c as [[] [] [] [] [] [] [] []]; done. Qed.

Lemma decimal_string d :
  Py.forallb_str Py.is_decimal_char d = true →
  Py.contains "s" d = false ∧ Py.contains "." d = false ∧
  Py.forallb_str Py.isdigit_char d = true.
Proof.
  induction d as [|c d IH]; [done|]. simpl. intros H.
  apply andb_prop in H as [Hc Hd]. destruct (IH Hd) as (H1 & H2 & H3).
  destruct (decimal_char c Hc) as (N1 & N2 & ->).
  by rewrite !decide_False, H1, H2, H3.
Qed.

Lemma replace_go_skip o new (d tail : string) :
  Py.contains "s" d = false →
  Py.replace_go (String "s" o) new 0 (d +:+ tail)
  = d +:+ Py.replace_go (String "s" o) new 0 tail.
Proof.
  induction d as [|c d IH]; [done|]. simpl Py.contains.
  destruct (decide (c = "s"%char)) as [|N]; [done|]. intros H.
  rewrite !app_cons_str. simpl.
  rewrite decide_False by done. by rewrite IH.
Qed.

Lemma replace_go_tail o (tail : string) :
  tail = "" ∨ (∃ rest, tail = String "." rest) →
  Py.replace_go (String "s" o) "" 0 tail = "" ∨
  ∃ rest, Py.replace_go (String "s" o) "" 0 tail = String "." rest.
Proof.
  intros [->|[rest ->]]; [by left|right]. simpl. by eexists.
Qed.

Lemma replace_prefixes (p d tail : string) :
  p = "" ∨ p = "sh" ∨ p = "sz" →
  Py.contains "s" d = false →
  Py.replace "sh" "" (Py.replace "sz" "" (p +:+ d +:+ tail))
  = d +:+ Py.replace "sh" "" (Py.replace "sz" "" tail).
Proof.
  unfold Py.replace. intros [->|[->| ->]] Hd.
  - rewrite app_nil_l_str. by rewrite !replace_go_skip.
  - change ("sh" +:+ d +:+ tail) with (String "s" (String "h" (d +:+ tail))).
    change (Py.replace_go "sz" "" 0 (String "s" (String "h" (d +:+ tail))))
      with (String "s" (String "h" (Py.replace_go "sz" "" 0 (d +:+ tail)))).
    rewrite replace_go_skip by done.
    change (Py.replace_go "sh" "" 0
              (String "s" (String "h" (d +:+ Py.replace_go "sz" "" 0 tail))))
      with (Py.replace_go "sh" "" 0 (d +:+ Py.replace_go "sz" "" 0 tail)).
    by rewrite replace_go_skip.
  - change ("sz" +:+ d +:+ tail) with (String "s" (String "z" (d +:+ tail))).
    change (Py.replace_go "sz" "" 0 (String "s" (String "z" (d +:+ tail))))
      with (Py.replace_go "sz" "" 0 (d +:+ tail)).
    by rewrite !replace_go_skip.
Qed.

Lemma clean_code_prefixed (raw p d tail : string) :
  Py.forallb_str Py.is_decimal_char d = true →
  p = "" ∨ p = "sh" ∨ p = "sz" →
  tail = "" ∨ (∃ rest, tail = String "." rest) →
  Py.strip raw = p +:+ d +:+ tail →
  clean_code raw = d.
Proof.
  intros Hd Hp Ht Hs. destruct (decimal_string d Hd) as (Hns & Hnd & _).
  unfold clean_code. rewrite Hs, replace_prefixes by done.
  unfold Py.replace.
  destruct (replace_go_tail "h" _ (replace_go_tail "z" _ Ht)) as [->|[rest ->]].
  - rewrite app_nil_r_str. by apply split_head_no_sep.
  - rewrite split_head_app_sep. by apply split_head_no_sep.
Qed.

(** X17. The spellings of a code that are read. A field value that, once
    stripped of white space, is six decimal digits, optionally preceded by
    ["sh"] or ["sz"] and optionally followed by a ["."] and anything, is
    cleaned to the six digits, and the record gives exactly that code. *)
Theorem prefixed_codes_are_read (field_name raw p d tail : string)
    (record : json) (m : list (string * json)) :
  six_decimal d →
  p = "" ∨ p = "sh" ∨ p = "sz" →
  tail = "" ∨ (∃ rest, tail = String "." rest) →
  Py.strip raw = p +:+ d +:+ tail →
  py_get record "fields" (JDict []) = Ok (JDict m) →
  dict_get m field_name = Some (JStr raw) →
  clean_code raw = d ∧ extract_one field_name record = Ok [d].
Proof.
  intros [Hl Hd] Hp Ht Hs Hf Hv.
  pose proof (clean_code_prefixed raw p d tail Hd Hp Ht Hs) as Hc.
  split; [done|].
  rewrite (extract_one_spec field_name record (JDict m) (JStr raw) Hf).
  - simpl. rewrite Hc. unfold code_ok.
    destruct (decimal_string d Hd) as (_ & _ & Hdig).
    rewrite bool_decide_eq_true_2 by done.
    destruct d as [|c d]; [done|]. unfold Py.isdigit. by rewrite Hdig.
  - simpl. rewrite Hv. rewrite bool_decide_eq_true_2 by by eexists. done.
Qed.

Lemma prefixed_codes_are_read_witness :
  clean_code " sh600519.SH " = "600519" ∧
  extract_one "code"
    (JDict [("fields", JDict [("code", JStr " sh600519.SH ")])])
  = Ok ["600519"].
Proof.
  apply (prefixed_codes_are_read "code" " sh600519.SH " "sh" "600519" ".SH"
           (JDict [("fields", JDict [("code", JStr " sh600519.SH ")])])
           [("code", JStr " sh600519.SH ")]);
    first [reflexivity | by split | by right; left | by right; eexists].
Defined.

(** *** A page that fails *)

Lemma read_pages_first {A} (process : json → result (list A)) a t s m d new s1 :
  _list_table_records a t 100 None s = (Return (Some (JDict m)), s1) →
  dict_get m "data" = Some (JDict d) →
  process (default (JList []) (dict_get d "items")) = Ok new →
  read_pages process a t s
  = pages process a t (S (length (script (snd s1))))
      (default (JBool false) (dict_get d "has_more"))
      (default JNull (dict_get d "page_token")) new s1.
Proof.
  intros Hl Hd Hx. unfold read_pages, bind at 1. rewrite Hl.
  assert (Htr : truthy (JDict m) = true) by (by destruct m).
  rewrite Htr. change (negb true) with false. cbv iota.
  rewrite (page_fields_dict m d Hd).
  unfold bind, lift. by rewrite Hx.
Qed.

Lemma pages_stop {A} (process : json → result (list A)) a t fuel hm pt acc s s1 :
  _list_table_records a t 100 (Some pt) s = (Return None, s1) →
  pages process a t (S fuel) hm pt acc s
  = (Return acc, if truthy hm && truthy pt then s1 else s).
Proof.
  intros Hl. simpl. destruct (truthy hm && truthy pt); [|done].
  unfold bind. by rewrite Hl.
Qed.

(** X18. A failure past the first page is silent. When the first page is
    answered with code zero and announces a further page, and the request
    for that page fails (an exception of the transport, a body that cannot
    be decoded, or an answer whose code is not zero), [read_stock_list]
    returns the codes of the first page as if the list were complete: no
    exception, no third request. The token is taken to be cached and valid
    over both exchanges. *)
Theorem failed_page_is_silent (field_name : string)
    (r : FeishuBitableReader) (n : Net) (a t : string) (dt : Q)
    (m d : list (string * json)) (rest : list (Q * reply))
    (codes : list string) (p : json) :
  is_configured r = true →
  table_token r = Some (a +:+ "/" +:+ t) →
  Py.contains "/" a = false → Py.contains "/" t = false →
  token_fresh r (now n) = true →
  token_fresh r (now n + dt) = true →
  script n = (dt, Body (JDict m)) :: rest →
  eq_zero (default JNull (dict_get m "code")) = true →
  dict_get m "data" = Some (JDict d) →
  _extract_stock_codes (default (JList []) (dict_get d "items")) field_name
  = Ok codes →
  truthy (default (JBool false) (dict_get d "has_more")) = true →
  dict_get d "page_token" = Some p → truthy p = true →
  match rest with
  | (_, Body (JDict m2)) :: _ =>
      eq_zero (default JNull (dict_get m2 "code")) = false
  | _ => True
  end →
  ∃ n',
    read_stock_list field_name (r, n) = (Return codes, (r, n')) ∧
    trace n' = trace n ++ [GetRecords a t (_access_token r) 100 None;
                           GetRecords a t (_access_token r) 100 (Some p)].
Proof.
  intros Hc Ht Ha Htb Hf Hf2 Hs Hz Hd Hx Hm Hp Hpt Hrest.
  unfold read_stock_list. rewrite (with_table_two _ r n a t) by done.
  rewrite (read_pages_first _ a t (r, n) m d codes _
             (list_records_fresh r n a t 100 None dt m rest Hf Hs Hz) Hd Hx).
  rewrite Hp. cbn [from_option id].
  match goal with |- context [pages _ a t _ _ p codes (r, ?n1)] =>
    destruct (list_records_fails r n1 a t 100 (Some p) Hf2 Hrest)
      as (n' & Hl & Htrace)
  end.
  rewrite (pages_stop _ a t _ _ p codes _ _ Hl), Hm, Hpt.
  exists n'. split; [done|].
  rewrite Htrace. simpl. rewrite Hpt. by rewrite <- app_assoc.
Qed.

Lemma failed_page_is_silent_witness :
  ∃ n',
    read_stock_list "股票代码" (cached_reader, cut_net)
    = (Return ["600519"], (cached_reader, n')) ∧
    trace n' = trace cut_net ++
      [GetRecords "bascnAAA" "tblBBB" (JStr "t-abc") 100 None;
       GetRecords "bascnAAA" "tblBBB" (JStr "t-abc") 100 (Some (JStr "p2"))].
Proof.
  apply (failed_page_is_silent "股票代码" cached_reader cut_net
           "bascnAAA" "tblBBB" (1#4)
           [("code", JNum 0); ("data", JDict first_page)] first_page []
           ["600519"] (JStr "p2")); first [reflexivity | exact I].
Defined.

(** *** Reading all the pages *)

Section AllPages.

Context {A : Type}.
Variable process : json → result (list A).
Variables a t : string.
Variable r : FeishuBitableReader.
Variable rest : list (Q * reply).

Lemma pages_follow :
  ∀ ps out fuel has_more pt acc n,
    (truthy has_more && truthy pt = true ↔ ps ≠ []) →
    follows process r (now n) ps out →
    script n = List.map (λ p, (fst p, Body (page_body (snd p)))) ps ++ rest →
    (length ps < fuel)%nat →
    ∃ n',
      pages process a t fuel has_more pt acc (r, n)
      = (Return (acc ++ concat out), (r, n')) ∧
      script n' = rest ∧
      trace n' = trace n ++ page_requests a t (_access_token r) pt ps.
Proof.
  induction ps as [|[dt d] ps IH];
    intros out fuel has_more pt acc n Hcond Hfol Hs Hfuel.
  - destruct out; [|done]. exists n.
    destruct fuel as [|fuel]; [simpl in Hfuel; lia|]. simpl.
    destruct (truthy has_more && truthy pt).
    + by destruct (proj1 Hcond eq_refl).
    + simpl. by rewrite !app_nil_r.
  - destruct out as [|new out]; [done|].
    destruct Hfol as (Hf & Hx & Hann & Hfol).
    destruct fuel as [|fuel]; [simpl in Hfuel; lia|].
    assert (Hc : truthy has_more && truthy pt = true) by by apply Hcond.
    simpl pages. rewrite Hc. unfold bind at 1.
    rewrite (list_records_fresh r n a t 100 (Some pt) dt
               [("code", JNum 0); ("data", JDict d)]
               (List.map (λ p, (fst p, Body (page_body (snd p)))) ps ++ rest)
               Hf Hs eq_refl).
    change (negb (truthy (JDict [("code", JNum 0); ("data", JDict d)])))
      with false. cbv iota.
    rewrite (page_fields_dict [("code", JNum 0); ("data", JDict d)] d eq_refl).
    unfold bind at 1, lift. rewrite Hx. unfold ret at 1. cbv beta iota.
    apply andb_prop in Hc as [_ Hpt]. rewrite Hpt.
    match goal with |- context [pages _ _ _ _ _ _ _ (r, ?n1)] =>
      destruct (IH out fuel
                  (default (JBool false) (dict_get d "has_more"))
                  (default JNull (dict_get d "page_token"))
                  (acc ++ new) n1 Hann Hfol eq_refl
                  ltac:(simpl in Hfuel; lia))
        as (n' & -> & Hs' & Htr)
    end.
    exists n'. split; [by rewrite <- app_assoc|]. split; [done|].
    rewrite Htr. simpl. by rewrite <- app_assoc.
Qed.

Lemma read_pages_follow dt d ps out n :
  follows process r (now n) ((dt, d) :: ps) out →
  script n
  = List.map (λ p, (fst p, Body (page_body (snd p)))) ((dt, d) :: ps)
    ++ rest →
  ∃ n',
    read_pages process a t (r, n) = (Return (concat out), (r, n')) ∧
    script n' = rest ∧
    trace n' = trace n ++
      GetRecords a t (_access_token r) 100 None ::
      page_requests a t (_access_token r)
        (default JNull (dict_get d "page_token")) ps.
Proof.
  intros Hfol Hs. destruct out as [|new out]; [done|].
  destruct Hfol as (Hf & Hx & Hann & Hfol).
  rewrite (read_pages_first process a t (r, n)
             [("code", JNum 0); ("data", JDict d)] d new _
             (list_records_fresh r n a t 100 None dt
                [("code", JNum 0); ("data", JDict d)]
                (List.map (λ p, (fst p, Body (page_body (snd p)))) ps ++ rest)
                Hf Hs eq_refl)
             eq_refl Hx).
  match goal with |- context [pages _ _ _ ?f _ _ _ (r, ?n1)] =>
    destruct (pages_follow ps out f
                (default (JBool false) (dict_get d "has_more"))
                (default JNull (dict_get d "page_token"))
                new n1 Hann Hfol eq_refl)
      as (n' & -> & Hs' & Htr)
  end.
  { cbn [snd script]. rewrite length_app, List.length_map. lia. }
  exists n'. split; [done|]. split; [done|].
  rewrite Htr. simpl. by rewrite <- app_assoc.
Qed.

End AllPages.

(** X19. All the pages, in order. With a cached token that stays valid,
    when the vendor answers a run of pages with code zero, each page but
    the last announcing a further one, [read_stock_list] returns the codes
    of the pages one after the other, and [get_table_records] their
    records; one request is sent per page, the first without page token and
    each further one with the page token of the page before; the answers
    that come after the last page are not consumed. *)
Theorem all_pages_are_read py_dict (field_name : string)
    (field_names : option (list string))
    (r : FeishuBitableReader) (n : Net) (a t : string)
    (dt : Q) (d : list (string * json))
    (ps : list (Q * list (string * json))) (rest : list (Q * reply)) :
  is_configured r = true →
  table_token r = Some (a +:+ "/" +:+ t) →
  Py.contains "/" a = false → Py.contains "/" t = false →
  script n
  = List.map (λ p, (fst p, Body (page_body (snd p)))) ((dt, d) :: ps)
    ++ rest →
  (∀ codes,
     follows (λ items, _extract_stock_codes items field_name) r (now n)
       ((dt, d) :: ps) codes →
     ∃ n',
       read_stock_list field_name (r, n) = (Return (concat codes), (r, n')) ∧
       script n' = rest ∧
       trace n' = trace n ++
         GetRecords a t (_access_token r) 100 None ::
         page_requests a t (_access_token r)
           (default JNull (dict_get d "page_token")) ps) ∧
  (∀ records,
     follows (λ items, _process_records py_dict items field_names) r (now n)
       ((dt, d) :: ps) records →
     ∃ n',
       get_table_records py_dict field_names (r, n)
       = (Return (concat records), (r, n')) ∧
       script n' = rest ∧
       trace n' = trace n ++
         GetRecords a t (_access_token r) 100 None ::
         page_requests a t (_access_token r)
           (default JNull (dict_get d "page_token")) ps).
Proof.
  intros Hc Ht Ha Htb Hs. split.
  - intros codes Hfol. unfold read_stock_list.
    rewrite (with_table_two _ r n a t) by done.
    by apply (read_pages_follow _ a t r rest dt).
  - intros records Hfol. unfold get_table_records.
    rewrite (with_table_two _ r n a t) by done.
    by apply (read_pages_follow _ a t r rest dt).
Qed.

Lemma all_pages_are_read_witness :
  ∃ n',
    read_stock_list "股票代码" (cached_reader, two_page_net)
    = (Return ["600519"; "000001"], (cached_reader, n')) ∧
    script n' = [] ∧
    trace n' = trace two_page_net ++
      [GetRecords "bascnAAA" "tblBBB" (JStr "t-abc") 100 None;
       GetRecords "bascnAAA" "tblBBB" (JStr "t-abc") 100 (Some (JStr "p2"))].
Proof.
  apply (proj1 (all_pages_are_read (λ j, Ok j) "股票代码" None
                  cached_reader two_page_net "bascnAAA" "tblBBB"
                  (1#4) first_page
                  [(1#4, [("items", JList
                             [JDict [("fields",
                                      JDict [("code", JStr "000001.SZ")])]]);
                          ("has_more", JBool false)])]
                  [] eq_refl eq_refl eq_refl eq_refl eq_refl)
           [["600519"]; ["000001"]]).
  simpl. repeat split; try reflexivity; try done.
Defined.

(** *** A token request that fails *)

Lemma read_pages_no_token {A} (process : json → result (list A)) a t r n :
  token_fresh r (now n) = false →
  match script n with
  | (_, Body (JDict m)) :: _ =>
      eq_zero (default JNull (dict_get m "code")) = true →
      truthy (default JNull (dict_get m "tenant_access_token")) = false
  | _ => True
  end →
  ∃ r' n',
    read_pages process a t (r, n) = (Return [], (r', n')) ∧
    trace n' = trace n ++ [PostToken (app_id r) (app_secret r)].
Proof.
  intros Hf Hs.
  destruct (token_request_outcome r n Hf) as (v & r' & n' & E & Htr & H).
  assert (Hv : truthy v = false).
  { destruct (script n) as [|[dt [| |[| | | | |m]]] rest];
      try (by destruct H as [-> _]).
    destruct (eq_zero (default JNull (dict_get m "code")));
      [|by destruct H as [-> _]].
    destruct H as (-> & _). by apply Hs. }
  exists r', n'. split; [|done].
  unfold read_pages, _list_table_records, bind. rewrite E, Hv. done.
Qed.

(** X20. A failed token request is silent. When the reader holds no valid
    token and the token request fails (an exception of the transport, a
    body that is not a JSON object, a code that is not zero, or an answer
    without a true token), [read_stock_list] and [get_table_records] return
    the empty list: nothing is raised, and no request for records is sent. *)
Theorem failed_token_is_silent py_dict (field_name : string)
    (field_names : option (list string))
    (r : FeishuBitableReader) (n : Net) (a t : string) :
  is_configured r = true →
  table_token r = Some (a +:+ "/" +:+ t) →
  Py.contains "/" a = false → Py.contains "/" t = false →
  token_fresh r (now n) = false →
  match script n with
  | (_, Body (JDict m)) :: _ =>
      eq_zero (default JNull (dict_get m "code")) = true →
      truthy (default JNull (dict_get m "tenant_access_token")) = false
  | _ => True
  end →
  (∃ r' n',
     read_stock_list field_name (r, n) = (Return [], (r', n')) ∧
     trace n' = trace n ++ [PostToken (app_id r) (app_secret r)]) ∧
  (∃ r' n',
     get_table_records py_dict field_names (r, n) = (Return [], (r', n')) ∧
     trace n' = trace n ++ [PostToken (app_id r) (app_secret r)]).
Proof.
  intros Hc Ht Ha Htb Hf Hs.
  unfold read_stock_list, get_table_records.
  rewrite !(with_table_two _ r n a t) by done.
  split; by apply read_pages_no_token.
Qed.

Lemma failed_token_is_silent_witness :
  ∃ r' n',
    read_stock_list "股票代码"
      (demo_reader,
       {| now := 1700000000;
          script := [(1#2, Body (JDict [("code", JNum 99991663);
                                        ("msg", JStr "app not found")]))];
          trace := [] |})
    = (Return [], (r', n')) ∧
    trace n' = [] ++ [PostToken (Some "cli_a1b2") (Some "s3cret")].
Proof.
  apply (proj1 (failed_token_is_silent (λ j, Ok j) "股票代码" None
                  demo_reader
                  {| now := 1700000000;
                     script := [(1#2, Body (JDict [("code", JNum 99991663);
                                                   ("msg", JStr "app not found")]))];
                     trace := [] |}
                  "bascnAAA" "tblBBB"
                  eq_refl eq_refl eq_refl eq_refl eq_refl
                  ltac:(discriminate))).
Defined.
